(** * mosu: beatmap parsers, highlight ranges and progress

    A shallow embedding of the two beatmap parsers of the application (the
    split-based parsers of the renderer and the single-pass parser of the
    scanner worker), of the highlight-range builders, of the progress
    calculator and of the highlight (de)serialisation, followed by the
    properties established about them.

    Numbers are JavaScript numbers, that is IEEE 754 binary64 values: they are
    modelled by Rocq's primitive [float]s, so that [NaN], the infinities, the
    signed zeros and rounding behave as they do in the program.  Strings are
    sequences of UTF-16 code units, modelled by lists of integers. *)

From Stdlib Require Import ZArith List Bool Lia Floats.
From Stdlib Require Import Permutation.
From Stdlib Require QArith Qround Qabs.
From Stdlib Require Import Strings.String Strings.Ascii.
Import ListNotations.

Set Warnings "-inexact-float".

(** ** The JavaScript primitives the program uses *)

Module JS.

Local Open Scope Z_scope.

Definition number := float.

(** *** Numbers *)

(** The number nearest to an integer (exact below 2^53). *)
Definition of_Z (z : Z) : number :=
  SF2Prim (binary_normalize prec emax z 0 false).

(** The number nearest to [m * 10^e], for the decimal literals that
    [parseFloat] and [Number] read. *)
Definition of_decimal (m : Z) (e : Z) : number :=
  match m with
  | Z0 => PrimFloat.zero
  | Zpos p =>
      if (0 <=? e)%Z then of_Z (m * 10 ^ e)
      else SF2Prim (SFdiv prec emax (S754_finite false p 0)
                      (S754_finite false (Z.to_pos (10 ^ (- e))) 0))
  | Zneg p =>
      if (0 <=? e)%Z then of_Z (m * 10 ^ e)
      else SF2Prim (SFdiv prec emax (S754_finite true p 0)
                      (S754_finite false (Z.to_pos (10 ^ (- e))) 0))
  end.

(** ToBoolean on a number: [NaN], [+0] and [-0] are falsy. *)
Definition truthy (x : number) : bool := negb (is_nan x || is_zero x).

(** [x || y] on numbers. *)
Definition or_else (x y : number) : number := if truthy x then x else y.

Definition isFinite (x : number) : bool := negb (is_nan x || is_infinity x).

(** [Math.max] and [Math.min] of two arguments: [NaN] is contagious and
    [+0] is larger than [-0]. *)
Definition Math_max (x y : number) : number :=
  if is_nan x || is_nan y then nan
  else if (x <? y)%float then y
  else if (y <? x)%float then x
  else if get_sign x then y else x.

Definition Math_min (x y : number) : number :=
  if is_nan x || is_nan y then nan
  else if (y <? x)%float then y
  else if (x <? y)%float then x
  else if get_sign x then x else y.

(** [Math.min(...xs)]: starts from [+Infinity]. *)
Definition Math_min_list (xs : list number) : number :=
  fold_left Math_min xs infinity.

Definition Math_floor (x : number) : number :=
  match Prim2SF x with
  | S754_finite s m e =>
      if (0 <=? e)%Z then x
      else of_Z ((if s then Zneg m else Zpos m) / 2 ^ (- e))
  | _ => x
  end.

(** The integer part of a finite number, 0 for [NaN] and the infinities. *)
Definition truncate (x : number) : Z :=
  match Prim2SF x with
  | S754_finite s m e =>
      let a := if (0 <=? e)%Z then Zpos m * 2 ^ e else Zpos m / 2 ^ (- e) in
      if s then (- a)%Z else a
  | _ => 0%Z
  end.

(** Two's complement wrap-around to [w] bits. *)
Definition wrap_signed (w : Z) (z : Z) : Z :=
  let m := (z mod 2 ^ w)%Z in
  if (m <? 2 ^ (w - 1))%Z then m else (m - 2 ^ w)%Z.

Definition ToInt32 (x : number) : Z := wrap_signed 32 (truncate x).
Definition ToInt16 (x : number) : Z := wrap_signed 16 (truncate x).

(** The condition [if (x & 2)]. *)
Definition has_bit (x : number) (mask : Z) : bool :=
  negb (Z.land (ToInt32 x) mask =? 0)%Z.

(** *** Strings *)

Definition str := list Z.

Definition lit (s : string) : str :=
  map (fun a => Z.of_N (N_of_ascii a)) (list_ascii_of_string s).

Definition str_eqb (a b : str) : bool :=
  if list_eq_dec Z.eq_dec a b then true else false.

Definition len (s : str) : Z := Z.of_nat (List.length s).

(** [s.charCodeAt(i)]; [None] stands for [NaN]. *)
Definition charCodeAt (s : str) (i : Z) : option Z :=
  if (i <? 0)%Z then None else nth_error s (Z.to_nat i).

(** [s.charCodeAt(i) === c]. *)
Definition codeIs (s : str) (i : Z) (c : Z) : bool :=
  match charCodeAt s i with Some x => (x =? c)%Z | None => false end.

(** White space and line terminators, as [trim], [parseInt] and
    [parseFloat] strip them. *)
Definition isWhiteSpace (c : Z) : bool :=
  ((9 <=? c) && (c <=? 13) || (c =? 32) || (c =? 160) || (c =? 5760)
   || (8192 <=? c) && (c <=? 8202) || (c =? 8232) || (c =? 8233)
   || (c =? 8239) || (c =? 8287) || (c =? 12288) || (c =? 65279))%Z.

Fixpoint trimStart (s : str) : str :=
  match s with
  | c :: r => if isWhiteSpace c then trimStart r else s
  | [] => []
  end.

Definition trimEnd (s : str) : str := rev (trimStart (rev s)).
Definition trim (s : str) : str := trimEnd (trimStart s).

Fixpoint startsWith (s p : str) : bool :=
  match p, s with
  | [], _ => true
  | c :: p', d :: s' => (c =? d)%Z && startsWith s' p'
  | _ :: _, [] => false
  end.

Definition endsWith (s p : str) : bool := startsWith (rev s) (rev p).

(** [s.slice(a, b)], negative indices counting from the end. *)
Definition slice (s : str) (a b : Z) : str :=
  let n := len s in
  let from := if (a <? 0)%Z then Z.max (n + a) 0 else Z.min a n in
  let to := if (b <? 0)%Z then Z.max (n + b) 0 else Z.min b n in
  firstn (Z.to_nat (to - from)) (skipn (Z.to_nat from) s).

Definition slice_from (s : str) (a : Z) : str := slice s a (len s).

(** [toLowerCase]: the letters A-Z, and the Kelvin sign, which is the only
    other code unit whose lower case is an ASCII letter.  The results are
    only ever compared with ASCII literals, so the lower case of the other
    letters outside ASCII is left as it is. *)
Definition lowerCode (c : Z) : Z :=
  if ((65 <=? c) && (c <=? 90))%Z then (c + 32)%Z
  else if (c =? 8490)%Z then 107%Z else c.

Definition toLowerCase (s : str) : str := map lowerCode s.

Fixpoint find_index (c : Z) (s : str) (i : Z) : Z :=
  match s with
  | [] => (-1)%Z
  | x :: r => if (x =? c)%Z then i else find_index c r (i + 1)%Z
  end.

(** [s.indexOf(c, from)] for a one-character [c]. *)
Definition indexOf (s : str) (c : Z) (from : Z) : Z :=
  let f := Z.max from 0 in
  find_index c (skipn (Z.to_nat f) s) f.

Fixpoint find_last (c : Z) (s : str) (i : Z) (found : Z) : Z :=
  match s with
  | [] => found
  | x :: r => find_last c r (i + 1)%Z (if (x =? c)%Z then i else found)
  end.

Definition lastIndexOf (s : str) (c : Z) : Z := find_last c s 0%Z (-1)%Z.

(** [s.split(sep)] for a one-character separator. *)
Fixpoint split (sep : Z) (s : str) : list str :=
  match s with
  | [] => [[]]
  | c :: r =>
      if (c =? sep)%Z then [] :: split sep r
      else match split sep r with
           | h :: t => (c :: h) :: t
           | [] => [[c]]
           end
  end.

Definition cons_head (c : Z) (l : list str) : list str :=
  match l with
  | h :: t => (c :: h) :: t
  | [] => [[c]]
  end.

(** [s.split(/\r?\n/)]. *)
Fixpoint split_lines (s : str) : list str :=
  match s with
  | [] => [[]]
  | c :: r =>
      if (c =? 10)%Z then [] :: split_lines r
      else match r with
           | c2 :: r2 =>
               if ((c =? 13) && (c2 =? 10))%Z then [] :: split_lines r2
               else cons_head c (split_lines r)
           | [] => cons_head c (split_lines r)
           end
  end.

(** *** Reading numbers from strings *)

Definition digitValue (c : Z) : option Z :=
  if ((48 <=? c) && (c <=? 57))%Z then Some (c - 48)%Z
  else if ((97 <=? c) && (c <=? 122))%Z then Some (c - 87)%Z
  else if ((65 <=? c) && (c <=? 90))%Z then Some (c - 55)%Z
  else None.

(** The longest prefix of digits in the given radix: its value and the
    number of digits, with what follows it. *)
Fixpoint digits (radix : Z) (s : str) (acc : Z) (n : Z) : Z * Z * str :=
  match s with
  | c :: r =>
      match digitValue c with
      | Some d =>
          if (d <? radix)%Z then digits radix r (acc * radix + d)%Z (n + 1)%Z
          else (acc, n, s)
      | None => (acc, n, s)
      end
  | [] => (acc, n, s)
  end.

Definition strip_sign (s : str) : bool * str :=
  match s with
  | 45%Z :: r => (true, r)
  | 43%Z :: r => (false, r)
  | _ => (false, s)
  end.

Definition with_sign (neg : bool) (x : number) : number :=
  if neg then (- x)%float else x.

(** [parseInt(s, radix)]; the radix 0 stands for an absent radix. *)
Definition parseInt (s : str) (radix : Z) : number :=
  let '(neg, s1) := strip_sign (trimStart s) in
  let r := wrap_signed 32 radix in
  if (negb (r =? 0) && ((r <? 2) || (36 <? r)))%Z then nan
  else
    let strip := ((r =? 0) || (r =? 16))%Z in
    let hex := strip && (startsWith s1 (lit "0x") || startsWith s1 (lit "0X")) in
    let r' := if hex then 16%Z else if (r =? 0)%Z then 10%Z else r in
    let s2 := if hex then skipn 2 s1 else s1 in
    let '(v, n, _) := digits r' s2 0%Z 0%Z in
    if (n =? 0)%Z then nan else with_sign neg (of_Z v).

(** The exponent part of a decimal literal, if there is one. *)
Definition exponent (s : str) : Z :=
  match s with
  | c :: r =>
      if ((c =? 101) || (c =? 69))%Z then
        let '(neg, r1) := strip_sign r in
        let '(v, n, _) := digits 10 r1 0%Z 0%Z in
        if (n =? 0)%Z then 0%Z else if neg then (- v)%Z else v
      else 0%Z
  | [] => 0%Z
  end.

(** [parseFloat(s)]: the longest prefix that is a decimal literal.  The decimal
    exponent is clamped to a range outside of which the result is an infinity
    or a zero anyway. *)
Definition parseFloat (s : str) : number :=
  let '(neg, s1) := strip_sign (trimStart s) in
  if startsWith s1 (lit "Infinity") then with_sign neg infinity
  else
    let '(ip, ni, s2) := digits 10 s1 0%Z 0%Z in
    let '(m, nf, s3) :=
      match s2 with
      | 46%Z :: r =>
          let '(m, nf, s3) := digits 10 r ip 0%Z in
          if ((ni =? 0) && (nf =? 0))%Z then (ip, 0%Z, s2) else (m, nf, s3)
      | _ => (ip, 0%Z, s2)
      end in
    if ((ni =? 0) && (nf =? 0))%Z then nan
    else
      let e := (exponent s3 - nf)%Z in
      let e' := Z.max (- (ni + nf + 400)) (Z.min e 400) in
      with_sign neg (of_decimal m e').

End JS.

(** ** Data shared by the two parsers and the highlight engine *)

(** A timing point [{time, beatLength, uninherited}]. *)
Record timingPoint := TimingPoint {
  tp_time : JS.number;
  tp_beatLength : JS.number;
  tp_uninherited : bool
}.

(** The result [{beatLength, sv}] of the timing resolver. *)
Record timing := Timing {
  t_beatLength : JS.number;
  t_sv : JS.number
}.

(** A break period [{start, end}]. *)
Record breakPeriod := BreakPeriod {
  bp_start : JS.number;
  bp_end : JS.number
}.

(** A highlight range [{start, end, type}]; [None] is an absent [type]. *)
Record range := Range {
  r_start : JS.number;
  r_end : JS.number;
  r_type : option JS.str
}.

(** [list[i] = v] on an array, for an index inside the array (the program
    never writes past the end of one). *)
Fixpoint update {A : Type} (l : list A) (i : nat) (v : A) : list A :=
  match l, i with
  | [], _ => []
  | _ :: r, O => v :: r
  | x :: r, S j => x :: update r j v
  end.

(** ** The renderer: split-based parsers, highlight ranges, progress *)

Module Renderer.

Import JS.
Local Open Scope Z_scope.

(** [getTiming], the closure of [parseHitObjects] over [timingPoints]. *)
Fixpoint getTiming_loop (tps : list timingPoint) (time : number)
    (activeBPM activeSV : number) : timing :=
  match tps with
  | [] => Timing activeBPM activeSV
  | tp :: rest =>
      if (time <? tp_time tp)%float then Timing activeBPM activeSV
      else if tp_uninherited tp then
        getTiming_loop rest time (tp_beatLength tp) 1%float
      else if (tp_beatLength tp <? 0)%float then
        getTiming_loop rest time activeBPM (-100 / tp_beatLength tp)%float
      else getTiming_loop rest time activeBPM activeSV
  end.

Definition getTiming (timingPoints : list timingPoint) (time : number)
    : timing :=
  getTiming_loop timingPoints time (60000 / 120)%float 1%float.

(** The test [trimmed.startsWith('[') && trimmed.endsWith(']')]. *)
Definition isHeader (trimmed : str) : bool :=
  startsWith trimmed (lit "[") && endsWith trimmed (lit "]").

Definition isEmpty (s : str) : bool :=
  match s with [] => true | _ => false end.

(** [!list.length]. *)
Definition isEmpty_list {A : Type} (l : list A) : bool :=
  match l with [] => true | _ => false end.

(** [parts[i]]; the program reads a part only below [parts.length]. *)
Definition part (parts : list str) (i : nat) : str := nth i parts [].

(** *** parseBreakPeriods *)

Definition parseBreakPeriods_line (st : bool * list breakPeriod) (line : str)
    : bool * list breakPeriod :=
  let '(inEvents, breaks) := st in
  let trimmed := trim line in
  if isEmpty trimmed then st
  else if isHeader trimmed then (str_eqb trimmed (lit "[Events]"), breaks)
  else if negb inEvents || startsWith trimmed (lit "//") then st
  else
    let parts := map trim (split 44 trimmed) in
    if (List.length parts <? 3)%nat then st
    else
      let typeToken := part parts 0 in
      if negb (str_eqb typeToken (lit "2"))
         && negb (str_eqb (toLowerCase typeToken) (lit "break")) then st
      else
        let startTime := parseInt (part parts 1) 10 in
        let endTime := parseInt (part parts 2) 10 in
        if isFinite startTime && isFinite endTime
           && (startTime <? endTime)%float
        then (inEvents, breaks ++ [BreakPeriod startTime endTime])
        else st.

Definition parseBreakPeriods (content : str) : list breakPeriod :=
  snd (fold_left parseBreakPeriods_line (split_lines content) (false, [])).

(** *** parseHitObjects *)

Record hitState := HitState {
  section : str;
  inHitObjects : bool;
  sliderMultiplier : number;
  timingPoints : list timingPoint;
  hitStarts : list number;
  hitEnds : list number;
  hitTypes : list number
}.

(** The end time of the hit object on a line (before [Math.max(time, _)]). *)
Definition hitEndTime (sm : number) (tps : list timingPoint)
    (parts : list str) (time type : number) : number :=
  if has_bit type 2 then
    if (8 <=? List.length parts)%nat then
      let slides := or_else (parseInt (part parts 6) 0) 1%float in
      let length := or_else (parseFloat (part parts 7)) 0%float in
      let timing := getTiming tps time in
      let duration :=
        ((length / (sm * 100 * t_sv timing)) * t_beatLength timing * slides)%float in
      (time + Math_max 0%float (Math_floor duration))%float
    else time
  else if has_bit type 8 then
    if (6 <=? List.length parts)%nat
    then or_else (parseInt (part parts 5) 0) time else time
  else if has_bit type 128 then
    if (6 <=? List.length parts)%nat
    then or_else (parseInt (part (split 58 (part parts 5)) 0) 0) time else time
  else time.

(** "Fill gap if previous was a slider", then the three pushes. *)
Definition pushHit (ends types : list number) (time endTime type : number)
    : list number * list number :=
  let ends' :=
    if (0 <? List.length ends)%nat then
      match nth_error types (List.length types - 1) with
      | Some prevType =>
          if has_bit prevType 2 then
            match nth_error ends (List.length ends - 1) with
            | Some prevEnd =>
                update ends (List.length ends - 1) (Math_max prevEnd time)
            | None => ends
            end
          else ends
      | None => ends
      end
    else ends in
  (ends' ++ [Math_max time endTime], types ++ [type]).

Definition parseHitObjects_line (st : hitState) (line : str) : hitState :=
  let trimmed := trim line in
  if isEmpty trimmed || startsWith trimmed (lit "//") then st
  else if isHeader trimmed then
    let section' := toLowerCase (slice trimmed 1 (-1)) in
    HitState section' (str_eqb section' (lit "hitobjects"))
      (sliderMultiplier st) (timingPoints st)
      (hitStarts st) (hitEnds st) (hitTypes st)
  else if str_eqb (section st) (lit "difficulty") then
    let sep := indexOf trimmed 58 0 in
    if negb (sep =? -1) then
      let key := toLowerCase (trim (slice trimmed 0 sep)) in
      if str_eqb key (lit "slidermultiplier") then
        HitState (section st) (inHitObjects st)
          (or_else (parseFloat (slice_from trimmed (sep + 1))) 1%float)
          (timingPoints st) (hitStarts st) (hitEnds st) (hitTypes st)
      else st
    else st
  else if str_eqb (section st) (lit "timingpoints") then
    let parts := split 44 trimmed in
    if (2 <=? List.length parts)%nat then
      HitState (section st) (inHitObjects st) (sliderMultiplier st)
        (timingPoints st ++
           [TimingPoint (parseInt (part parts 0) 0) (parseFloat (part parts 1))
              (if (6 <? List.length parts)%nat
               then str_eqb (part parts 6) (lit "1") else true)])
        (hitStarts st) (hitEnds st) (hitTypes st)
    else st
  else if inHitObjects st then
    let parts := split 44 trimmed in
    if (List.length parts <? 4)%nat then st
    else
      let time := parseInt (part parts 2) 0 in
      let type := parseInt (part parts 3) 0 in
      let endTime :=
        hitEndTime (sliderMultiplier st) (timingPoints st) parts time type in
      let '(ends, types) := pushHit (hitEnds st) (hitTypes st) time endTime type in
      HitState (section st) (inHitObjects st) (sliderMultiplier st)
        (timingPoints st) (hitStarts st ++ [time]) ends types
  else st.

Definition parseHitObjects_init : hitState :=
  HitState [] false 1%float [] [] [] [].

(** The result [{hitStarts, hitEnds}]. *)
Definition parseHitObjects (content : str) : list number * list number :=
  let st := fold_left parseHitObjects_line (split_lines content)
              parseHitObjects_init in
  (hitStarts st, hitEnds st).

(** *** parseBookmarks *)

Fixpoint parseBookmarks_loop (inEditor : bool) (lines : list str)
    : list number :=
  match lines with
  | [] => []
  | line :: rest =>
      let trimmed := trim line in
      if isEmpty trimmed then parseBookmarks_loop inEditor rest
      else if isHeader trimmed then
        parseBookmarks_loop (str_eqb trimmed (lit "[Editor]")) rest
      else if negb inEditor then parseBookmarks_loop inEditor rest
      else if startsWith trimmed (lit "Bookmarks:") then
        let raw := trim (slice_from trimmed 10) in
        if isEmpty raw then []
        else filter isFinite
               (map (fun val => parseInt (trim val) 10) (split 44 raw))
      else parseBookmarks_loop inEditor rest
  end.

Definition parseBookmarks (content : str) : list number :=
  parseBookmarks_loop false (split_lines content).

(** *** parseBackgroundFilename *)

(** The longest run of characters other than the double quote, and the rest. *)
Fixpoint spanUnquoted (s : str) : str * str :=
  match s with
  | [] => ([], [])
  | c :: r =>
      if c =? 34 then ([], s)
      else let '(a, b) := spanUnquoted r in (c :: a, b)
  end.

(** The first group of the first match of the pattern: a double quote, one
    or more characters other than a double quote, a double quote. *)
Fixpoint quotedMatch (s : str) : option str :=
  match s with
  | [] => None
  | c :: r =>
      if c =? 34 then
        match spanUnquoted r with
        | ((_ :: _) as body, 34 :: _) => Some body
        | _ => quotedMatch r
        end
      else quotedMatch r
  end.

(** [s.replace(/^"|"$/g, '')]. *)
Definition stripQuotes (s : str) : str :=
  let s1 := match s with 34 :: r => r | _ => s end in
  match rev s1 with
  | 34 :: r => rev r
  | _ => s1
  end.

(** Letter case as a pattern with the [i] flag ignores it: ASCII only. *)
Definition foldCase (c : Z) : Z :=
  if (65 <=? c) && (c <=? 90) then c + 32 else c.

(** The test of the pattern [\.(jpe?g|png|gif|bmp)$] with the [i] flag. *)
Definition imagePattern (candidate : str) : bool :=
  existsb (fun e => endsWith (map foldCase candidate) e)
    [lit ".jpg"; lit ".jpeg"; lit ".png"; lit ".gif"; lit ".bmp"].

Fixpoint parseBackgroundFilename_loop (inEvents : bool) (lines : list str)
    : str :=
  match lines with
  | [] => []
  | line :: rest =>
      let trimmed := trim line in
      if isEmpty trimmed then parseBackgroundFilename_loop inEvents rest
      else if isHeader trimmed then
        parseBackgroundFilename_loop (str_eqb trimmed (lit "[Events]")) rest
      else if negb inEvents || startsWith trimmed (lit "//") then
        parseBackgroundFilename_loop inEvents rest
      else
        let candidate :=
          match quotedMatch trimmed with
          | Some q => q
          | None =>
              let parts := map trim (split 44 trimmed) in
              if (3 <=? List.length parts)%nat
              then stripQuotes (part parts 2) else []
          end in
        if negb (isEmpty candidate) && imagePattern candidate then candidate
        else parseBackgroundFilename_loop inEvents rest
  end.

Definition parseBackgroundFilename (content : str) : str :=
  parseBackgroundFilename_loop false (split_lines content).

(** *** Highlight ranges *)

Definition kindObject : option str := Some (lit "object").
Definition kindBreak : option str := Some (lit "break").
Definition kindBookmark : option str := Some (lit "bookmark").

(** [flags[j] = true] for a number [j]; only the indices below the number
    of bins are ever read back. *)
Definition setFlag (flags : list bool) (j : number) : list bool :=
  if (0 <=? j)%float then update flags (Z.to_nat (truncate j)) true
  else flags.

(** [for (let j = startIdx; j <= endIdx; j++) flags[j] = true].  The loop
    starts at an index that is not negative and ends below the number of
    bins, which bounds its iterations. *)
Fixpoint markBins (fuel : nat) (flags : list bool) (j endIdx : number)
    : list bool :=
  match fuel with
  | O => flags
  | S fuel' =>
      if (j <=? endIdx)%float
      then markBins fuel' (setFlag flags j) (j + 1)%float endIdx
      else flags
  end.

(** The first loop of [buildHighlightRanges]; [ends] is read in step with
    [starts], an end that is missing being the start. *)
Fixpoint markObjects (bins : nat) (starts ends : list number)
    (maxTime : number) (flags : list bool) : list bool :=
  match starts with
  | [] => flags
  | start :: starts' =>
      let end_ := match ends with e :: _ => e | [] => start end in
      let flags' :=
        if (start <? 0)%float || (maxTime <? start)%float then flags
        else
          let top := of_Z (Z.of_nat bins - 1) in
          let startIdx :=
            Math_min top (Math_floor ((start / maxTime) * of_Z (Z.of_nat bins))%float) in
          let endIdx :=
            Math_min top
              (Math_floor ((Math_max start end_ / maxTime) * of_Z (Z.of_nat bins))%float) in
          markBins bins flags startIdx endIdx in
      markObjects bins starts' (tl ends) maxTime flags'
  end.

(** The second loop of [buildHighlightRanges], from bin [i] on, with the
    final push for a run that is still open. *)
Fixpoint encodeRuns (n : nat) (bins : Z) (flags : list bool) (i : Z)
    (start : option Z) : list range :=
  match n with
  | O =>
      match start with
      | Some s => [Range (of_Z s / of_Z bins)%float 1%float kindObject]
      | None => []
      end
  | S n' =>
      if nth (Z.to_nat i) flags false then
        encodeRuns n' bins flags (i + 1)
          (match start with None => Some i | Some s => Some s end)
      else
        match start with
        | Some s =>
            Range (of_Z s / of_Z bins)%float (of_Z i / of_Z bins)%float kindObject
            :: encodeRuns n' bins flags (i + 1) None
        | None => encodeRuns n' bins flags (i + 1) None
        end
  end.

Definition buildHighlightRanges (starts ends : list number)
    (durationMs : number) : list range :=
  if isEmpty_list starts || negb (truthy durationMs) then []
  else
    let bins := 120%nat in
    let flags := markObjects bins starts ends durationMs (repeat false bins) in
    encodeRuns bins (Z.of_nat bins) flags 0 None.

Definition clamp01 (x : number) : number :=
  Math_min (Math_max x 0%float) 1%float.

Definition buildBreakRanges (breaks : list breakPeriod) (durationMs : number)
    : list range :=
  if isEmpty_list breaks || negb (truthy durationMs) then []
  else
    filter (fun r => (r_start r <? r_end r)%float)
      (map (fun b =>
              Range (clamp01 (bp_start b / durationMs)%float)
                    (clamp01 (bp_end b / durationMs)%float) kindBreak)
         breaks).

(** The [forEach] of [buildBookmarkRanges]. *)
Definition markBookmark (bins : Z) (durationMs : number)
    (flags : list bool) (time : number) : list bool :=
  let idx := Math_min (of_Z (bins - 1))
               (Math_floor ((time / durationMs) * of_Z bins)%float) in
  if (0 <=? idx)%float then update flags (Z.to_nat (truncate idx)) true
  else flags.

(** The second loop of [buildBookmarkRanges], from bin [i] on. *)
Fixpoint bookmarkRuns (n : nat) (bins : Z) (flags : list bool) (i : Z)
    : list range :=
  match n with
  | O => []
  | S n' =>
      if nth (Z.to_nat i) flags false then
        Range (of_Z i / of_Z bins)%float
              ((of_Z i + 1.2) / of_Z bins)%float kindBookmark
        :: bookmarkRuns n' bins flags (i + 1)
      else bookmarkRuns n' bins flags (i + 1)
  end.

Definition buildBookmarkRanges (bookmarks : list number) (durationMs : number)
    : list range :=
  if isEmpty_list bookmarks || negb (truthy durationMs) then []
  else
    let bins := 200%nat in
    let flags :=
      fold_left (markBookmark (Z.of_nat bins) durationMs) bookmarks
        (repeat false bins) in
    bookmarkRuns bins (Z.of_nat bins) flags 0.

(** *** computeProgress *)

Definition typeIs (r : range) (t : str) : bool :=
  match r_type r with Some t' => str_eqb t' t | None => false end.

(** [!r.type]: the type is absent or the empty string. *)
Definition noType (r : range) : bool :=
  match r_type r with Some t => isEmpty t | None => true end.

Definition addLength (sum : number) (r : range) : number :=
  (sum + (r_end r - r_start r))%float.

(** [computeProgress], the setting [settings.ignoreStartAndBreaks] being a
    parameter. *)
Definition computeProgress (ignoreStartAndBreaks : bool) (ranges : list range)
    : number :=
  if isEmpty_list ranges then 0%float
  else
    let objectRanges :=
      filter (fun r => typeIs r (lit "object") || noType r) ranges in
    let breakRanges := filter (fun r => typeIs r (lit "break")) ranges in
    let populated := fold_left addLength objectRanges 0%float in
    if ignoreStartAndBreaks then
      let firstStart :=
        if negb (isEmpty_list objectRanges)
        then Math_min_list (map r_start objectRanges) else 0%float in
      let breakSum := fold_left addLength breakRanges 0%float in
      let populated' := (populated + breakSum)%float in
      let total := Math_max 0.001%float (1.0 - firstStart)%float in
      Math_min 1.0%float (populated' / total)%float
    else Math_min 1.0%float populated.

(** *** Highlight serialisation *)

(** The integer [n] for which [n / 10^4] is nearest to [m * 2^e], the larger
    one of two: the digits that [toFixed(4)] prints. *)
Definition fixed4 (m : positive) (e : Z) : Z :=
  if 0 <=? e then Zpos m * 2 ^ e * 10000
  else (2 * Zpos m * 10000 + 2 ^ (- e)) / 2 ^ (1 - e).

(** [Number(x.toFixed(4))]: [toFixed] prints the digits of [fixed4] with
    four decimals and the sign of [x], and prints a number of magnitude
    10^21 or more, or one that is not finite, as [String] does; [Number]
    reads the text back. *)
Definition Number_toFixed4 (x : number) : number :=
  match Prim2SF x with
  | S754_finite s m e =>
      if (1e21 <=? abs x)%float then x
      else with_sign s (of_decimal (fixed4 m e) (-4))
  | S754_zero _ => 0%float
  | _ => x
  end.

Definition kindLetter (r : range) : str :=
  if typeIs r (lit "break") then lit "b"
  else if typeIs r (lit "bookmark") then lit "k" else lit "o".

Definition serializeHighlights (ranges : list range)
    : list (number * number * str) :=
  map (fun range =>
         (Number_toFixed4 (r_start range), Number_toFixed4 (r_end range),
          kindLetter range))
    ranges.

Definition deserializeHighlights (ranges : list (number * number * str))
    : list range :=
  map (fun '(start, end_, kind) =>
         Range start end_
           (Some (if str_eqb kind (lit "b") then lit "break"
                  else if str_eqb kind (lit "k") then lit "bookmark"
                  else lit "object")))
    ranges.

End Renderer.

(** ** The scanner worker: the single-pass parser *)

Module Worker.

Import JS.
Local Open Scope Z_scope.

(** [SECTIONS]. *)
Inductive sectionId :=
  | NONE | GENERAL | EDITOR | METADATA | DIFFICULTY
  | EVENTS | TIMING_POINTS | COLOURS | HIT_OBJECTS.

(** A character test at an index, as the scanning loops make it. *)
Definition isSpaceTab (s : str) (i : Z) : bool :=
  codeIs s i 32 || codeIs s i 9.

(** [while (i < end && test(i)) i++]. *)
Fixpoint skipUp (fuel : nat) (test : Z -> bool) (i end_ : Z) : Z :=
  match fuel with
  | O => i
  | S fuel' =>
      if (i <? end_) && test i then skipUp fuel' test (i + 1) end_ else i
  end.

(** [while (end > start && test(end - 1)) end--]. *)
Fixpoint skipDown (fuel : nat) (test : Z -> bool) (start end_ : Z) : Z :=
  match fuel with
  | O => end_
  | S fuel' =>
      if (start <? end_) && test (end_ - 1)
      then skipDown fuel' test start (end_ - 1) else end_
  end.

Definition span (start end_ : Z) : nat := Z.to_nat (end_ - start).

(** The digit loop of [fastParseInt]. *)
Fixpoint fastParseInt_digits (fuel : nat) (s : str) (i end_ : Z)
    (result : number) (hasDigit : bool) : number * bool :=
  match fuel with
  | O => (result, hasDigit)
  | S fuel' =>
      if i <? end_ then
        match charCodeAt s i with
        | Some c =>
            let digit := c - 48 in
            if (digit <? 0) || (9 <? digit) then (result, hasDigit)
            else fastParseInt_digits fuel' s (i + 1) end_
                   (result * 10 + of_Z digit)%float true
        | None =>
            fastParseInt_digits fuel' s (i + 1) end_
              (result * 10 + nan)%float true
        end
      else (result, hasDigit)
  end.

(** [fastParseInt]; [None] is [null]. *)
Definition fastParseInt (s : str) (start end_ : Z) : option number :=
  let i := skipUp (span start end_) (isSpaceTab s) start end_ in
  let '(sign, i1) :=
    if codeIs s i 45 then ((-1)%float, i + 1)
    else if codeIs s i 43 then (1%float, i + 1)
    else (1%float, i) in
  let '(result, hasDigit) :=
    fastParseInt_digits (span i1 end_) s i1 end_ 0%float false in
  if hasDigit then Some (result * sign)%float else None.

Definition extractTrimmed (s : str) (start end_ : Z) : str :=
  let start' := skipUp (span start end_) (isSpaceTab s) start end_ in
  let end' := skipDown (span start' end_) (isSpaceTab s) start' end_ in
  slice s start' end'.

(** The comparison loop of [matchesAt]. *)
Fixpoint matchesAt_loop (s : str) (pos : Z) (m : str) (i : Z) : bool :=
  match m with
  | [] => true
  | matchCode :: m' =>
      match charCodeAt s (pos + i) with
      | Some charCode =>
          let lowerCharCode :=
            if (65 <=? charCode) && (charCode <=? 90)
            then charCode + 32 else charCode in
          if lowerCharCode =? matchCode
          then matchesAt_loop s pos m' (i + 1) else false
      | None => false
      end
  end.

Definition matchesAt (s : str) (pos : Z) (m : str) : bool :=
  if len s <? pos + len m then false else matchesAt_loop s pos m 0.

Definition identifySection (s : str) (start end_ : Z) : sectionId :=
  let length := end_ - start in
  if length =? 6 then
    if matchesAt s start (lit "editor") then EDITOR
    else if matchesAt s start (lit "events") then EVENTS
    else if matchesAt s start (lit "colours") then COLOURS
    else NONE
  else if length =? 7 then
    if matchesAt s start (lit "general") then GENERAL else NONE
  else if length =? 8 then
    if matchesAt s start (lit "metadata") then METADATA else NONE
  else if length =? 10 then
    if matchesAt s start (lit "difficulty") then DIFFICULTY
    else if matchesAt s start (lit "hitobjects") then HIT_OBJECTS
    else NONE
  else if length =? 12 then
    if matchesAt s start (lit "timingpoints") then TIMING_POINTS else NONE
  else NONE.

Definition isImageExtension (filename : str) : bool :=
  let lastDot := lastIndexOf filename 46 in
  if lastDot =? -1 then false
  else
    let ext := toLowerCase (slice_from filename (lastDot + 1)) in
    str_eqb ext (lit "jpg") || str_eqb ext (lit "jpeg")
    || str_eqb ext (lit "png") || str_eqb ext (lit "webp")
    || str_eqb ext (lit "gif") || str_eqb ext (lit "bmp").

(** [parseSliderMultiplier]; [None] is [null]. *)
Definition parseSliderMultiplier (content : str) (start end_ : Z)
    : option number :=
  let colonIdx := indexOf content 58 start in
  if (colonIdx =? -1) || (end_ <=? colonIdx) then None
  else
    let key := toLowerCase (extractTrimmed content start colonIdx) in
    if str_eqb key (lit "slidermultiplier") then
      let val := extractTrimmed content (colonIdx + 1) end_ in
      Some (or_else (parseFloat val) 1.0%float)
    else None.

Definition part (parts : list str) (i : nat) : str := nth i parts [].

Definition parseTimingPoint (content : str) (start end_ : Z)
    : option timingPoint :=
  let parts := split 44 (extractTrimmed content start end_) in
  if (List.length parts <? 2)%nat then None
  else
    Some (TimingPoint (parseInt (part parts 0) 0) (parseFloat (part parts 1))
            (if (6 <? List.length parts)%nat
             then str_eqb (part parts 6) (lit "1") else true)).

Fixpoint getTimingInfo_loop (tps : list timingPoint) (time : number)
    (activeBPM activeSV : number) : timing :=
  match tps with
  | [] => Timing activeBPM activeSV
  | tp :: rest =>
      if (time <? tp_time tp)%float then Timing activeBPM activeSV
      else if tp_uninherited tp then
        getTimingInfo_loop rest time (tp_beatLength tp) 1.0%float
      else if (tp_beatLength tp <? 0)%float then
        getTimingInfo_loop rest time activeBPM (-100 / tp_beatLength tp)%float
      else getTimingInfo_loop rest time activeBPM 1.0%float
  end.

Definition getTimingInfo (time : number) (timingPoints : list timingPoint)
    : timing :=
  getTimingInfo_loop timingPoints time (60000 / 120)%float 1.0%float.

(** The object [{start, end, type}] that [parseHitObject] returns. *)
Record hitObject := HitObject {
  o_start : number;
  o_end : number;
  o_type : number
}.

Definition parseHitObject (content : str) (lineStart lineEnd : Z)
    (sliderMultiplier : number) (timingPoints : list timingPoint)
    : option hitObject :=
  let line := extractTrimmed content lineStart lineEnd in
  let parts := split 44 line in
  if (List.length parts <? 4)%nat then None
  else
    let time := parseInt (part parts 2) 0 in
    let type := parseInt (part parts 3) 0 in
    let endTime :=
      if has_bit type 2 then
        if (8 <=? List.length parts)%nat then
          let slides := or_else (parseInt (part parts 6) 0) 1%float in
          let length := or_else (parseFloat (part parts 7)) 0%float in
          let timing := getTimingInfo time timingPoints in
          let duration :=
            ((length / (sliderMultiplier * 100 * t_sv timing))
             * t_beatLength timing * slides)%float in
          (time + Math_max 0%float (Math_floor duration))%float
        else time
      else if has_bit type 8 then
        if (6 <=? List.length parts)%nat
        then or_else (parseInt (part parts 5) 0) time else time
      else if has_bit type 128 then
        if (6 <=? List.length parts)%nat then
          let lnEndPart := part (split 58 (part parts 5)) 0 in
          or_else (parseInt lnEndPart 0) time
        else time
      else time in
    Some (HitObject time (Math_max time endTime) type).

(** The state of [parseOsuFile]: the part of [result] that events, editor
    lines and hit objects write, and the local variables of the scan.  The
    handlers of the Metadata and General sections write the other fields of
    [result.metadata] only (titles, names, audio file, preview time), which
    are left out. *)
Record scanState := ScanState {
  background : str;
  breakPeriods : list breakPeriod;
  bookmarks : list number;
  sliderMultiplier : number;
  timingPoints : list timingPoint;
  hitStartsArray : list Z;
  hitEndsArray : list Z;
  hitTypesArray : list Z;
  hitCount : nat;
  section : sectionId;
  lineStart : Z
}.

Definition set_background (st : scanState) (v : str) : scanState :=
  ScanState v (breakPeriods st) (bookmarks st) (sliderMultiplier st)
    (timingPoints st) (hitStartsArray st) (hitEndsArray st)
    (hitTypesArray st) (hitCount st) (section st) (lineStart st).

Definition set_breakPeriods (st : scanState) (v : list breakPeriod)
    : scanState :=
  ScanState (background st) v (bookmarks st) (sliderMultiplier st)
    (timingPoints st) (hitStartsArray st) (hitEndsArray st)
    (hitTypesArray st) (hitCount st) (section st) (lineStart st).

Definition set_bookmarks (st : scanState) (v : list number) : scanState :=
  ScanState (background st) (breakPeriods st) v (sliderMultiplier st)
    (timingPoints st) (hitStartsArray st) (hitEndsArray st)
    (hitTypesArray st) (hitCount st) (section st) (lineStart st).

Definition set_sliderMultiplier (st : scanState) (v : number) : scanState :=
  ScanState (background st) (breakPeriods st) (bookmarks st) v
    (timingPoints st) (hitStartsArray st) (hitEndsArray st)
    (hitTypesArray st) (hitCount st) (section st) (lineStart st).

Definition set_timingPoints (st : scanState) (v : list timingPoint)
    : scanState :=
  ScanState (background st) (breakPeriods st) (bookmarks st)
    (sliderMultiplier st) v (hitStartsArray st) (hitEndsArray st)
    (hitTypesArray st) (hitCount st) (section st) (lineStart st).

Definition set_hits (st : scanState) (starts ends types : list Z)
    (count : nat) : scanState :=
  ScanState (background st) (breakPeriods st) (bookmarks st)
    (sliderMultiplier st) (timingPoints st) starts ends types count
    (section st) (lineStart st).

Definition set_section (st : scanState) (v : sectionId) : scanState :=
  ScanState (background st) (breakPeriods st) (bookmarks st)
    (sliderMultiplier st) (timingPoints st) (hitStartsArray st)
    (hitEndsArray st) (hitTypesArray st) (hitCount st) v (lineStart st).

Definition set_lineStart (st : scanState) (v : Z) : scanState :=
  ScanState (background st) (breakPeriods st) (bookmarks st)
    (sliderMultiplier st) (timingPoints st) (hitStartsArray st)
    (hitEndsArray st) (hitTypesArray st) (hitCount st) (section st) v.

(** *** parseEventLine *)

(** The comma-counting loop of the background branch: [(bgStart, bgEnd)]. *)
Fixpoint backgroundField (fuel : nat) (content : str) (j end_ : Z)
    (commaCount bgStart : Z) : Z * Z :=
  match fuel with
  | O => (bgStart, -1)
  | S fuel' =>
      if j <? end_ then
        if codeIs content j 44 then
          let commaCount' := commaCount + 1 in
          if commaCount' =? 2 then
            backgroundField fuel' content (j + 1) end_ commaCount' (j + 1)
          else if commaCount' =? 3 then (bgStart, j)
          else backgroundField fuel' content (j + 1) end_ commaCount' bgStart
        else backgroundField fuel' content (j + 1) end_ commaCount bgStart
      else (bgStart, -1)
  end.

Definition isSpaceTabQuote (s : str) (i : Z) : bool :=
  codeIs s i 32 || codeIs s i 9 || codeIs s i 34.

(** The variables of the comma-counting loop of the break branch. *)
Record breakScan := BreakScan {
  commaCount : Z;
  breakStart : option number;
  breakStartIdx : Z;
  breakEnd : option number;
  numStart : Z
}.

Fixpoint breakFields (fuel : nat) (content : str) (j end_ : Z)
    (v : breakScan) : breakScan :=
  match fuel with
  | O => v
  | S fuel' =>
      if j <? end_ then
        if codeIs content j 44 then
          let commaCount' := commaCount v + 1 in
          if commaCount' =? 1 then
            breakFields fuel' content (j + 1) end_
              (BreakScan commaCount' (breakStart v) (breakStartIdx v)
                 (breakEnd v) (j + 1))
          else if commaCount' =? 2 then
            breakFields fuel' content (j + 1) end_
              (BreakScan commaCount' (fastParseInt content (numStart v) j)
                 (j + 1) (breakEnd v) (numStart v))
          else if commaCount' =? 3 then
            BreakScan commaCount' (breakStart v) (breakStartIdx v)
              (fastParseInt content (breakStartIdx v) j) (numStart v)
          else
            breakFields fuel' content (j + 1) end_
              (BreakScan commaCount' (breakStart v) (breakStartIdx v)
                 (breakEnd v) (numStart v))
        else breakFields fuel' content (j + 1) end_ v
      else v
  end.

Definition parseEventLine (content : str) (start end_ : Z) (st : scanState)
    : scanState :=
  if codeIs content start 48 && (start + 1 <? end_)
     && codeIs content (start + 1) 44 then
    let '(bgStart, bgEnd) :=
      backgroundField (span start end_) content start end_ 0 (-1) in
    if negb (bgStart =? -1) then
      let bgEnd := if bgEnd =? -1 then end_ else bgEnd in
      let bgStart' :=
        skipUp (span bgStart bgEnd) (isSpaceTabQuote content) bgStart bgEnd in
      let bgEnd' :=
        skipDown (span bgStart' bgEnd) (isSpaceTabQuote content) bgStart' bgEnd in
      let bg := slice content bgStart' bgEnd' in
      if isImageExtension bg then set_background st bg else st
    else st
  else if codeIs content start 50 && (start + 1 <? end_)
          && codeIs content (start + 1) 44 then
    let v := breakFields (span start end_) content start end_
               (BreakScan 0 (Some (-1)%float) (-1) (Some (-1)%float) start) in
    let breakEnd' :=
      if (commaCount v =? 2) && negb (breakStartIdx v =? -1)
      then fastParseInt content (breakStartIdx v) end_ else breakEnd v in
    match breakStart v, breakEnd' with
    | Some bs, Some be =>
        set_breakPeriods st (breakPeriods st ++ [BreakPeriod bs be])
    | _, _ => st
    end
  else st.

(** *** parseEditorLine *)

(** The loop [for (let j = bookmarksStart; j <= end; j++)]. *)
Fixpoint bookmarkFields (fuel : nat) (content : str) (j end_ numStart : Z)
    (bookmarks : list number) : list number :=
  match fuel with
  | O => bookmarks
  | S fuel' =>
      if j <=? end_ then
        if (j =? end_) || codeIs content j 44 then
          let bookmarks' :=
            if numStart <? j then
              match fastParseInt content numStart j with
              | Some num => bookmarks ++ [num]
              | None => bookmarks
              end
            else bookmarks in
          bookmarkFields fuel' content (j + 1) end_ (j + 1) bookmarks'
        else bookmarkFields fuel' content (j + 1) end_ numStart bookmarks
      else bookmarks
  end.

Definition parseEditorLine (content : str) (start end_ : Z)
    (bookmarks : list number) : list number :=
  if matchesAt content start (lit "bookmarks:") then
    let bookmarksStart := start + 10 in
    bookmarkFields (S (span bookmarksStart end_)) content bookmarksStart end_
      bookmarksStart bookmarks
  else bookmarks.

(** *** parseOsuFile *)

(** [array[i]] on an [Int32Array] or [Int16Array]. *)
Definition readArray (a : list Z) (i : nat) : option number :=
  option_map of_Z (nth_error a i).

(** The [HIT_OBJECTS] case of the scan, for an object that was parsed: the
    gap fill for a previous slider, the growth of the arrays, the stores. *)
Definition storeHitObject (st : scanState) (object : hitObject) : scanState :=
  let hitCount := hitCount st in
  let ends1 :=
    if (0 <? hitCount)%nat then
      match readArray (hitTypesArray st) (hitCount - 1) with
      | Some prevType =>
          if has_bit prevType 2 then
            match readArray (hitEndsArray st) (hitCount - 1) with
            | Some prevEnd =>
                update (hitEndsArray st) (hitCount - 1)
                  (ToInt32 (Math_max prevEnd (o_start object)))
            | None => hitEndsArray st
            end
          else hitEndsArray st
      | None => hitEndsArray st
      end
    else hitEndsArray st in
  let grow := (List.length (hitStartsArray st) <=? hitCount)%nat in
  let starts2 :=
    if grow
    then hitStartsArray st ++ repeat 0 (List.length (hitStartsArray st))
    else hitStartsArray st in
  let ends2 :=
    if grow then ends1 ++ repeat 0 (List.length ends1) else ends1 in
  let types2 :=
    if grow
    then hitTypesArray st ++ repeat 0 (List.length (hitTypesArray st))
    else hitTypesArray st in
  set_hits st
    (update starts2 hitCount (ToInt32 (o_start object)))
    (update ends2 hitCount (ToInt32 (o_end object)))
    (update types2 hitCount (ToInt16 (o_type object)))
    (S hitCount).

(** The [switch (section)] of the scan, on the line [lineStart..lineEnd). *)
Definition dispatchLine (content : str) (lineStart lineEnd : Z)
    (st : scanState) : scanState :=
  match section st with
  | METADATA => st
  | GENERAL => st
  | EVENTS => parseEventLine content lineStart lineEnd st
  | EDITOR =>
      set_bookmarks st (parseEditorLine content lineStart lineEnd (bookmarks st))
  | DIFFICULTY =>
      match parseSliderMultiplier content lineStart lineEnd with
      | Some sm => set_sliderMultiplier st sm
      | None => st
      end
  | TIMING_POINTS =>
      match parseTimingPoint content lineStart lineEnd with
      | Some tp => set_timingPoints st (timingPoints st ++ [tp])
      | None => st
      end
  | HIT_OBJECTS =>
      match parseHitObject content lineStart lineEnd
              (sliderMultiplier st) (timingPoints st) with
      | Some object => storeHitObject st object
      | None => st
      end
  | NONE | COLOURS => st
  end.

Definition isLineEndChar (s : str) (i : Z) : bool :=
  codeIs s i 32 || codeIs s i 9 || codeIs s i 13 || codeIs s i 10.

(** The body of the scan for a line that ends at index [i]. *)
Definition scanLine (content : str) (i : Z) (st : scanState) : scanState :=
  let lineEnd := i in
  let lineStart :=
    skipUp (span (lineStart st) lineEnd) (isSpaceTab content)
      (lineStart st) lineEnd in
  let lineEnd :=
    skipDown (span lineStart lineEnd) (isLineEndChar content)
      lineStart lineEnd in
  let lineLength := lineEnd - lineStart in
  if lineLength =? 0 then set_lineStart st (i + 1)
  else if (2 <=? lineLength) && codeIs content lineStart 47
          && codeIs content (lineStart + 1) 47 then set_lineStart st (i + 1)
  else if codeIs content lineStart 91 && codeIs content (lineEnd - 1) 93 then
    set_lineStart
      (set_section st (identifySection content (lineStart + 1) (lineEnd - 1)))
      (i + 1)
  else set_lineStart (dispatchLine content lineStart lineEnd st) (i + 1).

(** The loop [for (let i = 0; i <= contentLength; i++)]: every iteration
    moves [i] forward, so that [contentLength + 1] iterations are enough. *)
Fixpoint scan (fuel : nat) (content : str) (i : Z) (st : scanState)
    : scanState :=
  match fuel with
  | O => st
  | S fuel' =>
      let contentLength := len content in
      if i <=? contentLength then
        let isNewline :=
          if i <? contentLength then codeIs content i 10 else true in
        let isReturn :=
          if i <? contentLength then codeIs content i 13 else false in
        if isNewline || isReturn || (i =? contentLength) then
          let i' :=
            if isReturn && (i + 1 <? contentLength)
               && codeIs content (i + 1) 10
            then i + 1 else i in
          scan fuel' content (i' + 1) (scanLine content i' st)
        else scan fuel' content (i + 1) st
      else st
  end.

(** The result of [parseOsuFile]. *)
Record parsed := Parsed {
  p_background : str;
  p_hitStarts : list Z;
  p_hitEnds : list Z;
  p_breakPeriods : list breakPeriod;
  p_bookmarks : list number
}.

(** The state at the start of the scan: empty results, the slider
    multiplier 1.0, the arrays at their first capacity
    [Math.max(Math.ceil(content.length / 1024 * 20), 100)] (computed on
    integers: it is exact for every length below 2^48), the line start
    after a byte-order mark. *)
Definition initialState (content : str) : scanState :=
  let estimatedHitObjects := (len content * 20 + 1023) / 1024 in
  let capacity := Z.to_nat (Z.max estimatedHitObjects 100) in
  let lineStart := if codeIs content 0 65279 then 1 else 0 in
  ScanState [] [] [] 1.0%float [] (repeat 0 capacity) (repeat 0 capacity)
    (repeat 0 capacity) 0 NONE lineStart.

Definition parseOsuFile (content : str) : parsed :=
  let st := scan (S (List.length content)) content 0 (initialState content) in
  Parsed (background st)
    (firstn (hitCount st) (hitStartsArray st))
    (firstn (hitCount st) (hitEndsArray st))
    (breakPeriods st) (bookmarks st).

End Worker.

(** ** The renderer: items, lists and the other readers of a beatmap *)

Module App.

Import JS.
Local Open Scope Z_scope.

(** *** parseHighlights *)

(** The callback of the second [map]: the range of a chunk [start-end], or
    [None] for [null].  A chunk without a [-] has no end: [Number.isNaN] of
    [undefined] is false and [Math.max(undefined, 0)] is [NaN]. *)
Definition parseHighlights_chunk (chunk : str) : option range :=
  match map parseFloat (split 45 chunk) with
  | start :: end_ :: _ =>
      if is_nan start || is_nan end_ then None
      else Some (Range (Math_min (Math_max start 0%float) 1%float)
                       (Math_min (Math_max end_ 0%float) 1%float) None)
  | [start] =>
      if is_nan start then None
      else Some (Range (Math_min (Math_max start 0%float) 1%float) nan None)
  | [] => None
  end.

(** The last [filter]: [range && range.end > range.start]. *)
Fixpoint parseHighlights_keep (ranges : list (option range)) : list range :=
  match ranges with
  | [] => []
  | Some range :: rest =>
      if (r_start range <? r_end range)%float
      then range :: parseHighlights_keep rest
      else parseHighlights_keep rest
  | None :: rest => parseHighlights_keep rest
  end.

Definition parseHighlights (raw : str) : list range :=
  if Renderer.isEmpty raw then []
  else
    parseHighlights_keep
      (map parseHighlights_chunk
         (filter (fun chunk => negb (Renderer.isEmpty chunk))
            (map trim (split 44 raw)))).

(** *** parseMetadata *)

(** The object [data] that the lines fill; [None] is an absent key. *)
Record metadataKeys := MetadataKeys {
  Title : option str;
  TitleUnicode : option str;
  Artist : option str;
  ArtistUnicode : option str;
  Creator : option str;
  Version : option str;
  BeatmapSetID : option str;
  Audio : option str
}.

(** The object that [parseMetadata] returns. *)
Record metadata := Metadata {
  title : str;
  titleUnicode : str;
  artist : str;
  artistUnicode : str;
  creator : str;
  version : str;
  beatmapSetID : str;
  audio : str
}.

(** The assignments of the Metadata section. *)
Definition setMetadataKey (data : metadataKeys) (key value : str)
    : metadataKeys :=
  if str_eqb key (lit "title") then
    MetadataKeys (Some value) (TitleUnicode data) (Artist data)
      (ArtistUnicode data) (Creator data) (Version data) (BeatmapSetID data)
      (Audio data)
  else if str_eqb key (lit "titleunicode") then
    MetadataKeys (Title data) (Some value) (Artist data)
      (ArtistUnicode data) (Creator data) (Version data) (BeatmapSetID data)
      (Audio data)
  else if str_eqb key (lit "artist") then
    MetadataKeys (Title data) (TitleUnicode data) (Some value)
      (ArtistUnicode data) (Creator data) (Version data) (BeatmapSetID data)
      (Audio data)
  else if str_eqb key (lit "artistunicode") then
    MetadataKeys (Title data) (TitleUnicode data) (Artist data)
      (Some value) (Creator data) (Version data) (BeatmapSetID data)
      (Audio data)
  else if str_eqb key (lit "creator") then
    MetadataKeys (Title data) (TitleUnicode data) (Artist data)
      (ArtistUnicode data) (Some value) (Version data) (BeatmapSetID data)
      (Audio data)
  else if str_eqb key (lit "version") then
    MetadataKeys (Title data) (TitleUnicode data) (Artist data)
      (ArtistUnicode data) (Creator data) (Some value) (BeatmapSetID data)
      (Audio data)
  else if str_eqb key (lit "beatmapsetid") then
    MetadataKeys (Title data) (TitleUnicode data) (Artist data)
      (ArtistUnicode data) (Creator data) (Version data) (Some value)
      (Audio data)
  else data.

(** The assignment of the General section. *)
Definition setGeneralKey (data : metadataKeys) (key value : str)
    : metadataKeys :=
  if str_eqb key (lit "audiofilename") then
    MetadataKeys (Title data) (TitleUnicode data) (Artist data)
      (ArtistUnicode data) (Creator data) (Version data) (BeatmapSetID data)
      (Some value)
  else data.

(** The callback of the [forEach] over the lines, on [section] and [data]. *)
Definition parseMetadata_line (st : str * metadataKeys) (line : str)
    : str * metadataKeys :=
  let '(section, data) := st in
  let trimmed := trim line in
  if Renderer.isEmpty trimmed || startsWith trimmed (lit "//") then st
  else if Renderer.isHeader trimmed then
    (toLowerCase (slice trimmed 1 (-1)), data)
  else
    let separatorIndex := indexOf trimmed 58 0 in
    if separatorIndex =? -1 then st
    else
      let key := toLowerCase (trim (slice trimmed 0 separatorIndex)) in
      let value := trim (slice_from trimmed (separatorIndex + 1)) in
      if str_eqb section (lit "metadata")
      then (section, setMetadataKey data key value)
      else if str_eqb section (lit "general")
      then (section, setGeneralKey data key value)
      else st.

(** [value || fallback] for a string that may be absent: the empty string
    is falsy. *)
Definition orString (value : option str) (fallback : str) : str :=
  match value with
  | Some (c :: r) => c :: r
  | _ => fallback
  end.

Definition parseMetadata (content : str) : metadata :=
  let data :=
    snd (fold_left parseMetadata_line (split_lines content)
           ([], MetadataKeys None None None None None None None None)) in
  let beatmapSetID := orString (BeatmapSetID data) (lit "Unknown") in
  let idNum := parseInt beatmapSetID 0 in
  Metadata
    (orString (Title data) (lit "Unknown Title"))
    (orString (TitleUnicode data)
       (orString (Title data) (lit "Unknown Title")))
    (orString (Artist data) (lit "Unknown Artist"))
    (orString (ArtistUnicode data)
       (orString (Artist data) (lit "Unknown Artist")))
    (orString (Creator data) (lit "Unknown Creator"))
    (orString (Version data) (lit "Unknown Version"))
    (if negb (is_nan idNum) && (0 <? idNum)%float
     then lit "https://osu.ppy.sh/beatmapsets/" ++ beatmapSetID
     else beatmapSetID)
    (orString (Audio data) []).

(** *** getDirectoryPath *)

(** The indices that [lastIndexOf] returns are integers, and so is their
    maximum. *)
Definition getDirectoryPath (filePath : str) : str :=
  let lastSlash := Z.max (lastIndexOf filePath 47) (lastIndexOf filePath 92) in
  if lastSlash =? -1 then [] else slice filePath 0 (lastSlash + 1).

(** *** createItemId *)

(** One digit in the radix 36. *)
Definition digit36 (d : Z) : Z := if d <? 10 then 48 + d else 87 + d.

Fixpoint digits36 (fuel : nat) (z : Z) (acc : str) : str :=
  match fuel with
  | O => acc
  | S fuel' =>
      if z =? 0 then acc
      else digits36 fuel' (z / 36) (digit36 (z mod 36) :: acc)
  end.

(** [n.toString(36)] for an integer [n] that is not negative. *)
Definition toString36 (n : Z) : str :=
  if n =? 0 then lit "0" else digits36 (S (Z.to_nat (Z.log2 n))) n [].

(** The body of the loop: [hash = ((hash << 5) - hash) + char], then
    [hash |= 0]. *)
Definition createItemId_step (hash : number) (char : Z) : number :=
  let shifted := of_Z (wrap_signed 32 (ToInt32 hash * 2 ^ 5)) in
  of_Z (ToInt32 ((shifted - hash) + of_Z char)%float).

(** [createItemId]; [fresh] stands for the text that the clock and the
    random generator make for an empty seed. *)
Definition createItemId (fresh : str) (seed : str) : str :=
  if Renderer.isEmpty seed then fresh
  else
    let hash := fold_left createItemId_step seed 0%float in
    lit "id-" ++ toString36 (truncate (abs hash)) ++ toString36 (len seed).

(** *** The To-do and Completed lists *)

(** The variables [todoIds] and [doneIds]; an id is a string. *)
Record lists := Lists {
  todoIds : list str;
  doneIds : list str
}.

(** [ids.includes(itemId)]. *)
Definition includes (ids : list str) (itemId : str) : bool :=
  existsb (fun id => str_eqb id itemId) ids.

(** [ids.filter(id => id !== itemId)]. *)
Definition without (ids : list str) (itemId : str) : list str :=
  filter (fun id => negb (str_eqb id itemId)) ids.

(** What [toggleTodo] does to the two lists; the calls that follow the
    writes update the display and schedule a save, and read the lists
    only. *)
Definition toggleTodo (st : lists) (itemId : str) : lists :=
  if includes (todoIds st) itemId
  then Lists (without (todoIds st) itemId) (doneIds st)
  else Lists (todoIds st ++ [itemId]) (doneIds st).

(** What [toggleDone] does to the two lists. *)
Definition toggleDone (st : lists) (itemId : str) : lists :=
  if includes (doneIds st) itemId then
    let doneIds' := without (doneIds st) itemId in
    if negb (includes (todoIds st) itemId)
    then Lists (itemId :: todoIds st) doneIds'
    else Lists (todoIds st) doneIds'
  else Lists (without (todoIds st) itemId) (doneIds st ++ [itemId]).

(** [ids.indexOf(id)]; [None] is [-1]. *)
Fixpoint indexOfId (ids : list str) (id : str) : option nat :=
  match ids with
  | [] => None
  | x :: rest =>
      if str_eqb x id then Some O
      else option_map S (indexOfId rest id)
  end.

(** [ids.splice(index, 1)]: the array that is left. *)
Definition spliceOut (ids : list str) (index : nat) : list str :=
  firstn index ids ++ skipn (S index) ids.

(** [ids.splice(index, 0, item)]. *)
Definition spliceIn (ids : list str) (index : nat) (item : str) : list str :=
  firstn index ids ++ item :: skipn index ids.

(** What the listener of [drop] does to [todoIds] in the To-do view, for a
    dragged id and the id of the box it is dropped on. *)
Definition drop (todoIds : list str) (draggedId dropId : str) : list str :=
  if str_eqb draggedId dropId then todoIds
  else
    match indexOfId todoIds draggedId, indexOfId todoIds dropId with
    | Some fromIndex, Some toIndex =>
        match nth_error todoIds fromIndex with
        | Some movedItem =>
            spliceIn (spliceOut todoIds fromIndex) toIndex movedItem
        | None => todoIds
        end
    | _, _ => todoIds
    end.

(** *** The tabs and the views *)

Section Views.

(** An item of [beatmapItems], its id, and the functions that the view of
    all the items goes through; [isGuestDifficultyItem], [filterItems] and
    [sortItems] compare texts without regard to case in the whole of
    Unicode and sort with the order of the library. *)
Variable item : Type.
Variable idOf : item -> str.
Variable isGuestDifficultyItem : item -> bool.
Variable filterItems : list item -> str -> list item.
Variable sortItems : list item -> list item.

(** [beatmapItems.find(item => item.id === id)]. *)
Definition findItem (beatmapItems : list item) (id : str) : option item :=
  find (fun i => str_eqb (idOf i) id) beatmapItems.

(** The callback of the two [reduce] of [updateTabCounts]. *)
Definition countVisible (beatmapItems : list item) (count : nat) (id : str)
    : nat :=
  match findItem beatmapItems id with
  | None => count
  | Some i => if isGuestDifficultyItem i then count else (count + 1)%nat
  end.

(** The three numbers that [updateTabCounts] writes on the tabs: all, to
    do, completed. *)
Definition updateTabCounts (beatmapItems : list item) (st : lists)
    : nat * nat * nat :=
  (List.length
     (filter (fun i => negb (isGuestDifficultyItem i)) beatmapItems),
   fold_left (countVisible beatmapItems) (todoIds st) O,
   fold_left (countVisible beatmapItems) (doneIds st) O).

(** [ids.map(find).filter(Boolean)]. *)
Fixpoint foundItems (beatmapItems : list item) (ids : list str)
    : list item :=
  match ids with
  | [] => []
  | id :: rest =>
      match findItem beatmapItems id with
      | Some i => i :: foundItems beatmapItems rest
      | None => foundItems beatmapItems rest
      end
  end.

(** The list [itemsToRender] that [renderFromState] computes. *)
Definition renderFromState (beatmapItems : list item) (st : lists)
    (viewMode searchQuery : str) : list item :=
  if str_eqb viewMode (lit "todo") then
    filter (fun i => negb (isGuestDifficultyItem i))
      (foundItems beatmapItems (todoIds st))
  else if str_eqb viewMode (lit "completed") then
    filter (fun i => negb (isGuestDifficultyItem i))
      (foundItems beatmapItems (doneIds st))
  else
    sortItems
      (filterItems
         (filter (fun i => negb (isGuestDifficultyItem i)) beatmapItems)
         searchQuery).

End Views.

End App.

(** ** The main process: the chunks of the scanner workers *)

Module Main.

Import JS.

(** [filePaths.slice(from, to)] on an array, for indices that are not
    negative. *)
Definition sliceArray {A : Type} (l : list A) (from to : nat) : list A :=
  firstn (to - from) (skipn from l).

(** The chunks of paths that [runScannerWorkers] hands to its workers, one
    worker for each, [cpus] being [os.cpus().length].  The quotient
    [Math.ceil(filePaths.length / numWorkers)] is computed on integers: the
    length of an array is below 2^32 and the divisor is at most 4, so that
    the division of the program gives the same chunk size. *)
Definition runScannerWorkers_chunks {A : Type} (cpus : nat)
    (filePaths : list A) : list (list A) :=
  let numWorkers := Nat.min (Nat.min cpus 4) (List.length filePaths) in
  if (numWorkers =? 0)%nat then []
  else
    let chunkSize :=
      ((List.length filePaths + numWorkers - 1) / numWorkers)%nat in
    filter (fun chunk => negb (List.length chunk =? 0)%nat)
      (map (fun i => sliceArray filePaths (i * chunkSize) ((i + 1) * chunkSize))
         (seq 0 numWorkers)).

End Main.

(** ** The scanner worker: the filter on the header of a file *)

Module Scanner.

Import JS.
Local Open Scope Z_scope.

(** The object [meta]. *)
Record headerMeta := HeaderMeta {
  creator : str;
  version : str
}.

(** The loop of [parseMetadataFromHeader] over the lines; it ends early
    once both fields are set. *)
Fixpoint parseMetadataFromHeader_loop (lines : list str) (section : str)
    (meta : headerMeta) : headerMeta :=
  match lines with
  | [] => meta
  | line :: rest =>
      let trimmed := trim line in
      if Renderer.isEmpty trimmed || startsWith trimmed (lit "//")
      then parseMetadataFromHeader_loop rest section meta
      else if Renderer.isHeader trimmed then
        parseMetadataFromHeader_loop rest
          (toLowerCase (slice trimmed 1 (-1))) meta
      else if str_eqb section (lit "metadata") then
        let sep := indexOf trimmed 58 0 in
        if sep =? -1 then parseMetadataFromHeader_loop rest section meta
        else
          let key := toLowerCase (trim (slice trimmed 0 sep)) in
          let val := trim (slice_from trimmed (sep + 1)) in
          let meta' :=
            if str_eqb key (lit "creator") then HeaderMeta val (version meta)
            else if str_eqb key (lit "version")
            then HeaderMeta (creator meta) val
            else meta in
          if negb (Renderer.isEmpty (creator meta'))
             && negb (Renderer.isEmpty (version meta'))
          then meta'
          else parseMetadataFromHeader_loop rest section meta'
      else parseMetadataFromHeader_loop rest section meta
  end.

Definition parseMetadataFromHeader (content : str) : headerMeta :=
  parseMetadataFromHeader_loop (split_lines content) [] (HeaderMeta [] []).

(** *** processFiles *)

(** What the file system answers for one path: the modification time that
    [fs.stat] gives ([None] when it fails), the text that [readOsuHeader]
    returns (empty when it fails), and the text that [fs.readFile] gives
    ([None] when it throws). *)
Record fileOnDisk := FileOnDisk {
  f_path : str;
  f_mtimeMs : option number;
  f_header : str;
  f_content : option str
}.

(** An element of [results]: a file that is unchanged ([None]) or the
    result of [parseOsuFile]. *)
Record scanResult := ScanResult {
  s_filePath : str;
  s_mtimeMs : number;
  s_parsed : option Worker.parsed
}.

(** The counters and the results of [processFiles]. *)
Record tally := Tally {
  results : list scanResult;
  processedCount : nat;
  skippedCount : nat;
  cachedCount : nat;
  errorCount : nat
}.

(** [s.includes(needle)]. *)
Definition includes (s needle : str) : bool :=
  existsb (fun i => startsWith (skipn i s) needle)
    (seq 0 (S (List.length s))).

Section ProcessFiles.

(** [toLowerCase] on the whole of Unicode is left to the library. *)
Variable toLowerCaseFull : str -> str.

(** [needle]: [None] is [null]. *)
Definition needleOf (mapperName : str) : option str :=
  if Renderer.isEmpty mapperName then None
  else Some (toLowerCaseFull mapperName).

(** The test that skips a file whose header names another mapper. *)
Definition otherMapper (needle : str) (header : str) : bool :=
  let metadata := parseMetadataFromHeader header in
  let creator := toLowerCaseFull (creator metadata) in
  let version := toLowerCaseFull (version metadata) in
  negb (includes creator needle) && negb (includes version needle).

(** [if (needle)] followed by the test on the header. *)
Definition filteredOut (needle : option str) (file : fileOnDisk) : bool :=
  match needle with
  | Some n => negb (Renderer.isEmpty n) && otherMapper n (f_header file)
  | None => false
  end.

(** The body of the loop of [processFiles] over the results of
    [batchStatFiles], for one file; [knownFiles] gives the modification
    time recorded for a path.  The progress messages are left out. *)
Definition processFile (needle : option str)
    (knownFiles : str -> option number) (t : tally) (file : fileOnDisk)
    : tally :=
  match f_mtimeMs file with
  | None =>
      Tally (results t) (S (processedCount t)) (skippedCount t)
        (cachedCount t) (S (errorCount t))
  | Some mtime =>
      let known :=
        match knownFiles (f_path file) with
        | Some recorded => (recorded =? mtime)%float
        | None => false
        end in
      if known then
        if filteredOut needle file then
          Tally (results t) (S (processedCount t)) (S (skippedCount t))
            (cachedCount t) (errorCount t)
        else
          Tally (results t ++ [ScanResult (f_path file) mtime None])
            (S (processedCount t)) (skippedCount t) (S (cachedCount t))
            (errorCount t)
      else if filteredOut needle file then
        Tally (results t) (S (processedCount t)) (S (skippedCount t))
          (cachedCount t) (errorCount t)
      else
        match f_content file with
        | Some content =>
            Tally (results t
                   ++ [ScanResult (f_path file) mtime
                         (Some (Worker.parseOsuFile content))])
              (S (processedCount t)) (skippedCount t) (cachedCount t)
              (errorCount t)
        | None =>
            Tally (results t) (S (processedCount t)) (skippedCount t)
              (cachedCount t) (S (errorCount t))
        end
  end.

Definition processFiles (mapperName : str)
    (knownFiles : str -> option number) (files : list fileOnDisk) : tally :=
  fold_left (processFile (needleOf mapperName) knownFiles) files
    (Tally [] 0 0 0 0).

End ProcessFiles.

End Scanner.

(** ** The properties, as the specification words them *)

Module Spec.

Import JS.

(** *** The timing resolver *)

(** What one timing point at or before the query time does to the running
    beat length and scroll velocity. *)
Definition resolveStep (active : timing) (tp : timingPoint) : timing :=
  if tp_uninherited tp then Timing (tp_beatLength tp) 1%float
  else if (tp_beatLength tp <? 0)%float
       then Timing (t_beatLength active) (-100 / tp_beatLength tp)%float
       else active.

(** The points passed by the scan: those before the first point whose time
    exceeds the query time. *)
Fixpoint pointsUpTo (time : number) (tps : list timingPoint)
    : list timingPoint :=
  match tps with
  | [] => []
  | tp :: rest =>
      if (time <? tp_time tp)%float then [] else tp :: pointsUpTo time rest
  end.

Definition resolveTiming (tps : list timingPoint) (time : number) : timing :=
  fold_left resolveStep (pointsUpTo time tps) (Timing 500%float 1%float).

(** *** Progress *)

Definition isObjectRange (r : range) : bool :=
  Renderer.typeIs r (lit "object") || Renderer.noType r.

Definition isBreakRange (r : range) : bool := Renderer.typeIs r (lit "break").

(** The sum of [end - start] over the ranges that [keep] selects, added in
    the order of the list. *)
Fixpoint sumLengths (keep : range -> bool) (ranges : list range)
    (sum : number) : number :=
  match ranges with
  | [] => sum
  | r :: rest =>
      sumLengths keep rest
        (if keep r then (sum + (r_end r - r_start r))%float else sum)
  end.

Definition populated (ranges : list range) : number :=
  sumLengths isObjectRange ranges 0%float.

Definition breakLengths (ranges : list range) : number :=
  sumLengths isBreakRange ranges 0%float.

(** The least start among the object ranges seen so far. *)
Fixpoint minStart (ranges : list range) (least : number) : number :=
  match ranges with
  | [] => least
  | r :: rest =>
      minStart rest
        (if isObjectRange r then Math_min least (r_start r) else least)
  end.

Definition firstObjectStart (ranges : list range) : number :=
  if existsb isObjectRange ranges then minStart ranges infinity
  else 0%float.

Definition progress (ignoreStartAndBreaks : bool) (ranges : list range)
    : number :=
  match ranges with
  | [] => 0%float
  | _ =>
      if ignoreStartAndBreaks then
        Math_min 1%float
          ((populated ranges + breakLengths ranges)
           / Math_max 0.001%float (1 - firstObjectStart ranges))%float
      else Math_min 1%float (populated ranges)
  end.

(** *** Backgrounds *)

(** The extensions of the images that a background may be. *)
Definition imageExtensions : list str :=
  [lit "jpg"; lit "jpeg"; lit "png"; lit "gif"; lit "bmp"; lit "webp"].







(** *** Highlight kinds *)

(** The tag that a kind letter stands for. *)
Definition kindOfLetter (kind : str) : str :=
  if str_eqb kind (lit "b") then lit "break"
  else if str_eqb kind (lit "k") then lit "bookmark"
  else lit "object".

(** A range is tagged with one of the three kinds. *)
Definition tagged (r : range) : Prop :=
  r_type r = Renderer.kindObject \/ r_type r = Renderer.kindBreak
  \/ r_type r = Renderer.kindBookmark.

(** *** Rounding to four decimal places *)

Section Rounding.

Import QArith_base Qround Qabs.
Local Open Scope Q_scope.

(** The value of a finite number, a rational: the mantissa, with the sign,
    times the power of two.  [NaN] and the infinities have none. *)
Definition valueOf (x : number) : option Q :=
  match Prim2SF x with
  | S754_zero _ => Some 0
  | S754_finite s m e =>
      let n := if s then Zneg m else Zpos m in
      Some match e with
           | Zneg p => n # (2 ^ p)
           | _ => inject_Z (n * 2 ^ e)
           end
  | _ => None
  end.

(** The integer [n] for which [n / 10000] is the multiple of 1/10000
    nearest to [v], the one further from zero of two that are as near. *)
Definition nearest4 (v : Q) : Z := Qfloor (Qabs v * 10000 + (1 # 2)).

(** A number rounded to four decimal places: the number that the decimal
    [n / 10000] nearest to its value denotes ([of_decimal] reads a decimal
    numeral), with the sign of the value.  [NaN] and the infinities are
    left as they are. *)
Definition round4 (x : number) : number :=
  match valueOf x with
  | Some v =>
      JS.with_sign (negb (Qle_bool 0 v)) (JS.of_decimal (nearest4 v) (-4))
  | None => x
  end.

End Rounding.

(** A range with its ends rounded to four decimal places. *)
Definition rounded (r : range) : range :=
  Range (round4 (r_start r)) (round4 (r_end r)) (r_type r).

(** *** Highlight ranges *)

(** A range lies in the unit interval: [0 <= start < end <= 1]. *)
Definition inUnit (r : range) : Prop :=
  (0 <=? r_start r)%float = true /\ (r_start r <? r_end r)%float = true
  /\ (r_end r <=? 1)%float = true.

(** The end of the last bookmark bin, widened: [(199 + 1.2) / 200]. *)
Definition lastBookmarkEnd : number := ((199 + 1.2) / 200)%float.

(** What holds of a bookmark range: it starts in the unit interval and is
    not empty; its end is at most 1, but for the range of the last bin,
    which starts at 0.995 and ends at [lastBookmarkEnd]. *)
Definition bookmarkBounds (r : range) : Prop :=
  (0 <=? r_start r)%float = true /\ (r_start r <? r_end r)%float = true
  /\ (r_start r <? 1)%float = true
  /\ (r_end r <=? lastBookmarkEnd)%float = true
  /\ ((r_end r <=? 1)%float = true
      \/ (r_start r = 0.995%float /\ r_end r = lastBookmarkEnd)).

(** The fraction [i / bins] of a bin boundary. *)
Definition fraction (i bins : Z) : number := (of_Z i / of_Z bins)%float.

(** The fractions of two boundaries [s < e] of the 120 object bins are
    ordered as the boundaries are, between 0 and 1. *)
Definition objectFractionOk (s e : nat) : bool :=
  if (s <? e)%nat then
    (0 <=? fraction (Z.of_nat s) 120)%float
    && (fraction (Z.of_nat s) 120 <? fraction (Z.of_nat e) 120)%float
    && (fraction (Z.of_nat e) 120 <=? 1)%float
  else true.

(** The bounds of the range of the bookmark bin [i]. *)
Definition bookmarkFractionOk (i : nat) : bool :=
  let s := fraction (Z.of_nat i) 200 in
  let e := ((of_Z (Z.of_nat i) + 1.2) / of_Z 200)%float in
  (0 <=? s)%float && (s <? e)%float && (s <? 1)%float
  && (e <=? lastBookmarkEnd)%float
  && (if (i <? 199)%nat then (e <=? 1)%float
      else if Leibniz.eqb s 0.995%float then Leibniz.eqb e lastBookmarkEnd
      else false).

(** *** Integers as numbers *)

(** The binary64 form of a positive integer of at most 53 bits. *)
Definition normal (p : positive) : positive * Z :=
  let d := Zpos (digits2_pos p) in
  match (53 - d)%Z with
  | Zpos k => (Pos.iter xO p k, (d - 53)%Z)
  | _ => (p, 0%Z)
  end.

(** The binary64 form of an integer of at most 53 bits. *)
Definition normalSF (z : Z) : spec_float :=
  match z with
  | Z0 => S754_zero false
  | Zpos p => S754_finite false (fst (normal p)) (snd (normal p))
  | Zneg p => S754_finite true (fst (normal p)) (snd (normal p))
  end.


(** *** Hit objects and the gap fill *)

(** The final end times of hit objects in file order: the end of an object
    is raised towards the object that follows it when it is a slider, and
    is its own end otherwise, or when nothing follows it. *)
Fixpoint gapFill {O E : Type} (slider : O -> bool) (endOf : O -> E)
    (raise : E -> O -> E) (objs : list O) : list E :=
  match objs with
  | [] => []
  | o :: rest =>
      match rest with
      | next :: _ =>
          if slider o then raise (endOf o) next else endOf o
      | [] => endOf o
      end :: gapFill slider endOf raise rest
  end.

(** The same for objects that [next] follows. *)
Fixpoint gapFillBefore {O E : Type} (slider : O -> bool) (endOf : O -> E)
    (raise : E -> O -> E) (objs : list O) (next : O) : list E :=
  match objs with
  | [] => []
  | o :: rest =>
      (if slider o
       then raise (endOf o) (match rest with n :: _ => n | [] => next end)
       else endOf o)
      :: gapFillBefore slider endOf raise rest next
  end.

(** A hit object as the renderer computes it on its line. *)
Record rawHit := RawHit {
  h_time : number;
  h_endTime : number;
  h_type : number
}.

(** The hit object of a line that [parseHitObjects] accepts in the state
    [st]: a line of the HitObjects section with four fields or more. *)
Definition rendererHit (st : Renderer.hitState) (line : str) : option rawHit :=
  let trimmed := trim line in
  if Renderer.isEmpty trimmed || startsWith trimmed (lit "//") then None
  else if Renderer.isHeader trimmed then None
  else if str_eqb (Renderer.section st) (lit "difficulty") then None
  else if str_eqb (Renderer.section st) (lit "timingpoints") then None
  else if Renderer.inHitObjects st then
    let parts := split 44 trimmed in
    if (List.length parts <? 4)%nat then None
    else
      let time := parseInt (Renderer.part parts 2) 0 in
      let type := parseInt (Renderer.part parts 3) 0 in
      Some (RawHit time
              (Renderer.hitEndTime (Renderer.sliderMultiplier st)
                 (Renderer.timingPoints st) parts time type)
              type)
  else None.

(** The hit objects that [parseHitObjects] accepts, in file order. *)
Fixpoint rendererHits (lines : list str) (st : Renderer.hitState)
    : list rawHit :=
  match lines with
  | [] => []
  | line :: rest =>
      match rendererHit st line with
      | Some o => o :: rendererHits rest (Renderer.parseHitObjects_line st line)
      | None => rendererHits rest (Renderer.parseHitObjects_line st line)
      end
  end.

Definition rendererHitObjects (content : str) : list rawHit :=
  rendererHits (split_lines content) Renderer.parseHitObjects_init.

(** The computed end of an object of the renderer, and the final ends. *)
Definition rendererEnd (o : rawHit) : number :=
  Math_max (h_time o) (h_endTime o).

Definition rendererEnds (objs : list rawHit) : list number :=
  gapFill (fun o => has_bit (h_type o) 2) rendererEnd
    (fun e next => Math_max e (h_time next)) objs.

(** The hit object of the line that ends at [i], when the scan of the
    worker accepts one there: a line of the HitObjects section that is not
    blank, a comment or a header, and that [parseHitObject] reads. *)
Definition workerHit (content : str) (i : Z) (st : Worker.scanState)
    : option Worker.hitObject :=
  let lineStart :=
    Worker.skipUp (Worker.span (Worker.lineStart st) i)
      (Worker.isSpaceTab content) (Worker.lineStart st) i in
  let lineEnd :=
    Worker.skipDown (Worker.span lineStart i) (Worker.isLineEndChar content)
      lineStart i in
  if (lineEnd - lineStart =? 0)%Z then None
  else if (2 <=? lineEnd - lineStart)%Z && codeIs content lineStart 47
          && codeIs content (lineStart + 1) 47 then None
  else if codeIs content lineStart 91 && codeIs content (lineEnd - 1) 93
  then None
  else
    match Worker.section st with
    | Worker.HIT_OBJECTS =>
        Worker.parseHitObject content lineStart lineEnd
          (Worker.sliderMultiplier st) (Worker.timingPoints st)
    | _ => None
    end.

(** The hit objects that the scan of the worker accepts from the index [i]
    on, in file order; it follows the loop of [Worker.scan]. *)
Fixpoint workerHits (fuel : nat) (content : str) (i : Z)
    (st : Worker.scanState) : list Worker.hitObject :=
  match fuel with
  | O => []
  | S fuel' =>
      let contentLength := len content in
      if (i <=? contentLength)%Z then
        let isNewline :=
          if (i <? contentLength)%Z then codeIs content i 10 else true in
        let isReturn :=
          if (i <? contentLength)%Z then codeIs content i 13 else false in
        if isNewline || isReturn || (i =? contentLength)%Z then
          let i' :=
            if isReturn && (i + 1 <? contentLength)%Z
               && codeIs content (i + 1) 10
            then (i + 1)%Z else i in
          match workerHit content i' st with
          | Some o =>
              o :: workerHits fuel' content (i' + 1)
                     (Worker.scanLine content i' st)
          | None =>
              workerHits fuel' content (i' + 1) (Worker.scanLine content i' st)
          end
        else workerHits fuel' content (i + 1) st
      else []
  end.

Definition workerHitObjects (content : str) : list Worker.hitObject :=
  workerHits (S (List.length content)) content 0
    (Worker.initialState content).

(** The final ends that the worker stores: every value goes through the
    32-bit elements of the array. *)
Definition workerEnds (objs : list Worker.hitObject) : list Z :=
  gapFill (fun o => has_bit (Worker.o_type o) 2)
    (fun o => ToInt32 (Worker.o_end o))
    (fun e next => ToInt32 (Math_max (of_Z e) (Worker.o_start next))) objs.

(** The arrays of the scan hold the objects [objs]: the capacity is not
    zero, and the first [hitCount] elements are the starts, the final ends
    and the types of the objects. *)
Definition holds (st : Worker.scanState) (objs : list Worker.hitObject)
    : Prop :=
  Worker.hitCount st = List.length objs
  /\ (1 <= List.length (Worker.hitStartsArray st))%nat
  /\ (Worker.hitCount st <= List.length (Worker.hitStartsArray st))%nat
  /\ List.length (Worker.hitEndsArray st)
     = List.length (Worker.hitStartsArray st)
  /\ List.length (Worker.hitTypesArray st)
     = List.length (Worker.hitStartsArray st)
  /\ firstn (Worker.hitCount st) (Worker.hitStartsArray st)
     = map (fun o => ToInt32 (Worker.o_start o)) objs
  /\ firstn (Worker.hitCount st) (Worker.hitEndsArray st) = workerEnds objs
  /\ firstn (Worker.hitCount st) (Worker.hitTypesArray st)
     = map (fun o => ToInt16 (Worker.o_type o)) objs.

(** Two states of the scan with the same arrays and the same count. *)
Definition sameHits (st st' : Worker.scanState) : Prop :=
  Worker.hitStartsArray st' = Worker.hitStartsArray st
  /\ Worker.hitEndsArray st' = Worker.hitEndsArray st
  /\ Worker.hitTypesArray st' = Worker.hitTypesArray st
  /\ Worker.hitCount st' = Worker.hitCount st.

(** *** Files used as examples *)

(** The text of a file made of the given lines. *)
Fixpoint fileOf (lines : list string) : str :=
  match lines with
  | [] => []
  | [l] => lit l
  | l :: rest => lit l ++ 10%Z :: fileOf rest
  end.

(** A string between double quotes. *)
Definition quoted (s : string) : str := 34%Z :: lit s ++ [34%Z].

(** A slider at 0 ms followed by a circle at 3000000000 ms. *)
Definition farApartFile : str :=
  fileOf ["[HitObjects]"; "0,0,0,2"; "0,0,3000000000,1"]%string.

(** A slider at 0 ms followed by a circle at 1500 ms. *)
Definition nearbyFile : str :=
  fileOf ["[HitObjects]"; "0,0,0,2"; "0,0,1500,1"]%string.

(** A timing point whose beat length is not a number, then a slider. *)
Definition badBeatLengthFile : str :=
  fileOf ["[TimingPoints]"; "0,x"; "[HitObjects]";
          "0,0,1000,2,0,L,1,100"]%string.

(** A break that ends before it starts. *)
Definition invertedBreakFile : str :=
  fileOf ["[Events]"; "2,100,50"]%string.

(** A break written with the word [break]. *)
Definition wordBreakFile : str :=
  fileOf ["[Events]"; "break,100,200"]%string.

(** A background in the WebP format. *)
Definition webpBackgroundFile : str :=
  lit "[Events]" ++ 10%Z :: lit "0,0," ++ quoted "bg.webp" ++ lit ",0,0".

End Spec.

(** ** Notions that the properties of the code are stated with *)

Module Notions.

Import JS.
Local Open Scope Z_scope.

(** A list of ranges is in increasing order and its ranges are apart: each
    one ends before the next one starts. *)
Fixpoint apart (ranges : list range) : Prop :=
  match ranges with
  | r1 :: (r2 :: _) as rest =>
      (r_end r1 <? r_start r2)%float = true /\ apart rest
  | _ => True
  end.

(** The lower case of the letters A to Z, the other code units being left
    as they are. *)
Definition lowerAscii (c : Z) : Z :=
  if (65 <=? c) && (c <=? 90) then c + 32 else c.

(** The section that a name in lower case stands for in the scan. *)
Definition sectionNamed (name : str) : Worker.sectionId :=
  if str_eqb name (lit "editor") then Worker.EDITOR
  else if str_eqb name (lit "events") then Worker.EVENTS
  else if str_eqb name (lit "general") then Worker.GENERAL
  else if str_eqb name (lit "metadata") then Worker.METADATA
  else if str_eqb name (lit "difficulty") then Worker.DIFFICULTY
  else if str_eqb name (lit "hitobjects") then Worker.HIT_OBJECTS
  else if str_eqb name (lit "timingpoints") then Worker.TIMING_POINTS
  else Worker.NONE.

Definition isBlank (c : Z) : bool := (c =? 32) || (c =? 9).

Fixpoint dropBlanks (s : str) : str :=
  match s with
  | c :: r => if isBlank c then dropBlanks r else s
  | [] => []
  end.

(** A string without the spaces and tabs at its two ends. *)
Definition strip (s : str) : str := rev (dropBlanks (rev (dropBlanks s))).

(** The header filter has found both the creator and the version. *)
Definition complete (meta : Scanner.headerMeta) : bool :=
  negb (Renderer.isEmpty (Scanner.creator meta))
  && negb (Renderer.isEmpty (Scanner.version meta)).

(** The integer of a sign and a magnitude. *)
Definition signed (s : bool) (p : positive) : Z :=
  if s then Zneg p else Zpos p.

(** The hash of a text with the multiplier 31, kept in 32 bits. *)
Definition hash31 (seed : str) : Z :=
  fold_left (fun h c => wrap_signed 32 (31 * h + c)) seed 0.

(** A string is made of UTF-16 code units. *)
Definition codeUnits (s : str) : Prop :=
  forallb (fun c => (0 <=? c) && (c <? 65536)) s = true.

(** A range counts for the progress: it is an object range or a break. *)
Definition counted (r : range) : bool :=
  Spec.isObjectRange r || Spec.isBreakRange r.

End Notions.

(** ** Proofs *)

Import JS.

(** *** C1: the timing resolver *)

Lemma getTiming_loop_resolves (tps : list timingPoint) (time : number)
    (bpm sv : number) :
  Renderer.getTiming_loop tps time bpm sv
  = fold_left Spec.resolveStep (Spec.pointsUpTo time tps) (Timing bpm sv).
Proof.
  revert bpm sv.
  induction tps as [|tp rest IH]; intros bpm sv; simpl.
  - reflexivity.
  - destruct (time <? tp_time tp)%float; [reflexivity|].
    simpl. unfold Spec.resolveStep at 2.
    destruct (tp_uninherited tp); [apply IH|].
    destruct (tp_beatLength tp <? 0)%float; apply IH.
Qed.

(** The resolver of the renderer is the linear scan of the specification:
    it starts from 500 ms and 1.0, passes the points up to the first one
    whose time exceeds the query time, and an inherited point whose beat
    length is not negative leaves the scroll velocity as it is. *)
Lemma getTiming_resolves (tps : list timingPoint) (time : number) :
  Renderer.getTiming tps time = Spec.resolveTiming tps time.
Proof.
  unfold Renderer.getTiming, Spec.resolveTiming.
  rewrite getTiming_loop_resolves. reflexivity.
Qed.

(** C1: the resolver of the worker departs from the scan that the claim
    describes.  With an inherited point of beat length -50 at time 0 and
    an inherited point of beat length 100 at time 10, the renderer keeps
    the scroll velocity 2 at time 20, as claimed, and the worker resets it
    to 1. *)
Theorem getTimingInfo_resets_scroll_velocity :
  let tps := [TimingPoint 0%float (-50)%float false;
              TimingPoint 10%float 100%float false] in
  Spec.resolveTiming tps 20%float = Timing 500%float 2%float
  /\ Renderer.getTiming tps 20%float = Timing 500%float 2%float
  /\ Worker.getTimingInfo 20%float tps = Timing 500%float 1%float.
Proof.
  repeat split; vm_compute; reflexivity.
Qed.

(** *** Strings *)

Lemma str_eqb_eq (a b : str) : str_eqb a b = true <-> a = b.
Proof.
  unfold str_eqb. destruct (list_eq_dec Z.eq_dec a b); split; congruence.
Qed.

Lemma firstn_S_nth {A : Type} (l : list A) (n : nat) (x : A) :
  nth_error l n = Some x -> firstn (S n) l = firstn n l ++ [x].
Proof.
  revert n. induction l as [|y l IH]; intros n H.
  - destruct n; discriminate.
  - destruct n as [|n]; simpl in *.
    + injection H as ->. reflexivity.
    + f_equal. apply IH. exact H.
Qed.

Lemma skipn_nth_error_Some {A : Type} (l : list A) (n : nat) (x : A) :
  nth_error l n = Some x -> skipn n l = x :: skipn (S n) l.
Proof.
  revert n. induction l as [|y l IH]; intros n H.
  - destruct n; discriminate.
  - destruct n as [|n]; simpl in *.
    + injection H as ->. reflexivity.
    + apply IH. exact H.
Qed.

Lemma slice_inside (s : str) (a b : Z) :
  (0 <= a <= b)%Z -> (b <= len s)%Z ->
  slice s a b = firstn (Z.to_nat (b - a)) (skipn (Z.to_nat a) s).
Proof.
  intros H1 H2. unfold slice.
  destruct (Z.ltb_spec a 0); [lia|].
  destruct (Z.ltb_spec b 0); [lia|].
  rewrite !Z.min_l by lia. reflexivity.
Qed.

Lemma slice_length (s : str) (a b : Z) :
  (0 <= a <= b)%Z -> (b <= len s)%Z ->
  List.length (slice s a b) = Z.to_nat (b - a).
Proof.
  intros H1 H2. rewrite slice_inside by assumption.
  rewrite length_firstn, length_skipn. unfold len in H2. lia.
Qed.

Lemma nth_error_inside (s : str) (i : Z) :
  (0 <= i < len s)%Z -> exists x, nth_error s (Z.to_nat i) = Some x.
Proof.
  intros H. destruct (nth_error s (Z.to_nat i)) as [x|] eqn:N.
  - now exists x.
  - apply nth_error_None in N. unfold len in H. lia.
Qed.

Lemma slice_first (s : str) (i e : Z) (x : Z) :
  (0 <= i < e)%Z -> (e <= len s)%Z ->
  nth_error s (Z.to_nat i) = Some x ->
  slice s i e = x :: slice s (i + 1) e.
Proof.
  intros H1 H2 Hx. rewrite !slice_inside by lia.
  rewrite (skipn_nth_error_Some _ _ _ Hx).
  replace (Z.to_nat (e - i)) with (S (Z.to_nat (e - (i + 1)))) by lia.
  replace (Z.to_nat (i + 1)) with (S (Z.to_nat i)) by lia.
  reflexivity.
Qed.

Lemma slice_last (s : str) (i e : Z) (x : Z) :
  (0 <= i < e)%Z -> (e <= len s)%Z ->
  nth_error s (Z.to_nat (e - 1)) = Some x ->
  slice s i e = slice s i (e - 1) ++ [x].
Proof.
  intros H1 H2 Hx. rewrite !slice_inside by lia.
  replace (Z.to_nat (e - i)) with (S (Z.to_nat (e - 1 - i))) by lia.
  apply firstn_S_nth. rewrite nth_error_skipn.
  replace (Z.to_nat i + Z.to_nat (e - 1 - i))%nat with (Z.to_nat (e - 1))
    by lia.
  exact Hx.
Qed.

Lemma slice_empty (s : str) (i : Z) :
  (0 <= i <= len s)%Z -> slice s i i = [].
Proof.
  intros H. rewrite slice_inside by lia. now rewrite Z.sub_diag.
Qed.

Lemma str_eqb_neq (a b : str) : str_eqb a b = false <-> a <> b.
Proof.
  unfold str_eqb. destruct (list_eq_dec Z.eq_dec a b); split; congruence.
Qed.

(** *** C10: reading kinds back *)

Lemma kindOfLetter_cases (kind : str) :
  (kind = lit "b" -> Spec.kindOfLetter kind = lit "break")
  /\ (kind = lit "k" -> Spec.kindOfLetter kind = lit "bookmark")
  /\ (kind <> lit "b" -> kind <> lit "k" ->
      Spec.kindOfLetter kind = lit "object").
Proof.
  unfold Spec.kindOfLetter. repeat split.
  - intros ->. reflexivity.
  - intros ->. reflexivity.
  - intros Hb Hk.
    apply str_eqb_neq in Hb. apply str_eqb_neq in Hk.
    rewrite Hb, Hk. reflexivity.
Qed.

Lemma deserializeHighlights_nth (ts : list (number * number * str)) (i : nat) :
  nth_error (Renderer.deserializeHighlights ts) i
  = option_map
      (fun '(start, end_, kind) =>
         Range start end_ (Some (Spec.kindOfLetter kind)))
      (nth_error ts i).
Proof.
  unfold Renderer.deserializeHighlights.
  rewrite nth_error_map.
  destruct (nth_error ts i) as [[[s e] k]|]; reflexivity.
Qed.

(** C10: [deserializeHighlights] rejects no tuple: the result has one range
    for each tuple, with the start and the end of the tuple, typed [break]
    for the kind [b], [bookmark] for the kind [k] and [object] for every
    other kind. *)
Theorem deserializeHighlights_permissive
    (ts : list (number * number * str)) (i : nat)
    (start end_ : number) (kind : str) :
  nth_error ts i = Some (start, end_, kind) ->
  List.length (Renderer.deserializeHighlights ts) = List.length ts
  /\ exists type,
       nth_error (Renderer.deserializeHighlights ts) i
       = Some (Range start end_ (Some type))
       /\ (kind = lit "b" -> type = lit "break")
       /\ (kind = lit "k" -> type = lit "bookmark")
       /\ (kind <> lit "b" -> kind <> lit "k" -> type = lit "object").
Proof.
  intros Hi. split.
  - unfold Renderer.deserializeHighlights. apply length_map.
  - exists (Spec.kindOfLetter kind). split.
    + rewrite deserializeHighlights_nth, Hi. reflexivity.
    + apply kindOfLetter_cases.
Qed.

Lemma deserializeHighlights_permissive_witness :
  let ts := [(0.25%float, 0.5%float, lit "b"); (0.5%float, 1%float, lit "z")] in
  nth_error ts 1 = Some (0.5%float, 1%float, lit "z")
  /\ (List.length (Renderer.deserializeHighlights ts) = List.length ts
      /\ exists type,
           nth_error (Renderer.deserializeHighlights ts) 1
           = Some (Range 0.5%float 1%float (Some type))
           /\ (lit "z" = lit "b" -> type = lit "break")
           /\ (lit "z" = lit "k" -> type = lit "bookmark")
           /\ (lit "z" <> lit "b" -> lit "z" <> lit "k" -> type = lit "object")).
Proof.
  intros ts. split; [reflexivity|].
  apply (deserializeHighlights_permissive ts 1 0.5%float 1%float (lit "z")).
  reflexivity.
Defined.

(** *** C4: progress *)

Lemma fold_addLength_filter (keep : range -> bool) (ranges : list range)
    (sum : number) :
  fold_left Renderer.addLength (filter keep ranges) sum
  = Spec.sumLengths keep ranges sum.
Proof.
  revert sum. induction ranges as [|r rest IH]; intros sum; simpl.
  - reflexivity.
  - destruct (keep r); simpl; apply IH.
Qed.

Lemma fold_min_filter (ranges : list range) (least : number) :
  fold_left Math_min (map r_start (filter Spec.isObjectRange ranges)) least
  = Spec.minStart ranges least.
Proof.
  revert least. induction ranges as [|r rest IH]; intros least; simpl.
  - reflexivity.
  - destruct (Spec.isObjectRange r); simpl; apply IH.
Qed.

Lemma filter_nonempty_existsb {A : Type} (p : A -> bool) (l : list A) :
  negb (Renderer.isEmpty_list (filter p l)) = existsb p l.
Proof.
  induction l as [|x l IH]; simpl; [reflexivity|].
  destruct (p x); simpl; [reflexivity | exact IH].
Qed.

(** C4: [computeProgress] is 0 on the empty list; with the setting off it
    is [min(1, populated)], [populated] being the sum of the lengths of the
    ranges tagged [object] or untagged; with the setting on it is
    [min(1, (populated + break lengths) / max(0.001, 1 - firstObjectStart))],
    [firstObjectStart] being the least start among the object ranges, or 0
    when there is none. *)
Theorem computeProgress_formula (ignoreStartAndBreaks : bool)
    (ranges : list range) :
  Renderer.computeProgress ignoreStartAndBreaks ranges
  = Spec.progress ignoreStartAndBreaks ranges
  /\ Renderer.computeProgress ignoreStartAndBreaks [] = 0%float.
Proof.
  split; [|reflexivity].
  unfold Renderer.computeProgress, Spec.progress.
  destruct ranges as [|r rest]; [reflexivity|].
  cbv beta iota delta [Renderer.isEmpty_list].
  set (l := r :: rest).
  change (fun r0 : range =>
            Renderer.typeIs r0 (lit "object") || Renderer.noType r0)
    with Spec.isObjectRange.
  change (fun r0 : range => Renderer.typeIs r0 (lit "break"))
    with Spec.isBreakRange.
  rewrite !fold_addLength_filter.
  destruct ignoreStartAndBreaks; [|reflexivity].
  unfold Spec.firstObjectStart, Spec.populated, Spec.breakLengths.
  rewrite <- filter_nonempty_existsb.
  unfold Math_min_list. rewrite fold_min_filter.
  unfold Renderer.isEmpty_list.
  destruct (filter Spec.isObjectRange l); reflexivity.
Qed.

(** *** The order of numbers *)

Lemma SFcompare_refl (a : spec_float) :
  a <> S754_nan -> SFcompare a a = Some Eq.
Proof.
  destruct a as [s|s| |s m e]; intros H; try congruence; unfold SFcompare.
  - reflexivity.
  - destruct s; reflexivity.
  - destruct s; rewrite Z.compare_refl, Pos.compare_cont_refl; reflexivity.
Qed.

Lemma SFcompare_swap (a b : spec_float) :
  SFcompare b a = option_map CompOpp (SFcompare a b).
Proof.
  destruct a as [s1|s1| |s1 m1 e1], b as [s2|s2| |s2 m2 e2];
    unfold SFcompare, option_map;
    try reflexivity;
    try (destruct s1; reflexivity); try (destruct s2; reflexivity);
    try (destruct s1, s2; reflexivity).
  rewrite (Z.compare_antisym e1 e2).
  assert (E : Pos.compare_cont Eq m2 m1
              = CompOpp (Pos.compare_cont Eq m1 m2))
    by (symmetry; apply (Pos.compare_cont_antisym m1 m2 Eq)).
  rewrite E.
  destruct s1, s2; simpl; try reflexivity;
    destruct (e1 ?= e2)%Z; simpl; try reflexivity;
    rewrite CompOpp_involutive; reflexivity.
Qed.

Lemma SFcompare_none (a b : spec_float) :
  a <> S754_nan -> b <> S754_nan -> SFcompare a b <> None.
Proof.
  destruct a, b; simpl; congruence.
Qed.

Lemma is_nan_Prim2SF (x : number) :
  is_nan x = false <-> Prim2SF x <> S754_nan.
Proof.
  unfold is_nan. rewrite FloatAxioms.eqb_spec. unfold SFeqb. split.
  - intros H Hn. rewrite Hn in H. discriminate.
  - intros H. rewrite SFcompare_refl by assumption. reflexivity.
Qed.

Lemma ltb_leb (x y : number) :
  (x <? y)%float = true -> (x <=? y)%float = true.
Proof.
  rewrite FloatAxioms.ltb_spec, FloatAxioms.leb_spec. unfold SFltb, SFleb.
  destruct (SFcompare (Prim2SF x) (Prim2SF y)) as [[]|]; congruence.
Qed.

Lemma ltb_not_nan (x y : number) :
  (x <? y)%float = true -> is_nan x = false /\ is_nan y = false.
Proof.
  rewrite FloatAxioms.ltb_spec, !is_nan_Prim2SF. unfold SFltb.
  destruct (Prim2SF x), (Prim2SF y); simpl; intros H;
    split; congruence.
Qed.

Lemma leb_refl (x : number) : is_nan x = false -> (x <=? x)%float = true.
Proof.
  rewrite is_nan_Prim2SF, FloatAxioms.leb_spec. intros H. unfold SFleb.
  rewrite SFcompare_refl by assumption. reflexivity.
Qed.

Lemma not_ltb_leb (x y : number) :
  is_nan x = false -> is_nan y = false ->
  (x <? y)%float = false -> (y <=? x)%float = true.
Proof.
  rewrite !is_nan_Prim2SF, FloatAxioms.ltb_spec, FloatAxioms.leb_spec. intros Hx Hy.
  unfold SFltb, SFleb. rewrite (SFcompare_swap (Prim2SF x) (Prim2SF y)).
  pose proof (SFcompare_none _ _ Hx Hy) as Hn.
  destruct (SFcompare (Prim2SF x) (Prim2SF y)) as [[]|]; simpl; congruence.
Qed.

Lemma Math_max_nan (x y : number) :
  is_nan (Math_max x y) = false -> is_nan x = false /\ is_nan y = false.
Proof.
  unfold Math_max.
  destruct (is_nan x) eqn:Hx; [intros H; discriminate H|].
  destruct (is_nan y) eqn:Hy; [intros H; discriminate H|].
  auto.
Qed.

Lemma Math_min_nan (x y : number) :
  is_nan (Math_min x y) = false -> is_nan x = false /\ is_nan y = false.
Proof.
  unfold Math_min.
  destruct (is_nan x) eqn:Hx; [intros H; discriminate H|].
  destruct (is_nan y) eqn:Hy; [intros H; discriminate H|].
  auto.
Qed.

(** [Math.max(x, y)] is [y] or more, unless it is [NaN]. *)
Lemma Math_max_lower (x y : number) :
  is_nan (Math_max x y) = false -> (y <=? Math_max x y)%float = true.
Proof.
  intros H. destruct (Math_max_nan x y H) as [Hx Hy].
  unfold Math_max. rewrite Hx, Hy. simpl.
  destruct (x <? y)%float eqn:H1; [apply leb_refl; assumption|].
  destruct (y <? x)%float eqn:H2; [apply ltb_leb; assumption|].
  destruct (get_sign x); [apply leb_refl | apply not_ltb_leb]; assumption.
Qed.

(** [Math.min(x, y)] is [y] or less, unless it is [NaN]. *)
Lemma Math_min_upper (x y : number) :
  is_nan (Math_min x y) = false -> (Math_min x y <=? y)%float = true.
Proof.
  intros H. destruct (Math_min_nan x y H) as [Hx Hy].
  unfold Math_min. rewrite Hx, Hy. simpl.
  destruct (y <? x)%float eqn:H1; [apply leb_refl; assumption|].
  destruct (x <? y)%float eqn:H2; [apply ltb_leb; assumption|].
  destruct (get_sign x); [apply not_ltb_leb | apply leb_refl]; assumption.
Qed.

(** A lower bound of [x] and [y] is one of [Math.min(x, y)]. *)
Lemma Math_min_lower (z x y : number) :
  is_nan (Math_min x y) = false ->
  (z <=? x)%float = true -> (z <=? y)%float = true ->
  (z <=? Math_min x y)%float = true.
Proof.
  intros H Zx Zy. destruct (Math_min_nan x y H) as [Hx Hy].
  unfold Math_min. rewrite Hx, Hy. simpl.
  destruct (y <? x)%float; [assumption|].
  destruct (x <? y)%float; [assumption|].
  destruct (get_sign x); assumption.
Qed.

Lemma clamp01_bounds (x : number) :
  is_nan (Renderer.clamp01 x) = false ->
  (0 <=? Renderer.clamp01 x)%float = true
  /\ (Renderer.clamp01 x <=? 1)%float = true.
Proof.
  unfold Renderer.clamp01. intros H. split.
  - destruct (Math_min_nan _ _ H) as [Hm _].
    apply Math_min_lower; [assumption | | reflexivity].
    apply Math_max_lower. assumption.
  - apply Math_min_upper. assumption.
Qed.

Lemma SFleb_trans (a b c : spec_float) :
  SFleb a b = true -> SFleb b c = true -> SFleb a c = true.
Proof.
  unfold SFleb.
  destruct a as [s1|s1| |s1 m1 e1], b as [s2|s2| |s2 m2 e2],
    c as [s3|s3| |s3 m3 e3]; unfold SFcompare;
    try discriminate; try reflexivity;
    try (destruct s1, s2, s3; try discriminate; reflexivity);
    try (destruct s1, s2; try discriminate; reflexivity);
    try (destruct s1, s3; try discriminate; reflexivity);
    try (destruct s2, s3; try discriminate; reflexivity);
    try (destruct s1; try discriminate; reflexivity);
    try (destruct s2; try discriminate; reflexivity);
    try (destruct s3; try discriminate; reflexivity).
  change (Pos.compare_cont Eq m1 m2) with (Zpos m1 ?= Zpos m2)%Z.
  change (Pos.compare_cont Eq m2 m3) with (Zpos m2 ?= Zpos m3)%Z.
  change (Pos.compare_cont Eq m1 m3) with (Zpos m1 ?= Zpos m3)%Z.
  destruct s1, s2, s3; try discriminate; try reflexivity;
    destruct (Z.compare_spec e1 e2), (Z.compare_spec e2 e3),
      (Z.compare_spec e1 e3);
    destruct (Z.compare_spec (Zpos m1) (Zpos m2)),
      (Z.compare_spec (Zpos m2) (Zpos m3)),
      (Z.compare_spec (Zpos m1) (Zpos m3));
    simpl; try discriminate; try reflexivity; lia.
Qed.

Lemma leb_trans (x y z : number) :
  (x <=? y)%float = true -> (y <=? z)%float = true -> (x <=? z)%float = true.
Proof.
  rewrite !FloatAxioms.leb_spec. apply SFleb_trans.
Qed.

Lemma leb_not_nan (x y : number) :
  (x <=? y)%float = true -> is_nan x = false /\ is_nan y = false.
Proof.
  rewrite FloatAxioms.leb_spec, !is_nan_Prim2SF. unfold SFleb.
  destruct (Prim2SF x), (Prim2SF y); simpl; intros H;
    split; congruence.
Qed.

(** [Math.max(x, y)] is [x] or more, unless it is [NaN]. *)
Lemma Math_max_lower_l (x y : number) :
  is_nan (Math_max x y) = false -> (x <=? Math_max x y)%float = true.
Proof.
  intros H. destruct (Math_max_nan x y H) as [Hx Hy].
  unfold Math_max. rewrite Hx, Hy. simpl.
  destruct (x <? y)%float eqn:H1; [apply ltb_leb; assumption|].
  destruct (y <? x)%float eqn:H2; [apply leb_refl; assumption|].
  destruct (get_sign x); [apply not_ltb_leb | apply leb_refl]; assumption.
Qed.

(** *** C2: the bounds of the highlight ranges *)

Lemma forallb_seq (f : nat -> bool) (n i : nat) :
  forallb f (seq 0 n) = true -> (i < n)%nat -> f i = true.
Proof.
  intros H Hi. rewrite forallb_forall in H. apply H. apply in_seq. lia.
Qed.

(** Every pair of boundaries of the object bins, by computation. *)
Lemma objectFractions_checked :
  forallb (fun s => forallb (Spec.objectFractionOk s) (seq 0 121)) (seq 0 120)
  = true.
Proof. vm_compute. reflexivity. Qed.

(** Every bookmark bin, by computation. *)
Lemma bookmarkFractions_checked :
  forallb Spec.bookmarkFractionOk (seq 0 200) = true.
Proof. vm_compute. reflexivity. Qed.

Lemma objectFractions (s e : Z) :
  (0 <= s < e)%Z -> (e <= 120)%Z ->
  (0 <=? Spec.fraction s 120)%float = true
  /\ (Spec.fraction s 120 <? Spec.fraction e 120)%float = true
  /\ (Spec.fraction e 120 <=? 1)%float = true.
Proof.
  intros Hs He.
  pose proof (forallb_seq
                (fun s => forallb (Spec.objectFractionOk s) (seq 0 121))
                120 (Z.to_nat s) objectFractions_checked ltac:(lia)) as H.
  cbv beta in H.
  apply (fun H => forallb_seq _ 121 (Z.to_nat e) H ltac:(lia)) in H.
  unfold Spec.objectFractionOk in H.
  rewrite !Z2Nat.id in H by lia.
  destruct (Nat.ltb_spec (Z.to_nat s) (Z.to_nat e)) as [_|Hn]; [|lia].
  apply andb_prop in H. destruct H as [H H3].
  apply andb_prop in H. destruct H as [H1 H2]. auto.
Qed.

Lemma encodeRuns_fractions (flags : list bool) (n : nat) (i : Z)
    (start : option Z) (r : range) :
  (i + Z.of_nat n = 120)%Z -> (0 <= i)%Z ->
  (forall s, start = Some s -> (0 <= s < i)%Z) ->
  In r (Renderer.encodeRuns n 120 flags i start) ->
  exists s e, (0 <= s < e)%Z /\ (e <= 120)%Z
    /\ r_start r = Spec.fraction s 120 /\ r_end r = Spec.fraction e 120.
Proof.
  revert i start. induction n as [|n IH]; intros i start Hn Hi Hs Hr.
  - simpl in Hr. destruct start as [s|]; [|contradiction].
    destruct Hr as [<-|[]]. exists s, 120%Z.
    specialize (Hs s eq_refl). repeat split; try lia.
  - simpl in Hr.
    destruct (nth (Z.to_nat i) flags false).
    + apply IH in Hr; [assumption | lia | lia |].
      intros s Es. destruct start as [s0|].
      * injection Es as <-. specialize (Hs s0 eq_refl). lia.
      * injection Es as <-. lia.
    + destruct start as [s|].
      * destruct Hr as [<-|Hr].
        -- exists s, i. specialize (Hs s eq_refl).
           repeat split; try lia.
        -- apply IH in Hr; [assumption | lia | lia | discriminate].
      * apply IH in Hr; [assumption | lia | lia | discriminate].
Qed.

Lemma buildHighlightRanges_inUnit (starts ends : list number)
    (durationMs : number) (r : range) :
  In r (Renderer.buildHighlightRanges starts ends durationMs) ->
  Spec.inUnit r.
Proof.
  unfold Renderer.buildHighlightRanges.
  destruct (Renderer.isEmpty_list starts || negb (truthy durationMs));
    [contradiction|].
  intros Hr. apply encodeRuns_fractions in Hr; try (lia || discriminate).
  destruct Hr as (s & e & Hs & He & Es & Ee).
  unfold Spec.inUnit. rewrite Es, Ee. apply objectFractions; assumption.
Qed.

Lemma buildBreakRanges_inUnit (breaks : list breakPeriod)
    (durationMs : number) (r : range) :
  In r (Renderer.buildBreakRanges breaks durationMs) -> Spec.inUnit r.
Proof.
  unfold Renderer.buildBreakRanges.
  destruct (Renderer.isEmpty_list breaks || negb (truthy durationMs));
    [contradiction|].
  intros Hr. apply filter_In in Hr. destruct Hr as [Hr Hlt].
  apply in_map_iff in Hr. destruct Hr as (b & <- & _).
  simpl in Hlt. destruct (ltb_not_nan _ _ Hlt) as [Ns Ne].
  unfold Spec.inUnit. simpl.
  destruct (clamp01_bounds _ Ns) as [Hs _].
  destruct (clamp01_bounds _ Ne) as [_ He]. auto.
Qed.

Lemma bookmarkRuns_bins (flags : list bool) (n : nat) (i : Z) (r : range) :
  (i + Z.of_nat n = 200)%Z -> (0 <= i)%Z ->
  In r (Renderer.bookmarkRuns n 200 flags i) ->
  exists j, (0 <= j < 200)%Z
    /\ r_start r = Spec.fraction j 200
    /\ r_end r = ((of_Z j + 1.2) / of_Z 200)%float.
Proof.
  revert i. induction n as [|n IH]; intros i Hn Hi Hr.
  - contradiction.
  - simpl in Hr.
    destruct (nth (Z.to_nat i) flags false).
    + destruct Hr as [<-|Hr].
      * exists i. repeat split; lia.
      * apply IH in Hr; [assumption | lia | lia].
    + apply IH in Hr; [assumption | lia | lia].
Qed.

Lemma buildBookmarkRanges_bounds (bookmarks : list number)
    (durationMs : number) (r : range) :
  In r (Renderer.buildBookmarkRanges bookmarks durationMs) ->
  Spec.bookmarkBounds r.
Proof.
  unfold Renderer.buildBookmarkRanges.
  destruct (Renderer.isEmpty_list bookmarks || negb (truthy durationMs));
    [contradiction|].
  intros Hr. apply bookmarkRuns_bins in Hr; try lia.
  destruct Hr as (j & Hj & Hs & He).
  pose proof (forallb_seq Spec.bookmarkFractionOk 200 (Z.to_nat j)
                bookmarkFractions_checked ltac:(lia)) as H.
  unfold Spec.bookmarkFractionOk in H.
  cbv zeta in H. rewrite !Z2Nat.id in H by lia.
  rewrite <- Hs, <- He in H.
  repeat (apply andb_prop in H; destruct H as [H ?]).
  unfold Spec.bookmarkBounds. repeat split; try assumption.
  destruct (Z.to_nat j <? 199)%nat; [left; assumption|].
  destruct (Leibniz.eqb (r_start r) 0.995%float) eqn:E; [|discriminate].
  right. split; apply FloatAxioms.Leibniz.eqb_spec; assumption.
Qed.

(** C2, as it holds: for every input and every duration, every range of
    [buildHighlightRanges] and of [buildBreakRanges] satisfies
    [0 <= start < end <= 1]; every range of [buildBookmarkRanges] satisfies
    [0 <= start < end] and [start < 1], and its end is at most 1 except in
    the last of the 200 bins, where the range runs from 0.995 to
    [(199 + 1.2) / 200]. *)
Theorem highlight_ranges_bounds (starts ends : list number)
    (breaks : list breakPeriod) (bookmarks : list number)
    (durationMs : number) :
  Forall Spec.inUnit (Renderer.buildHighlightRanges starts ends durationMs)
  /\ Forall Spec.inUnit (Renderer.buildBreakRanges breaks durationMs)
  /\ Forall Spec.bookmarkBounds
       (Renderer.buildBookmarkRanges bookmarks durationMs).
Proof.
  repeat split; apply Forall_forall; intros r.
  - apply buildHighlightRanges_inUnit.
  - apply buildBreakRanges_inUnit.
  - apply buildBookmarkRanges_bounds.
Qed.

(** C2 as it was stated fails: for the duration 10000 ms, a bookmark at
    9990 ms falls in the last bin and its range ends after 1. *)
Lemma bookmark_range_ends_after_one :
  (0 <? 10000)%float = true
  /\ ~ Forall Spec.inUnit
        (Renderer.buildBookmarkRanges [9990%float] 10000%float).
Proof.
  split; [reflexivity|].
  intros H.
  assert (E : Renderer.buildBookmarkRanges [9990%float] 10000%float
              = [Range 0.995%float Spec.lastBookmarkEnd Renderer.kindBookmark])
    by (vm_compute; reflexivity).
  rewrite E in H. inversion H as [|r l [_ [_ H3]] _]. 
  vm_compute in H3. discriminate H3.
Qed.

(** *** Integers as numbers *)

Section SmallIntegers.

Local Open Scope Z_scope.

Lemma digits2_pos_bounds (p : positive) :
  2 ^ (Zpos (digits2_pos p) - 1) <= Zpos p < 2 ^ Zpos (digits2_pos p).
Proof.
  induction p as [p IH|p IH|]; simpl digits2_pos.
  - rewrite Pos2Z.inj_succ.
    replace (Z.succ (Zpos (digits2_pos p)) - 1) with (Z.succ (Zpos (digits2_pos p) - 1)) by lia.
    rewrite !Z.pow_succ_r by lia. lia.
  - rewrite Pos2Z.inj_succ.
    replace (Z.succ (Zpos (digits2_pos p)) - 1) with (Z.succ (Zpos (digits2_pos p) - 1)) by lia.
    rewrite !Z.pow_succ_r by lia. lia.
  - simpl. lia.
Qed.

Lemma digits2_pos_unique (p : positive) (d : Z) :
  2 ^ (d - 1) <= Zpos p < 2 ^ d -> 0 < d -> Zpos (digits2_pos p) = d.
Proof.
  intros [H1 H2] Hd. pose proof (digits2_pos_bounds p) as [B1 B2].
  destruct (Z.lt_trichotomy (Zpos (digits2_pos p)) d) as [L|[E|G]]; [|exact E|].
  - exfalso. assert (2 ^ Zpos (digits2_pos p) <= 2 ^ (d - 1)) by (apply Z.pow_le_mono_r; lia). lia.
  - exfalso. assert (2 ^ d <= 2 ^ (Zpos (digits2_pos p) - 1)) by (apply Z.pow_le_mono_r; lia). lia.
Qed.

Lemma iter_xO (p k : positive) : Zpos (Pos.iter xO p k) = Zpos p * 2 ^ Zpos k.
Proof.
  induction k as [|k IH] using Pos.peano_ind.
  - simpl. lia.
  - rewrite Pos.iter_succ, Pos2Z.inj_succ, Z.pow_succ_r by lia.
    rewrite Pos2Z.inj_xO, IH. lia.
Qed.

Lemma normal_value (p : positive) :
  Zpos (digits2_pos p) <= 53 ->
  let '(m, e) := Spec.normal p in
  Zpos m = Zpos p * 2 ^ (- e) /\ -52 <= e <= 0 /\ Zpos (digits2_pos m) = 53 /\ e = Zpos (digits2_pos p) - 53.
Proof.
  intros Hd. unfold Spec.normal.
  pose proof (digits2_pos_bounds p) as [B1 B2].
  destruct (53 - Zpos (digits2_pos p)) as [|k|k] eqn:E; try lia.
  rewrite iter_xO.
  replace (- (Zpos (digits2_pos p) - 53)) with (Zpos k) by lia.
  repeat split; try lia.
  apply digits2_pos_unique; [|lia].
  rewrite iter_xO.
  assert (P1 : 2 ^ (53 - 1) = 2 ^ (Zpos (digits2_pos p) - 1) * 2 ^ Zpos k)
    by (rewrite <- Z.pow_add_r by lia; f_equal; lia).
  assert (P2 : 2 ^ 53 = 2 ^ Zpos (digits2_pos p) * 2 ^ Zpos k)
    by (rewrite <- Z.pow_add_r by lia; f_equal; lia).
  rewrite P1, P2.
  assert (0 < 2 ^ Zpos k) by (apply Z.pow_pos_nonneg; lia).
  split; [apply Z.mul_le_mono_nonneg_r | apply Z.mul_lt_mono_pos_r]; lia.
Qed.

Lemma shl_align_normal (p : positive) :
  Zpos (digits2_pos p) <= 53 ->
  shl_align p 0 (Zpos (digits2_pos p) - 53) = Spec.normal p.
Proof.
  intros Hd. unfold shl_align, Spec.normal. rewrite Z.sub_0_r.
  destruct (Zpos (digits2_pos p) - 53) as [|k1|k1] eqn:E1;
    destruct (53 - Zpos (digits2_pos p)) as [|k2|k2] eqn:E2;
    try lia; try reflexivity.
  assert (k1 = k2) as -> by lia. rewrite <- E1. reflexivity.
Qed.

Lemma binary_round_aux_exact (s : bool) (m : positive) (e : Z) :
  Zpos (digits2_pos m) = 53 -> -1074 <= e <= 971 ->
  binary_round_aux prec emax s (Zpos m) e loc_Exact = S754_finite s m e.
Proof.
  intros Hm He.
  unfold binary_round_aux, shr_fexp, fexp, emin, prec, emax, Zdigits2.
  rewrite Hm.
  replace (Z.max (53 + e - 53) (3 - 1024 - 53) - e) with 0 by lia.
  cbn [shr shr_record_of_loc shr_m loc_of_shr_record round_nearest_even Zdigits2].
  rewrite Hm.
  replace (Z.max (53 + e - 53) (3 - 1024 - 53) - e) with 0 by lia.
  cbn [shr shr_record_of_loc shr_m].
  destruct (Z.leb_spec e (1024 - 53)); [reflexivity | lia].
Qed.

Lemma binary_round_small (s : bool) (p : positive) :
  Zpos (digits2_pos p) <= 53 ->
  binary_round prec emax s p 0 = S754_finite s (fst (Spec.normal p)) (snd (Spec.normal p)).
Proof.
  intros Hd.
  assert (F : fexp prec emax (Zpos (digits2_pos p) + 0)
              = Zpos (digits2_pos p) - 53).
  { change (Z.max (Zpos (digits2_pos p) + 0 - 53) (3 - 1024 - 53)
            = Zpos (digits2_pos p) - 53). lia. }
  pose proof (normal_value p Hd) as N.
  unfold binary_round. rewrite F.
  rewrite shl_align_normal by assumption.
  destruct (Spec.normal p) as [m e]. destruct N as (_ & He & Hm & _).
  cbn [fst snd]. apply binary_round_aux_exact; [exact Hm | lia].
Qed.

Lemma valid_normal (s : bool) (p : positive) :
  Zpos (digits2_pos p) <= 53 ->
  SpecFloat.valid_binary prec emax
    (S754_finite s (fst (Spec.normal p)) (snd (Spec.normal p))) = true.
Proof.
  intros Hd. pose proof (normal_value p Hd) as N.
  destruct (Spec.normal p) as [m e]. destruct N as (_ & He & Hm & _).
  unfold SpecFloat.valid_binary, bounded, canonical_mantissa, fexp, emin, prec, emax.
  cbn [fst snd]. rewrite Hm.
  apply andb_true_intro. split; [apply Z.eqb_eq | apply Z.leb_le]; lia.
Qed.

Lemma digits_small (p : positive) :
  Zpos p < 2 ^ 53 -> Zpos (digits2_pos p) <= 53.
Proof.
  intros H. pose proof (digits2_pos_bounds p) as [B1 _].
  destruct (Z.le_gt_cases (Zpos (digits2_pos p)) 53) as [L|G]; [exact L|].
  exfalso.
  assert (2 ^ 53 <= 2 ^ (Zpos (digits2_pos p) - 1))
    by (apply Z.pow_le_mono_r; lia).
  lia.
Qed.

Lemma Prim2SF_of_Z (z : Z) :
  Z.abs z < 2 ^ 53 -> Prim2SF (of_Z z) = Spec.normalSF z.
Proof.
  intros Hz. unfold of_Z, binary_normalize, Spec.normalSF.
  destruct z as [|p|p].
  - reflexivity.
  - assert (Hd : Zpos (digits2_pos p) <= 53) by (apply digits_small; lia).
    rewrite binary_round_small by assumption.
    apply Prim2SF_SF2Prim, valid_normal. assumption.
  - assert (Hd : Zpos (digits2_pos p) <= 53) by (apply digits_small; lia).
    rewrite binary_round_small by assumption.
    apply Prim2SF_SF2Prim, valid_normal. assumption.
Qed.

Lemma normal_order (p1 p2 : positive) :
  Zpos (digits2_pos p1) <= 53 -> Zpos (digits2_pos p2) <= 53 ->
  match snd (Spec.normal p1) ?= snd (Spec.normal p2) with
  | Lt => Lt
  | Gt => Gt
  | Eq => Pos.compare_cont Eq (fst (Spec.normal p1)) (fst (Spec.normal p2))
  end = (Zpos p1 ?= Zpos p2).
Proof.
  intros H1 H2.
  pose proof (normal_value p1 H1) as N1.
  pose proof (normal_value p2 H2) as N2.
  pose proof (digits2_pos_bounds p1) as [L1 U1].
  pose proof (digits2_pos_bounds p2) as [L2 U2].
  destruct (Spec.normal p1) as [m1 e1], (Spec.normal p2) as [m2 e2]. cbn [fst snd].
  destruct N1 as (V1 & _ & _ & E1), N2 as (V2 & _ & _ & E2).
  destruct (Z.compare_spec e1 e2) as [E|L|G].
  - change (Pos.compare_cont Eq m1 m2) with (Zpos m1 ?= Zpos m2).
    rewrite V1, V2, E.
    assert (0 < 2 ^ (- e2)) by (apply Z.pow_pos_nonneg; lia).
    symmetry. apply Zmult_compare_compat_r. lia.
  - symmetry. apply Z.compare_lt_iff.
    assert (2 ^ Zpos (digits2_pos p1) <= 2 ^ (Zpos (digits2_pos p2) - 1))
      by (apply Z.pow_le_mono_r; lia).
    lia.
  - symmetry. apply Z.compare_gt_iff.
    assert (2 ^ Zpos (digits2_pos p2) <= 2 ^ (Zpos (digits2_pos p1) - 1))
      by (apply Z.pow_le_mono_r; lia).
    lia.
Qed.

Lemma SFcompare_small (a b : Z) :
  Z.abs a < 2 ^ 53 -> Z.abs b < 2 ^ 53 ->
  SFcompare (Spec.normalSF a) (Spec.normalSF b) = Some (a ?= b).
Proof.
  intros Ha Hb.
  destruct a as [|p1|p1], b as [|p2|p2]; try reflexivity.
  - change (Some
              match snd (Spec.normal p1) ?= snd (Spec.normal p2) with
              | Lt => Lt
              | Gt => Gt
              | Eq => Pos.compare_cont Eq (fst (Spec.normal p1)) (fst (Spec.normal p2))
              end = Some (Zpos p1 ?= Zpos p2)).
    rewrite normal_order by (apply digits_small; lia). reflexivity.
  - change (Some
              match snd (Spec.normal p1) ?= snd (Spec.normal p2) with
              | Lt => Gt
              | Gt => Lt
              | Eq => CompOpp (Pos.compare_cont Eq (fst (Spec.normal p1))
                                 (fst (Spec.normal p2)))
              end = Some (CompOpp (Zpos p1 ?= Zpos p2))).
    rewrite <- normal_order by (apply digits_small; lia).
    destruct (snd (Spec.normal p1) ?= snd (Spec.normal p2)); reflexivity.
Qed.

Lemma ltb_of_Z (a b : Z) :
  Z.abs a < 2 ^ 53 -> Z.abs b < 2 ^ 53 ->
  (of_Z a <? of_Z b)%float = (a <? b).
Proof.
  intros Ha Hb.
  rewrite FloatAxioms.ltb_spec, !Prim2SF_of_Z by assumption.
  unfold SFltb. rewrite SFcompare_small by assumption.
  unfold Z.ltb. destruct (a ?= b); reflexivity.
Qed.

Lemma leb_of_Z (a b : Z) :
  (Z.abs a < 2 ^ 53)%Z -> (Z.abs b < 2 ^ 53)%Z ->
  (of_Z a <=? of_Z b)%float = (a <=? b)%Z.
Proof.
  intros Ha Hb.
  rewrite FloatAxioms.leb_spec, !Prim2SF_of_Z by assumption.
  unfold SFleb. rewrite SFcompare_small by assumption.
  unfold Z.leb. destruct (a ?= b)%Z; reflexivity.
Qed.

Lemma truncate_normal (p : positive) :
  Zpos (digits2_pos p) <= 53 ->
  (if 0 <=? snd (Spec.normal p) then Zpos (fst (Spec.normal p)) * 2 ^ snd (Spec.normal p)
   else Zpos (fst (Spec.normal p)) / 2 ^ (- snd (Spec.normal p))) = Zpos p.
Proof.
  intros Hd. pose proof (normal_value p Hd) as N.
  destruct (Spec.normal p) as [m e]. cbn [fst snd]. destruct N as (V & He & _).
  rewrite V.
  assert (0 < 2 ^ (- e)) by (apply Z.pow_pos_nonneg; lia).
  destruct (Z.leb_spec 0 e).
  - assert (e = 0) as -> by lia. simpl. lia.
  - apply Z.div_mul. lia.
Qed.

End SmallIntegers.

(** *** Numbers with a mantissa of 53 bits *)

Section FullMantissa.

Local Open Scope Z_scope.

Lemma iter_pos_nat {A : Type} (f : A -> A) (p : positive) (x : A) :
  iter_pos f p x = Nat.iter (Pos.to_nat p) f x.
Proof.
  revert x. induction p as [p IH|p IH|]; intros x; simpl iter_pos.
  - rewrite !IH, Pos2Nat.inj_xI.
    replace (S (2 * Pos.to_nat p)) with (Pos.to_nat p + S (Pos.to_nat p))%nat
      by lia.
    rewrite Nat.iter_add, Nat.iter_succ_r. reflexivity.
  - rewrite !IH, Pos2Nat.inj_xO.
    replace (2 * Pos.to_nat p)%nat with (Pos.to_nat p + Pos.to_nat p)%nat
      by lia.
    rewrite Nat.iter_add. reflexivity.
  - reflexivity.
Qed.

Lemma iter_xO_nat (q : positive) (n : nat) :
  Zpos (Nat.iter n xO q) = Zpos q * 2 ^ Z.of_nat n.
Proof.
  induction n as [|n IH].
  - simpl. lia.
  - rewrite Nat2Z.inj_succ, Z.pow_succ_r by lia.
    rewrite Nat.iter_succ, Pos2Z.inj_xO, IH. lia.
Qed.

Lemma shr_1_iter (q : positive) (n : nat) :
  Nat.iter n shr_1 (Build_shr_record (Zpos (Nat.iter n xO q)) false false)
  = Build_shr_record (Zpos q) false false.
Proof.
  induction n as [|n IH]; [reflexivity|].
  rewrite Nat.iter_succ_r, Nat.iter_succ. cbn [shr_1 orb]. exact IH.
Qed.

Lemma pos_of_power (m m' : positive) (n : Z) :
  0 <= n -> Zpos m = Zpos m' * 2 ^ n -> m = Nat.iter (Z.to_nat n) xO m'.
Proof.
  intros Hn E. apply Pos2Z.inj. rewrite iter_xO_nat, Z2Nat.id by lia.
  exact E.
Qed.

Lemma digits_shifted (m' : positive) (n : nat) :
  Zpos (digits2_pos (Nat.iter n xO m'))
  = Zpos (digits2_pos m') + Z.of_nat n.
Proof.
  induction n as [|n IH]; [simpl; lia|].
  rewrite Nat.iter_succ. cbn [digits2_pos]. rewrite Pos2Z.inj_succ, IH. lia.
Qed.

(** A value that a mantissa of 53 bits holds rounds to itself. *)
Lemma binary_round_aux_shift (s : bool) (m m' : positive) (e e' : Z) :
  e <= e' -> Zpos m = Zpos m' * 2 ^ (e' - e) ->
  Zpos (digits2_pos m') = 53 -> -1074 <= e' <= 971 ->
  binary_round_aux prec emax s (Zpos m) e loc_Exact = S754_finite s m' e'.
Proof.
  intros He Hm Hd Hr.
  destruct (Z.eq_dec e e') as [<-|Ne].
  - rewrite Z.sub_diag, Z.pow_0_r, Z.mul_1_r in Hm. injection Hm as ->.
    now apply binary_round_aux_exact.
  - apply pos_of_power in Hm; [|lia]. subst m.
    set (n := Z.to_nat (e' - e)).
    assert (Dm : Zpos (digits2_pos (Nat.iter n xO m')) = 53 + (e' - e)).
    { rewrite digits_shifted, Hd. unfold n. lia. }
    unfold binary_round_aux, shr_fexp, fexp, emin, prec, emax.
    cbn [Zdigits2]. rewrite Dm.
    replace (Z.max (53 + (e' - e) + e - 53) (3 - 1024 - 53) - e)
      with (e' - e) by lia.
    destruct (e' - e) as [|k|k] eqn:K; try lia.
    cbn [shr shr_record_of_loc]. rewrite iter_pos_nat.
    replace (Pos.to_nat k) with n by (unfold n; lia).
    rewrite shr_1_iter.
    cbn [shr_m loc_of_shr_record round_nearest_even Zdigits2].
    rewrite Hd.
    replace (e + Zpos k) with e' by lia.
    replace (Z.max (53 + e' - 53) (3 - 1024 - 53) - e') with 0 by lia.
    cbn [shr shr_record_of_loc shr_m].
    destruct (Z.leb_spec e' (1024 - 53)); [reflexivity | lia].
Qed.

End FullMantissa.

(** *** Rounding to four decimal places *)

Section NearestDecimal.

Import QArith_base Qround Qabs.
Local Open Scope Q_scope.

(** The integer of [nearest4] is within a half of 10000 times the
    magnitude: no integer is nearer. *)
Lemma nearest4_nearest (v : Q) :
  Qabs v * 10000 - (1 # 2) < inject_Z (Spec.nearest4 v)
  /\ inject_Z (Spec.nearest4 v) <= Qabs v * 10000 + (1 # 2).
Proof.
  unfold Spec.nearest4. set (x := Qabs v * 10000).
  pose proof (Qfloor_le (x + (1 # 2))) as L.
  pose proof (Qlt_floor (x + (1 # 2))) as U.
  rewrite inject_Z_plus in U.
  split; [|exact L].
  apply (Qplus_lt_l _ _ 1).
  setoid_replace (x - (1 # 2) + 1) with (x + (1 # 2)); [exact U|].
  ring.
Qed.

End NearestDecimal.

Section FourDecimals.

Local Open Scope Z_scope.

Lemma half_up (a : Z) : (a * 2 + 1) / 2 = a.
Proof.
  symmetry. apply (Z.div_unique (a * 2 + 1) 2 a 1); lia.
Qed.

(** The digits that [toFixed(4)] prints are those of the multiple of
    1/10000 nearest to the value of the number, and the sign of the value
    is the sign of the number. *)
Lemma valueOf_finite (x : number) (s : bool) (m : positive) (e : Z) :
  Prim2SF x = S754_finite s m e ->
  exists v, Spec.valueOf x = Some v
            /\ Spec.nearest4 v = Renderer.fixed4 m e
            /\ QArith_base.Qle_bool (QArith_base.inject_Z 0) v = negb s.
Proof.
  intros Hx. unfold Spec.valueOf. rewrite Hx. cbv zeta.
  eexists. split; [reflexivity|].
  unfold Spec.nearest4, Renderer.fixed4, Qround.Qfloor, Qabs.Qabs,
    QArith_base.Qplus, QArith_base.Qmult, QArith_base.Qle_bool,
    QArith_base.inject_Z.
  destruct e as [|p|p]; cbn [QArith_base.Qnum QArith_base.Qden].
  - change (0 <=? 0) with true. cbv iota.
    rewrite Z.pow_0_r, !Z.mul_1_r.
    change (Zpos (1 * 1 * 2)) with 2. change (Zpos (1 * 1)) with 1.
    change (Zpos 2) with 2.
    destruct s; cbn [Z.abs negb].
    + split; [apply half_up | reflexivity].
    + split; [apply half_up | reflexivity].
  - change (0 <=? Zpos p) with true. cbv iota.
    assert (P : 0 < 2 ^ Zpos p) by (apply Z.pow_pos_nonneg; lia).
    change (Zpos (1 * 1 * 2)) with 2. change (Zpos (1 * 1)) with 1.
    change (Zpos 2) with 2. rewrite !Z.mul_1_r.
    destruct s; cbn [negb].
    + split.
      * rewrite Z.abs_neq by nia.
        replace (- (Zneg m * 2 ^ Zpos p)) with (Zpos m * 2 ^ Zpos p) by lia.
        apply half_up.
      * destruct (Z.leb_spec 0 (Zneg m * 2 ^ Zpos p)); [nia | reflexivity].
    + split.
      * rewrite Z.abs_eq by nia. apply half_up.
      * destruct (Z.leb_spec 0 (Zpos m * 2 ^ Zpos p)); [reflexivity | nia].
  - change (0 <=? Zneg p) with false. cbv iota.
    rewrite !Pos.mul_1_r, Pos2Z.inj_mul, Pos2Z.inj_pow.
    change (Zpos 2) with 2. rewrite Z.mul_1_l, Z.mul_1_r.
    replace (1 - Zneg p) with (Z.succ (Zpos p)) by lia.
    rewrite Z.pow_succ_r by lia.
    change (- Zneg p) with (Zpos p).
    destruct s; cbn [Z.abs negb]; (split; [f_equal; lia|]).
    + reflexivity.
    + reflexivity.
Qed.

(** A number of magnitude 10^21 or more has no binary digit after the
    point. *)
Lemma large_exponent (x : number) (s : bool) (m : positive) (e : Z) :
  Prim2SF x = S754_finite s m e ->
  (1e21 <=? abs x)%float = true -> 0 <= e.
Proof.
  intros Hx. rewrite leb_spec, abs_spec, Hx.
  destruct e as [|p|p]; [lia | lia |].
  vm_compute. discriminate.
Qed.

(** A number without a binary digit after the point has a mantissa of 53
    bits. *)
Lemma integer_mantissa (x : number) (s : bool) (m : positive) (e : Z) :
  Prim2SF x = S754_finite s m e -> 0 <= e ->
  Zpos (digits2_pos m) = 53 /\ e <= 971.
Proof.
  intros Hx He. pose proof (Prim2SF_valid x) as V. rewrite Hx in V.
  unfold SpecFloat.valid_binary, bounded, canonical_mantissa, fexp, emin,
    prec, emax in V.
  apply andb_prop in V. destruct V as [V1 V2].
  apply Z.eqb_eq in V1. apply Z.leb_le in V2. lia.
Qed.

Lemma div_eucl_multiple (k : Z) :
  Z.div_eucl (k * 10000) 10000 = (k, 0).
Proof.
  pose proof (Z.div_eucl_eq (k * 10000) 10000 ltac:(lia)) as E.
  pose proof (Z.mod_pos_bound (k * 10000) 10000 ltac:(lia)) as B.
  unfold Z.modulo in B.
  destruct (Z.div_eucl (k * 10000) 10000) as [q r].
  f_equal; lia.
Qed.

(** Dividing by 10000 the product by 10000 of a number without a binary
    digit after the point gives the number back. *)
Lemma SFdiv_multiple (s : bool) (m P : positive) (e : Z) :
  Zpos (digits2_pos m) = 53 -> 0 <= e <= 971 ->
  Zpos P = Zpos m * 2 ^ e * 10000 ->
  SFdiv prec emax (S754_finite s P 0) (S754_finite false 10000 0)
  = S754_finite s m e.
Proof.
  intros Hd He HP.
  assert (P2 : 0 < 2 ^ e) by (apply Z.pow_pos_nonneg; lia).
  pose proof (digits2_pos_bounds m) as [M1 M2]. rewrite Hd in M1, M2.
  pose proof (digits2_pos_bounds P) as [D1 D2].
  assert (L : 66 <= Zpos (digits2_pos P)).
  { destruct (Z.le_gt_cases 66 (Zpos (digits2_pos P))) as [G|G]; [exact G|].
    exfalso.
    assert (2 ^ Zpos (digits2_pos P) <= 2 ^ 65)
      by (apply Z.pow_le_mono_r; lia).
    assert (2 ^ 65 <= Zpos P); [|lia].
    rewrite HP. change (2 ^ 65) with (2 ^ 52 * 1 * 8192).
    change (53 - 1) with 52 in M1. nia. }
  unfold SFdiv, SFdiv_core_binary, fexp, emin, prec, emax.
  cbn [Zdigits2]. change (digits2_pos 10000) with 14%positive.
  rewrite xorb_false_r.
  destruct (Z.le_gt_cases 67 (Zpos (digits2_pos P))) as [G|G].
  - replace (Z.min (Z.max (Zpos (digits2_pos P) + 0 - (14 + 0) - 53)
                      (3 - 1024 - 53)) (0 - 0)) with 0 by lia.
    cbn [Z.sub Z.opp Z.add]. rewrite HP, div_eucl_multiple.
    change (new_location 10000 0) with loc_Exact.
    assert (Q : exists q, Zpos q = Zpos m * 2 ^ e).
    { exists (Z.to_pos (Zpos m * 2 ^ e)). rewrite Z2Pos.id; lia. }
    destruct Q as [q Hq]. rewrite <- Hq.
    apply binary_round_aux_shift; try lia.
    rewrite Hq. f_equal. f_equal. lia.
  - replace (Z.min (Z.max (Zpos (digits2_pos P) + 0 - (14 + 0) - 53)
                      (3 - 1024 - 53)) (0 - 0)) with (-1) by lia.
    cbn [Z.sub Z.opp Z.add Z.pos_sub].
    rewrite Z.shiftl_mul_pow2 by lia. rewrite HP.
    replace (Zpos m * 2 ^ e * 10000 * 2 ^ 1)
      with (Zpos m * 2 ^ e * 2 * 10000) by lia.
    rewrite div_eucl_multiple.
    change (new_location 10000 0) with loc_Exact.
    assert (Q : exists q, Zpos q = Zpos m * 2 ^ e * 2).
    { exists (Z.to_pos (Zpos m * 2 ^ e * 2)). rewrite Z2Pos.id; lia. }
    destruct Q as [q Hq]. rewrite <- Hq.
    apply binary_round_aux_shift; try lia.
    rewrite Hq. replace (e - -1) with (Z.succ e) by lia.
    rewrite Z.pow_succ_r by lia. lia.
Qed.

(** The number that the decimal of a number without a binary digit after
    the point denotes is the number itself. *)
Lemma of_decimal_multiple (x : number) (s : bool) (m : positive) (e : Z) :
  Prim2SF x = S754_finite s m e -> 0 <= e ->
  with_sign s (of_decimal (Zpos m * 2 ^ e * 10000) (-4)) = x.
Proof.
  intros Hx He. destruct (integer_mantissa x s m e Hx He) as [Hd Hm].
  assert (P2 : 0 < 2 ^ e) by (apply Z.pow_pos_nonneg; lia).
  destruct (Zpos m * 2 ^ e * 10000) as [|P|P] eqn:HP; try lia.
  unfold of_decimal. change (0 <=? -4) with false. cbv iota.
  change (Z.to_pos (10 ^ (- (-4)))) with 10000%positive.
  rewrite (SFdiv_multiple false m P e) by lia.
  apply Prim2SF_inj. rewrite Hx.
  assert (V : SpecFloat.valid_binary prec emax (S754_finite false m e) = true).
  { pose proof (Prim2SF_valid x) as V. rewrite Hx in V. exact V. }
  destruct s; unfold with_sign.
  - rewrite opp_spec, Prim2SF_SF2Prim by exact V. reflexivity.
  - rewrite Prim2SF_SF2Prim by exact V. reflexivity.
Qed.

(** [Number(x.toFixed(4))] is [x] rounded to four decimal places. *)
Lemma Number_toFixed4_round4 (x : number) :
  Renderer.Number_toFixed4 x = Spec.round4 x.
Proof.
  unfold Renderer.Number_toFixed4, Spec.round4.
  destruct (Prim2SF x) as [z| | |s m e] eqn:Hx.
  - unfold Spec.valueOf. rewrite Hx. reflexivity.
  - unfold Spec.valueOf. rewrite Hx. reflexivity.
  - unfold Spec.valueOf. rewrite Hx. reflexivity.
  - destruct (valueOf_finite x s m e Hx) as (v & -> & Hn & Hs).
    change (QArith_base.inject_Z 0) with (QArith_base.Qmake 0 1) in Hs.
    rewrite Hn, Hs, negb_involutive.
    destruct (1e21 <=? abs x)%float eqn:B; [|reflexivity].
    pose proof (large_exponent x s m e Hx B) as He.
    unfold Renderer.fixed4.
    destruct (Z.leb_spec 0 e); [|lia].
    symmetry. now apply of_decimal_multiple.
Qed.

End FourDecimals.

(** *** C5: the round trip of the serialisation *)

Lemma kindLetter_tagged (r : range) :
  Spec.tagged r ->
  r_type r = Some (Spec.kindOfLetter (Renderer.kindLetter r))
  /\ (Renderer.kindLetter r = lit "o" \/ Renderer.kindLetter r = lit "b"
      \/ Renderer.kindLetter r = lit "k")
  /\ (r_type r = Renderer.kindObject -> Renderer.kindLetter r = lit "o")
  /\ (r_type r = Renderer.kindBreak -> Renderer.kindLetter r = lit "b")
  /\ (r_type r = Renderer.kindBookmark -> Renderer.kindLetter r = lit "k").
Proof.
  unfold Spec.tagged, Renderer.kindLetter, Renderer.typeIs.
  intros [H | [H | H]]; rewrite H; vm_compute; intuition congruence.
Qed.

Lemma roundtrip_range (r : range) :
  Spec.tagged r ->
  Renderer.deserializeHighlights (Renderer.serializeHighlights [r])
  = [Spec.rounded r].
Proof.
  intros Ht. destruct (kindLetter_tagged r Ht) as [Hk _].
  simpl. unfold Spec.rounded. fold (Spec.kindOfLetter (Renderer.kindLetter r)).
  rewrite <- Hk, !Number_toFixed4_round4. reflexivity.
Qed.

(** C5: for ranges tagged [object], [break] or [bookmark], deserialising
    the serialised list gives the list back with every start and end
    rounded to four decimal places, that is replaced by the number that
    the nearest multiple of 1/10000 denotes, and every tag unchanged; the
    tuples written hold the rounded start and end and the letter [o] for
    [object], [b] for [break] and [k] for [bookmark]. *)
Theorem serialize_deserialize_roundtrip (ranges : list range) :
  Forall Spec.tagged ranges ->
  Renderer.deserializeHighlights (Renderer.serializeHighlights ranges)
  = map Spec.rounded ranges
  /\ Forall2
       (fun r t =>
          fst (fst t) = Spec.round4 (r_start r)
          /\ snd (fst t) = Spec.round4 (r_end r)
          /\ (r_type r = Renderer.kindObject -> snd t = lit "o")
          /\ (r_type r = Renderer.kindBreak -> snd t = lit "b")
          /\ (r_type r = Renderer.kindBookmark -> snd t = lit "k"))
       ranges (Renderer.serializeHighlights ranges).
Proof.
  induction 1 as [|r rest Hr Hrest [IH1 IH2]].
  - split; [reflexivity | constructor].
  - split.
    + change (Renderer.deserializeHighlights
                (Renderer.serializeHighlights (r :: rest)))
        with (Renderer.deserializeHighlights (Renderer.serializeHighlights [r])
              ++ Renderer.deserializeHighlights
                   (Renderer.serializeHighlights rest)).
      rewrite roundtrip_range by assumption. rewrite IH1. reflexivity.
    + simpl. constructor; [|exact IH2].
      destruct (kindLetter_tagged r Hr) as (_ & _ & Ho & Hb & Hk).
      cbn [fst snd]. rewrite !Number_toFixed4_round4. auto.
Qed.

Lemma serialize_deserialize_roundtrip_witness :
  let ranges := [Range 0.12345%float 0.5%float Renderer.kindBreak;
                 Range 0.995%float 1.001%float Renderer.kindBookmark;
                 Range 0%float 0.25833333333333336%float Renderer.kindObject] in
  Forall Spec.tagged ranges
  /\ Renderer.deserializeHighlights (Renderer.serializeHighlights ranges)
     = map Spec.rounded ranges
  /\ map Spec.rounded ranges
     = [Range 0.1235%float 0.5%float Renderer.kindBreak;
        Range 0.995%float 1.001%float Renderer.kindBookmark;
        Range 0%float 0.2583%float Renderer.kindObject].
Proof.
  intros ranges.
  assert (H : Forall Spec.tagged ranges).
  { unfold ranges. repeat (constructor; [unfold Spec.tagged; simpl; auto|]).
    constructor. }
  split; [exact H|].
  split; [exact (proj1 (serialize_deserialize_roundtrip ranges H))|].
  vm_compute. reflexivity.
Defined.

(** *** Integers in the arrays of the worker *)

Section StoredIntegers.

Local Open Scope Z_scope.

Lemma is_nan_of_Z (z : Z) : Z.abs z < 2 ^ 53 -> is_nan (of_Z z) = false.
Proof.
  intros Hz. apply is_nan_Prim2SF. rewrite Prim2SF_of_Z by assumption.
  destruct z; discriminate.
Qed.

Lemma truncate_of_Z (z : Z) : Z.abs z < 2 ^ 53 -> truncate (of_Z z) = z.
Proof.
  intros Hz. unfold truncate. rewrite Prim2SF_of_Z by assumption.
  destruct z as [|p|p]; [reflexivity| |]; unfold Spec.normalSF;
    rewrite truncate_normal by (apply digits_small; lia); reflexivity.
Qed.

Lemma wrap_signed_32 (z : Z) :
  - 2 ^ 31 <= wrap_signed 32 z < 2 ^ 31
  /\ (- 2 ^ 31 <= z < 2 ^ 31 -> wrap_signed 32 z = z).
Proof.
  unfold wrap_signed.
  change (2 ^ 32) with 4294967296. change (2 ^ (32 - 1)) with 2147483648.
  change (2 ^ 31) with 2147483648.
  pose proof (Z.mod_pos_bound z 4294967296 ltac:(lia)) as B.
  pose proof (Z.div_mod z 4294967296 ltac:(lia)) as D.
  destruct (Z.ltb_spec (z mod 4294967296) 2147483648); split; lia.
Qed.

Lemma wrap_signed_16 (z : Z) : - 2 ^ 15 <= wrap_signed 16 z < 2 ^ 15.
Proof.
  unfold wrap_signed.
  change (2 ^ 16) with 65536. change (2 ^ (16 - 1)) with 32768.
  change (2 ^ 15) with 32768.
  pose proof (Z.mod_pos_bound z 65536 ltac:(lia)) as B.
  destruct (Z.ltb_spec (z mod 65536) 32768); lia.
Qed.

Lemma ToInt32_of_Z (z : Z) :
  - 2 ^ 31 <= z < 2 ^ 31 -> ToInt32 (of_Z z) = z.
Proof.
  intros Hz. unfold ToInt32.
  rewrite truncate_of_Z by (change (2 ^ 31) with 2147483648 in Hz;
                            change (2 ^ 53) with 9007199254740992; lia).
  apply wrap_signed_32. exact Hz.
Qed.

Lemma Math_max_of_Z (a b : Z) :
  Z.abs a < 2 ^ 53 -> Z.abs b < 2 ^ 53 ->
  Math_max (of_Z a) (of_Z b) = of_Z (Z.max a b).
Proof.
  intros Ha Hb. unfold Math_max.
  rewrite !is_nan_of_Z, !ltb_of_Z by assumption. simpl orb.
  destruct (Z.ltb_spec a b); [rewrite Z.max_r by lia; reflexivity|].
  destruct (Z.ltb_spec b a); [rewrite Z.max_l by lia; reflexivity|].
  assert (a = b) as -> by lia. rewrite Z.max_id.
  destruct (get_sign (of_Z b)); reflexivity.
Qed.

(** The raised end that the worker stores is the larger of the stored end
    and of the next start, when that start fits in 32 bits. *)
Lemma raised_end_in_range (x : number) (b : Z) :
  - 2 ^ 31 <= b < 2 ^ 31 ->
  ToInt32 (Math_max (of_Z (ToInt32 x)) (of_Z b)) = Z.max (ToInt32 x) b.
Proof.
  intros Hb. pose proof (wrap_signed_32 (truncate x)) as [Hx _].
  fold (ToInt32 x) in Hx.
  change (2 ^ 31) with 2147483648 in *.
  rewrite Math_max_of_Z by (change (2 ^ 53) with 9007199254740992; lia).
  apply ToInt32_of_Z. change (2 ^ 31) with 2147483648. lia.
Qed.

Lemma land_2_mod_4 (z : Z) : Z.land z 2 = Z.land (z mod 4) 2.
Proof.
  change 4 with (2 ^ 2). rewrite <- Z.land_ones by lia.
  rewrite <- Z.land_assoc. reflexivity.
Qed.

Lemma wrap_signed_land_2 (z : Z) :
  Z.land (wrap_signed 16 z) 2 = Z.land (wrap_signed 32 z) 2.
Proof.
  rewrite (land_2_mod_4 (wrap_signed 16 z)), (land_2_mod_4 (wrap_signed 32 z)).
  f_equal. unfold wrap_signed.
  change (2 ^ 32) with 4294967296. change (2 ^ (32 - 1)) with 2147483648.
  change (2 ^ 16) with 65536. change (2 ^ (16 - 1)) with 32768.
  destruct (z mod 65536 <? 32768), (z mod 4294967296 <? 2147483648);
    Z.to_euclidean_division_equations; lia.
Qed.

(** The slider bit of the type that the worker stores in 16 bits is the
    slider bit of the type. *)
Lemma slider_bit_stored (x : number) :
  has_bit (of_Z (ToInt16 x)) 2 = has_bit x 2.
Proof.
  unfold has_bit. f_equal. f_equal.
  pose proof (wrap_signed_16 (truncate x)) as H. fold (ToInt16 x) in H.
  change (2 ^ 15) with 32768 in H.
  rewrite ToInt32_of_Z by (change (2 ^ 31) with 2147483648; lia).
  apply wrap_signed_land_2.
Qed.

End StoredIntegers.

(** *** Lists updated at their last element *)

Lemma last_index {A : Type} (l : list A) (x : A) :
  (List.length (l ++ [x]) - 1)%nat = List.length l.
Proof. rewrite length_app. simpl. lia. Qed.

Lemma nth_error_snoc {A : Type} (l : list A) (x : A) :
  nth_error (l ++ [x]) (List.length l) = Some x.
Proof.
  induction l as [|y l IH]; simpl; [reflexivity | exact IH].
Qed.

Lemma update_snoc {A : Type} (l : list A) (x v : A) :
  update (l ++ [x]) (List.length l) v = l ++ [v].
Proof.
  induction l as [|y l IH]; simpl; [reflexivity | now rewrite IH].
Qed.

Lemma snoc_cases {A : Type} (l : list A) :
  l = [] \/ exists l' a, l = l' ++ [a].
Proof.
  destruct (rev l) as [|a r] eqn:E.
  - left. apply (f_equal (@rev A)) in E. rewrite rev_involutive in E.
    exact E.
  - right. exists (rev r), a.
    apply (f_equal (@rev A)) in E. rewrite rev_involutive in E.
    exact E.
Qed.

(** *** The gap fill, one object after the other *)

Section GapFill.

Context {O E : Type}.
Variable slider : O -> bool.
Variable endOf : O -> E.
Variable raise : E -> O -> E.

Lemma gapFill_snoc (l : list O) (a : O) :
  Spec.gapFill slider endOf raise (l ++ [a])
  = Spec.gapFillBefore slider endOf raise l a ++ [endOf a].
Proof.
  induction l as [|o rest IH]; simpl; [reflexivity|].
  rewrite IH. destruct rest; reflexivity.
Qed.

Lemma gapFillBefore_snoc (l : list O) (a b : O) :
  Spec.gapFillBefore slider endOf raise (l ++ [a]) b
  = Spec.gapFillBefore slider endOf raise l a
    ++ [if slider a then raise (endOf a) b else endOf a].
Proof.
  induction l as [|o rest IH]; simpl; [reflexivity|].
  rewrite IH. destruct rest; reflexivity.
Qed.

Lemma gapFill_length (l : list O) :
  List.length (Spec.gapFill slider endOf raise l) = List.length l.
Proof.
  induction l as [|o rest IH]; simpl; [reflexivity | now rewrite IH].
Qed.

Lemma gapFillBefore_length (l : list O) (a : O) :
  List.length (Spec.gapFillBefore slider endOf raise l a) = List.length l.
Proof.
  induction l as [|o rest IH]; simpl; [reflexivity | now rewrite IH].
Qed.

(** The end of the object at the index [i]: raised towards the object
    that follows, if there is one and the object is a slider. *)
Lemma gapFill_nth (l : list O) (i : nat) :
  nth_error (Spec.gapFill slider endOf raise l) i
  = match nth_error l i, nth_error l (S i) with
    | Some o, Some next =>
        Some (if slider o then raise (endOf o) next else endOf o)
    | Some o, None => Some (endOf o)
    | None, _ => None
    end.
Proof.
  revert i. induction l as [|o rest IH]; intros i.
  - destruct i; reflexivity.
  - destruct i as [|i].
    + simpl. destruct rest; reflexivity.
    + simpl nth_error at 1 2. rewrite IH. reflexivity.
Qed.

End GapFill.

(** *** C8: the gap fill of the renderer *)

Lemma pushHit_gapFill (objs : list Spec.rawHit) (o : Spec.rawHit) :
  Renderer.pushHit (Spec.rendererEnds objs) (map Spec.h_type objs)
    (Spec.h_time o) (Spec.h_endTime o) (Spec.h_type o)
  = (Spec.rendererEnds (objs ++ [o]), map Spec.h_type (objs ++ [o])).
Proof.
  unfold Renderer.pushHit. rewrite map_app. simpl map. f_equal.
  unfold Spec.rendererEnds.
  destruct (snoc_cases objs) as [->|(l & a & ->)]; [reflexivity|].
  rewrite gapFill_snoc, gapFill_snoc, gapFillBefore_snoc.
  rewrite map_app. simpl map.
  set (G := Spec.gapFillBefore _ _ _ l a).
  set (T := map Spec.h_type l).
  rewrite !last_index, !nth_error_snoc.
  rewrite length_app. simpl List.length.
  replace (0 <? List.length G + 1)%nat with true
    by (symmetry; apply Nat.ltb_lt; lia).
  destruct (has_bit (Spec.h_type a) 2); [|reflexivity].
  rewrite update_snoc. reflexivity.
Qed.

Lemma parseHitObjects_line_hits (st : Renderer.hitState) (line : str) :
  let st' := Renderer.parseHitObjects_line st line in
  match Spec.rendererHit st line with
  | Some o =>
      Renderer.hitStarts st' = Renderer.hitStarts st ++ [Spec.h_time o]
      /\ (Renderer.hitEnds st', Renderer.hitTypes st')
         = Renderer.pushHit (Renderer.hitEnds st) (Renderer.hitTypes st)
             (Spec.h_time o) (Spec.h_endTime o) (Spec.h_type o)
  | None =>
      Renderer.hitStarts st' = Renderer.hitStarts st
      /\ (Renderer.hitEnds st', Renderer.hitTypes st')
         = (Renderer.hitEnds st, Renderer.hitTypes st)
  end.
Proof.
  unfold Renderer.parseHitObjects_line, Spec.rendererHit.
  cbv zeta.
  destruct (Renderer.isEmpty (trim line) || startsWith (trim line) (lit "//"));
    [split; reflexivity|].
  destruct (Renderer.isHeader (trim line)); [split; reflexivity|].
  destruct (str_eqb (Renderer.section st) (lit "difficulty")).
  { destruct (negb (indexOf (trim line) 58 0 =? -1)%Z);
      [|split; reflexivity].
    destruct (str_eqb _ (lit "slidermultiplier")); split; reflexivity. }
  destruct (str_eqb (Renderer.section st) (lit "timingpoints")).
  { destruct (2 <=? List.length (split 44 (trim line)))%nat;
      split; reflexivity. }
  destruct (Renderer.inHitObjects st); [|split; reflexivity].
  destruct (List.length (split 44 (trim line)) <? 4)%nat;
    [split; reflexivity|].
  simpl Spec.h_time. simpl Spec.h_endTime. simpl Spec.h_type.
  destruct (Renderer.pushHit _ _ _ _ _) as [ends types].
  split; reflexivity.
Qed.

Lemma parseHitObjects_fold (lines : list str) (st : Renderer.hitState)
    (objs : list Spec.rawHit) :
  Renderer.hitStarts st = map Spec.h_time objs ->
  Renderer.hitEnds st = Spec.rendererEnds objs ->
  Renderer.hitTypes st = map Spec.h_type objs ->
  let st' := fold_left Renderer.parseHitObjects_line lines st in
  let objs' := objs ++ Spec.rendererHits lines st in
  Renderer.hitStarts st' = map Spec.h_time objs'
  /\ Renderer.hitEnds st' = Spec.rendererEnds objs'.
Proof.
  revert st objs. induction lines as [|line rest IH]; intros st objs Hs He Ht.
  - simpl. rewrite app_nil_r. auto.
  - simpl.
    pose proof (parseHitObjects_line_hits st line) as H. cbv zeta in H.
    destruct (Spec.rendererHit st line) as [o|]; destruct H as [Hs' Hp].
    + rewrite He, Ht, pushHit_gapFill in Hp. injection Hp as He' Ht'.
      rewrite Hs in Hs'.
      change [Spec.h_time o] with (map Spec.h_time [o]) in Hs'.
      rewrite <- map_app in Hs'.
      specialize (IH _ (objs ++ [o]) Hs' He' Ht'). cbv zeta in IH.
      rewrite <- app_assoc in IH. exact IH.
    + injection Hp as He' Ht'.
      apply IH; congruence.
Qed.

(** The renderer stores the start of every accepted hit object, and as
    its end [Math.max(time, endTime)], raised to the start of the next
    object when the object is a slider and another one follows. *)
Lemma parseHitObjects_gap_fill (content : str) :
  Renderer.parseHitObjects content
  = (map Spec.h_time (Spec.rendererHitObjects content),
     Spec.rendererEnds (Spec.rendererHitObjects content)).
Proof.
  unfold Renderer.parseHitObjects, Spec.rendererHitObjects.
  destruct (parseHitObjects_fold (split_lines content)
              Renderer.parseHitObjects_init [] eq_refl eq_refl eq_refl)
    as [Hs He].
  simpl in Hs, He. rewrite Hs, He. reflexivity.
Qed.

(** *** C8: the gap fill of the worker *)

Lemma update_length {A : Type} (l : list A) (i : nat) (v : A) :
  List.length (update l i v) = List.length l.
Proof.
  revert i. induction l as [|x l IH]; intros [|i]; simpl; auto.
Qed.

Lemma firstn_update_ge {A : Type} (l : list A) (n i : nat) (v : A) :
  (n <= i)%nat -> firstn n (update l i v) = firstn n l.
Proof.
  revert n i. induction l as [|x l IH]; intros n i H.
  - destruct i; reflexivity.
  - destruct n as [|n]; [reflexivity|].
    destruct i as [|i]; [lia|]. simpl. rewrite IH by lia. reflexivity.
Qed.

Lemma firstn_update_lt {A : Type} (l : list A) (n i : nat) (v : A) :
  (i < n)%nat -> firstn n (update l i v) = update (firstn n l) i v.
Proof.
  revert n i. induction l as [|x l IH]; intros n i H.
  - destruct i, n; reflexivity.
  - destruct n as [|n]; [lia|].
    destruct i as [|i]; [reflexivity|]. simpl. rewrite IH by lia. reflexivity.
Qed.

Lemma firstn_S_update {A : Type} (l : list A) (n : nat) (v : A) :
  (n < List.length l)%nat -> firstn (S n) (update l n v) = firstn n l ++ [v].
Proof.
  revert n. induction l as [|x l IH]; intros n H; simpl in H; [lia|].
  destruct n as [|n]; [reflexivity|].
  change (x :: firstn (S n) (update l n v) = x :: (firstn n l ++ [v])).
  f_equal. apply IH. lia.
Qed.

(** Storing at index [n] in an array that grows when it is full. *)
Lemma grow_store (X : list Z) (cap n : nat) (v : Z) :
  List.length X = cap -> (1 <= cap)%nat -> (n <= cap)%nat ->
  let X2 := if (cap <=? n)%nat then X ++ repeat 0%Z cap else X in
  firstn (S n) (update X2 n v) = firstn n X ++ [v]
  /\ List.length (update X2 n v)
     = (if (cap <=? n)%nat then cap + cap else cap)%nat.
Proof.
  intros HX Hc Hn X2. subst X2.
  destruct (Nat.leb_spec cap n) as [Hg|Hg].
  - split.
    + rewrite firstn_S_update by (rewrite length_app, repeat_length; lia).
      rewrite firstn_app. replace (n - List.length X)%nat with O by lia.
      simpl. rewrite app_nil_r. reflexivity.
    + rewrite update_length, length_app, repeat_length. lia.
  - split.
    + apply firstn_S_update. lia.
    + rewrite update_length. exact HX.
Qed.

Lemma holds_sameHits (st st' : Worker.scanState)
    (objs : list Worker.hitObject) :
  Spec.sameHits st st' -> Spec.holds st objs -> Spec.holds st' objs.
Proof.
  unfold Spec.sameHits, Spec.holds.
  intros (-> & -> & -> & ->). auto.
Qed.

Lemma storeHitObject_holds (st : Worker.scanState)
    (objs : list Worker.hitObject) (o : Worker.hitObject) :
  Spec.holds st objs -> Spec.holds (Worker.storeHitObject st o) (objs ++ [o]).
Proof.
  intros (Hn & Hc & Hle & HE & HT & FS & FE & FT).
  unfold Worker.storeHitObject.
  set (n := Worker.hitCount st) in *.
  set (cap := List.length (Worker.hitStartsArray st)) in *.
  set (ends1 := if (0 <? n)%nat then _ else _).
  assert (L1 : List.length ends1 = cap).
  { subst ends1. destruct (0 <? n)%nat; [|exact HE].
    destruct (Worker.readArray _ _); [|exact HE].
    destruct (has_bit _ _); [|exact HE].
    destruct (Worker.readArray _ _); [|exact HE].
    rewrite update_length. exact HE. }
  assert (F1 : firstn n ends1 ++ [ToInt32 (Worker.o_end o)]
               = Spec.workerEnds (objs ++ [o])).
  { subst ends1. unfold Spec.workerEnds in *.
    rewrite gapFill_snoc.
    destruct (snoc_cases objs) as [E|(l & a & E)]; subst objs.
    - simpl in Hn. rewrite Hn. reflexivity.
    - rewrite length_app in Hn. simpl in Hn.
      replace (0 <? n)%nat with true by (symmetry; apply Nat.ltb_lt; lia).
      replace (n - 1)%nat with (List.length l) by lia.
      rewrite gapFill_snoc in FE. rewrite gapFillBefore_snoc.
      set (G := Spec.gapFillBefore _ _ _ l a) in *.
      assert (LG : List.length G = List.length l)
        by apply gapFillBefore_length.
      unfold Worker.readArray.
      assert (NT : nth_error (Worker.hitTypesArray st) (List.length l)
                   = Some (ToInt16 (Worker.o_type a))).
      { pose proof (nth_error_firstn n (Worker.hitTypesArray st)
                      (List.length l)) as H.
        replace (List.length l <? n)%nat with true in H
          by (symmetry; apply Nat.ltb_lt; lia).
        rewrite <- H, FT, map_app.
        rewrite <- (length_map (fun o0 => ToInt16 (Worker.o_type o0)) l).
        apply nth_error_snoc. }
      assert (NE : nth_error (Worker.hitEndsArray st) (List.length l)
                   = Some (ToInt32 (Worker.o_end a))).
      { pose proof (nth_error_firstn n (Worker.hitEndsArray st)
                      (List.length l)) as H.
        replace (List.length l <? n)%nat with true in H
          by (symmetry; apply Nat.ltb_lt; lia).
        rewrite <- H, FE, <- LG. apply nth_error_snoc. }
      rewrite NT, NE. cbn [option_map]. rewrite slider_bit_stored.
      destruct (has_bit (Worker.o_type a) 2).
      + rewrite firstn_update_lt by lia. rewrite FE, <- LG, update_snoc.
        reflexivity.
      + rewrite FE. reflexivity. }
  destruct (grow_store (Worker.hitStartsArray st) cap n
              (ToInt32 (Worker.o_start o)) eq_refl Hc Hle) as [GS LS].
  destruct (grow_store ends1 cap n (ToInt32 (Worker.o_end o)) L1 Hc Hle)
    as [GE LE].
  destruct (grow_store (Worker.hitTypesArray st) cap n
              (ToInt16 (Worker.o_type o)) HT Hc Hle) as [GT LT].
  cbv zeta in GS, LS, GE, LE, GT, LT.
  unfold Spec.holds.
  cbn [Worker.set_hits Worker.hitCount Worker.hitStartsArray
       Worker.hitEndsArray Worker.hitTypesArray].
  fold n. fold cap. rewrite L1, HT.
  rewrite GS, GE, GT, LS, LE, LT, FS, FT, F1, !map_app, length_app.
  simpl. repeat split; try reflexivity; try lia.
  - destruct (cap <=? n)%nat; lia.
  - destruct (Nat.leb_spec cap n); lia.
Qed.

Lemma sameHits_refl (st : Worker.scanState) : Spec.sameHits st st.
Proof. repeat split. Qed.

Lemma sameHits_lineStart (st : Worker.scanState) (v : Z) :
  Spec.sameHits st (Worker.set_lineStart st v).
Proof. repeat split. Qed.

Lemma parseEventLine_sameHits (content : str) (start end_ : Z)
    (st : Worker.scanState) :
  Spec.sameHits st (Worker.parseEventLine content start end_ st).
Proof.
  unfold Worker.parseEventLine.
  destruct (codeIs content start 48 && (start + 1 <? end_)%Z
            && codeIs content (start + 1) 44).
  - destruct (Worker.backgroundField _ _ _ _ _ _) as [bgStart bgEnd].
    destruct (negb (bgStart =? -1)%Z); [|apply sameHits_refl].
    destruct (Worker.isImageExtension _); repeat split.
  - destruct (codeIs content start 50 && (start + 1 <? end_)%Z
              && codeIs content (start + 1) 44); [|apply sameHits_refl].
    destruct (Worker.breakStart _); [|apply sameHits_refl].
    match goal with
    | |- Spec.sameHits _ (match ?x with _ => _ end) => destruct x
    end; repeat split.
Qed.

(** A line of the scan adds the hit object that it holds, if any. *)
Lemma scanLine_holds (content : str) (i : Z) (st : Worker.scanState)
    (objs : list Worker.hitObject) :
  Spec.holds st objs ->
  Spec.holds (Worker.scanLine content i st)
    (objs ++ match Spec.workerHit content i st with
             | Some o => [o]
             | None => []
             end).
Proof.
  intros H. unfold Worker.scanLine, Spec.workerHit. cbv zeta.
  set (ls := Worker.skipUp _ _ _ _).
  set (le := Worker.skipDown _ _ _ _).
  destruct (le - ls =? 0)%Z.
  { rewrite app_nil_r.
    exact (holds_sameHits _ _ _ (sameHits_lineStart _ _) H). }
  destruct ((2 <=? le - ls)%Z && codeIs content ls 47
            && codeIs content (ls + 1) 47).
  { rewrite app_nil_r.
    exact (holds_sameHits _ _ _ (sameHits_lineStart _ _) H). }
  destruct (codeIs content ls 91 && codeIs content (le - 1) 93).
  { rewrite app_nil_r.
    refine (holds_sameHits _ _ _ (sameHits_lineStart _ _) _).
    refine (holds_sameHits st _ _ _ H). repeat split. }
  refine (holds_sameHits _ _ _ (sameHits_lineStart _ _) _).
  unfold Worker.dispatchLine.
  destruct (Worker.section st); try (rewrite app_nil_r; exact H).
  - rewrite app_nil_r.
    destruct (Worker.parseSliderMultiplier _ _ _); exact H.
  - rewrite app_nil_r.
    exact (holds_sameHits _ _ _ (parseEventLine_sameHits _ _ _ _) H).
  - rewrite app_nil_r.
    destruct (Worker.parseTimingPoint _ _ _); exact H.
  - destruct (Worker.parseHitObject _ _ _ _ _) as [o|].
    + apply storeHitObject_holds. exact H.
    + rewrite app_nil_r. exact H.
Qed.

Lemma scan_holds (content : str) (fuel : nat) (i : Z)
    (st : Worker.scanState) (objs : list Worker.hitObject) :
  Spec.holds st objs ->
  Spec.holds (Worker.scan fuel content i st)
    (objs ++ Spec.workerHits fuel content i st).
Proof.
  revert i st objs. induction fuel as [|fuel IH]; intros i st objs H.
  - simpl. rewrite app_nil_r. exact H.
  - simpl.
    destruct (i <=? len content)%Z; [|rewrite app_nil_r; exact H].
    destruct ((if (i <? len content)%Z then codeIs content i 10 else true)
              || (if (i <? len content)%Z then codeIs content i 13 else false)
              || (i =? len content)%Z); [|apply IH; exact H].
    set (i' := if (if (i <? len content)%Z then codeIs content i 13
                   else false)
                  && (i + 1 <? len content)%Z && codeIs content (i + 1) 10
               then (i + 1)%Z else i).
    pose proof (scanLine_holds content i' st objs H) as H'.
    destruct (Spec.workerHit content i' st) as [o|].
    + apply (IH (i' + 1)%Z) in H'. rewrite <- app_assoc in H'. exact H'.
    + rewrite app_nil_r in H'. apply IH. exact H'.
Qed.

Lemma initialState_holds (content : str) :
  Spec.holds (Worker.initialState content) [].
Proof.
  unfold Spec.holds, Worker.initialState. simpl.
  rewrite !repeat_length. repeat split; lia.
Qed.

(** The worker stores the start and the end of every accepted hit object
    through 32-bit elements, the end being raised to the start of the next
    object when the stored type has the slider bit and another object
    follows. *)
Lemma parseOsuFile_gap_fill (content : str) :
  Worker.p_hitStarts (Worker.parseOsuFile content)
  = map (fun o => ToInt32 (Worker.o_start o)) (Spec.workerHitObjects content)
  /\ Worker.p_hitEnds (Worker.parseOsuFile content)
     = Spec.workerEnds (Spec.workerHitObjects content).
Proof.
  unfold Worker.parseOsuFile, Spec.workerHitObjects. simpl.
  pose proof (scan_holds content (S (List.length content)) 0 _ []
                (initialState_holds content)) as H.
  simpl app in H.
  destruct H as (_ & _ & _ & _ & _ & FS & FE & _). auto.
Qed.

(** C8, as it holds.  In both parsers the starts of the accepted hit
    objects are stored in file order, and the final end of the object at
    an index [i] is its computed end, raised to the start of the object
    that follows when there is one and the object has the slider bit; the
    end of an object without a successor or without the slider bit is not
    raised.  In the renderer the raised end is
    [Math.max(computed end, next start)].  In the worker every stored value
    is reduced to a signed 32-bit integer, the raised end being
    [Math.max(stored end, next start)] so reduced: it is the larger of the
    stored end and of the next start whenever that start fits in 32
    bits. *)
Theorem gap_fill_rule (content : str) (i : nat)
    (o next : Worker.hitObject) (b : Z) :
  let hits := Spec.rendererHitObjects content in
  let objects := Spec.workerHitObjects content in
  let parsed := Worker.parseOsuFile content in
  Renderer.parseHitObjects content
  = (map Spec.h_time hits, Spec.rendererEnds hits)
  /\ (forall i,
        nth_error (Spec.rendererEnds hits) i
        = match nth_error hits i, nth_error hits (S i) with
          | Some o, Some next =>
              Some (if has_bit (Spec.h_type o) 2
                    then Math_max (Spec.rendererEnd o) (Spec.h_time next)
                    else Spec.rendererEnd o)
          | Some o, None => Some (Spec.rendererEnd o)
          | None, _ => None
          end)
  /\ Worker.p_hitStarts parsed
     = map (fun o => ToInt32 (Worker.o_start o)) objects
  /\ Worker.p_hitEnds parsed = Spec.workerEnds objects
  /\ (forall i,
        nth_error (Spec.workerEnds objects) i
        = match nth_error objects i, nth_error objects (S i) with
          | Some o, Some next =>
              Some (if has_bit (Worker.o_type o) 2
                    then ToInt32 (Math_max (of_Z (ToInt32 (Worker.o_end o)))
                                    (Worker.o_start next))
                    else ToInt32 (Worker.o_end o))
          | Some o, None => Some (ToInt32 (Worker.o_end o))
          | None, _ => None
          end)
  /\ (nth_error objects i = Some o ->
      nth_error objects (S i) = Some next ->
      has_bit (Worker.o_type o) 2 = true ->
      Worker.o_start next = of_Z b ->
      (- 2 ^ 31 <= b < 2 ^ 31)%Z ->
      nth_error (Worker.p_hitStarts parsed) (S i) = Some b
      /\ nth_error (Worker.p_hitEnds parsed) i
         = Some (Z.max (ToInt32 (Worker.o_end o)) b)).
Proof.
  intros hits objects parsed.
  destruct (parseOsuFile_gap_fill content) as [HS HE].
  fold objects parsed in HS, HE.
  assert (HN : forall j,
             nth_error (Spec.workerEnds objects) j
             = match nth_error objects j, nth_error objects (S j) with
               | Some o, Some next =>
                   Some (if has_bit (Worker.o_type o) 2
                         then ToInt32
                                (Math_max (of_Z (ToInt32 (Worker.o_end o)))
                                   (Worker.o_start next))
                         else ToInt32 (Worker.o_end o))
               | Some o, None => Some (ToInt32 (Worker.o_end o))
               | None, _ => None
               end)
    by (intros j; unfold Spec.workerEnds; apply gapFill_nth).
  split; [apply parseHitObjects_gap_fill|].
  split; [intros j; unfold Spec.rendererEnds; apply gapFill_nth|].
  split; [exact HS|]. split; [exact HE|]. split; [exact HN|].
  intros Ho Hnext Hbit Hb Hr. split.
  - rewrite HS, nth_error_map, Hnext. simpl. rewrite Hb.
    f_equal. apply ToInt32_of_Z. exact Hr.
  - rewrite HE, HN, Ho, Hnext, Hbit, Hb. f_equal.
    apply raised_end_in_range. exact Hr.
Qed.

Lemma gap_fill_rule_witness :
  let content := Spec.nearbyFile in
  let o := Worker.HitObject 0%float 0%float 2%float in
  let next := Worker.HitObject 1500%float 1500%float 1%float in
  (nth_error (Spec.workerHitObjects content) 0 = Some o
   /\ nth_error (Spec.workerHitObjects content) 1 = Some next
   /\ has_bit (Worker.o_type o) 2 = true
   /\ Worker.o_start next = of_Z 1500
   /\ (- 2 ^ 31 <= 1500 < 2 ^ 31)%Z)
  /\ nth_error (Worker.p_hitStarts (Worker.parseOsuFile content)) 1
     = Some 1500%Z
  /\ nth_error (Worker.p_hitEnds (Worker.parseOsuFile content)) 0
     = Some (Z.max (ToInt32 (Worker.o_end o)) 1500).
Proof.
  intros content o next.
  assert (H1 : nth_error (Spec.workerHitObjects content) 0 = Some o)
    by (vm_compute; reflexivity).
  assert (H2 : nth_error (Spec.workerHitObjects content) 1 = Some next)
    by (vm_compute; reflexivity).
  assert (H3 : has_bit (Worker.o_type o) 2 = true) by reflexivity.
  assert (H4 : Worker.o_start next = of_Z 1500) by reflexivity.
  assert (H5 : (- 2 ^ 31 <= 1500 < 2 ^ 31)%Z) by (simpl; lia).
  split; [auto|].
  exact (proj2 (proj2 (proj2 (proj2 (proj2
           (gap_fill_rule content 0 o next 1500)))))
           H1 H2 H3 H4 H5).
Defined.

(** C8 as it was stated fails in the worker: a slider at 0 ms followed by
    an object at 3000000000 ms has its end raised to 3000000000, which the
    32-bit array stores as -1294967296. *)
Lemma gap_fill_wraps_around :
  exists o next stored,
    nth_error (Spec.workerHitObjects Spec.farApartFile) 0 = Some o
    /\ nth_error (Spec.workerHitObjects Spec.farApartFile) 1 = Some next
    /\ has_bit (Worker.o_type o) 2 = true
    /\ nth_error (Worker.p_hitEnds (Worker.parseOsuFile Spec.farApartFile)) 0
       = Some stored
    /\ Math_max (Worker.o_end o) (Worker.o_start next) = 3000000000%float
    /\ stored = (-1294967296)%Z
    /\ (of_Z stored =? Math_max (Worker.o_end o) (Worker.o_start next))%float
       = false.
Proof.
  exists (Worker.HitObject 0%float 0%float 2%float),
         (Worker.HitObject 3000000000%float 3000000000%float 1%float),
         (-1294967296)%Z.
  repeat split; vm_compute; reflexivity.
Qed.

(** *** C9: an end before the start *)

(** In the renderer the end of every accepted hit object that is a number
    is its start or more: only [NaN] escapes the two [Math.max] guards and
    the gap fill. *)
Lemma parseHitObjects_end_after_start (content : str) (i : nat)
    (start end_ : number) :
  nth_error (fst (Renderer.parseHitObjects content)) i = Some start ->
  nth_error (snd (Renderer.parseHitObjects content)) i = Some end_ ->
  is_nan end_ = false ->
  (start <=? end_)%float = true.
Proof.
  rewrite parseHitObjects_gap_fill. cbn [fst snd].
  unfold Spec.rendererEnds. rewrite gapFill_nth, nth_error_map.
  destruct (nth_error (Spec.rendererHitObjects content) i) as [o|];
    [|discriminate].
  intros Hs He Hn. injection Hs as <-.
  assert (Base : forall e, is_nan e = false -> e = Spec.rendererEnd o ->
                           (Spec.h_time o <=? e)%float = true).
  { intros e Ne ->. apply Math_max_lower_l. exact Ne. }
  destruct (nth_error (Spec.rendererHitObjects content) (S i)) as [next|].
  - destruct (has_bit (Spec.h_type o) 2); injection He as <-.
    + destruct (Math_max_nan _ _ Hn) as [Ne _].
      apply (leb_trans _ (Spec.rendererEnd o)).
      * apply Base; [exact Ne | reflexivity].
      * apply Math_max_lower_l. exact Hn.
    + apply Base; [exact Hn | reflexivity].
  - injection He as <-. apply Base; [exact Hn | reflexivity].
Qed.

(** The end of an object that [parseHitObject] returns is
    [Math.max(start, endTime)]. *)
Lemma parseHitObject_end (content : str) (lineStart lineEnd : Z)
    (sm : number) (tps : list timingPoint) (o : Worker.hitObject) :
  Worker.parseHitObject content lineStart lineEnd sm tps = Some o ->
  exists endTime, Worker.o_end o = Math_max (Worker.o_start o) endTime.
Proof.
  unfold Worker.parseHitObject.
  destruct (List.length _ <? 4)%nat; [discriminate|].
  intros H. injection H as <-. eexists. reflexivity.
Qed.

Lemma workerHit_end (content : str) (i : Z) (st : Worker.scanState)
    (o : Worker.hitObject) :
  Spec.workerHit content i st = Some o ->
  exists endTime, Worker.o_end o = Math_max (Worker.o_start o) endTime.
Proof.
  unfold Spec.workerHit. cbv zeta.
  destruct (_ =? 0)%Z; [discriminate|].
  destruct (_ && _ && _); [discriminate|].
  destruct (_ && _); [discriminate|].
  destruct (Worker.section st); try discriminate.
  apply parseHitObject_end.
Qed.

Lemma workerHits_end (fuel : nat) (content : str) (i : Z)
    (st : Worker.scanState) :
  Forall (fun o => exists endTime,
            Worker.o_end o = Math_max (Worker.o_start o) endTime)
    (Spec.workerHits fuel content i st).
Proof.
  revert i st. induction fuel as [|fuel IH]; intros i st; simpl.
  - constructor.
  - destruct (i <=? len content)%Z; [|constructor].
    destruct (_ || _ || _); [|apply IH].
    match goal with
    | |- context [Spec.workerHit content ?j st] =>
        destruct (Spec.workerHit content j st) as [o|] eqn:E
    end; [|apply IH].
    constructor; [|apply IH].
    apply (workerHit_end _ _ _ _ E).
Qed.

(** In the worker the stored end of an accepted hit object is its stored
    start or more when its start and its end, and the start of the object
    that follows, are integers that fit in 32 bits. *)
Lemma parseOsuFile_end_after_start (content : str) (i : nat)
    (o : Worker.hitObject) (a b : Z) :
  nth_error (Spec.workerHitObjects content) i = Some o ->
  Worker.o_start o = of_Z a -> Worker.o_end o = of_Z b ->
  (- 2 ^ 31 <= a < 2 ^ 31)%Z -> (- 2 ^ 31 <= b < 2 ^ 31)%Z ->
  match nth_error (Spec.workerHitObjects content) (S i) with
  | Some next =>
      exists c, Worker.o_start next = of_Z c /\ (- 2 ^ 31 <= c < 2 ^ 31)%Z
  | None => True
  end ->
  exists start end_,
    nth_error (Worker.p_hitStarts (Worker.parseOsuFile content)) i = Some start
    /\ nth_error (Worker.p_hitEnds (Worker.parseOsuFile content)) i = Some end_
    /\ (start <= end_)%Z.
Proof.
  intros Ho Ha Hb Ra Rb Hnext.
  destruct (parseOsuFile_gap_fill content) as [HS HE].
  rewrite HS, HE. unfold Spec.workerEnds.
  rewrite gapFill_nth, nth_error_map, Ho. cbn [option_map].
  assert (Hab : (a <= b)%Z).
  { pose proof (workerHits_end (S (List.length content)) content 0
                  (Worker.initialState content)) as F.
    rewrite Forall_forall in F.
    destruct (F o (nth_error_In _ _ Ho)) as [e He].
    assert (N : is_nan (Math_max (Worker.o_start o) e) = false).
    { rewrite <- He, Hb. apply is_nan_of_Z.
      change (2 ^ 31)%Z with 2147483648%Z in Rb.
      change (2 ^ 53)%Z with 9007199254740992%Z. lia. }
    pose proof (Math_max_lower_l _ _ N) as L.
    rewrite <- He, Ha, Hb in L.
    change (2 ^ 31)%Z with 2147483648%Z in Ra, Rb.
    rewrite leb_of_Z in L
      by (change (2 ^ 53)%Z with 9007199254740992%Z; lia).
    apply Z.leb_le. exact L. }
  rewrite Ha, Hb.
  destruct (nth_error (Spec.workerHitObjects content) (S i)) as [next|].
  - destruct Hnext as (c & Hc & Rc).
    destruct (has_bit (Worker.o_type o) 2).
    + rewrite Hc, raised_end_in_range by assumption.
      rewrite !ToInt32_of_Z by assumption.
      exists a, (Z.max b c). repeat split. lia.
    + rewrite !ToInt32_of_Z by assumption.
      exists a, b. repeat split. exact Hab.
  - rewrite !ToInt32_of_Z by assumption.
    exists a, b. repeat split. exact Hab.
Qed.

(** C9 fails when the beat length of a timing point is not a number: the
    duration of the slider is [NaN], which [Math.max(0, _)] and
    [Math.max(time, _)] let through.  The renderer stores [NaN] as the end
    of the slider that starts at 1000 ms, and the worker stores 0. *)
Theorem end_before_start :
  Renderer.parseHitObjects Spec.badBeatLengthFile = ([1000%float], [nan])
  /\ Worker.p_hitStarts (Worker.parseOsuFile Spec.badBeatLengthFile)
     = [1000%Z]
  /\ Worker.p_hitEnds (Worker.parseOsuFile Spec.badBeatLengthFile) = [0%Z]
  /\ (1000 <=? nan)%float = false
  /\ (1000 <=? 0)%Z = false.
Proof.
  repeat split; vm_compute; reflexivity.
Qed.

(** *** C6 and C3: break periods *)

(** In the Events section the renderer records a line whose first part is
    [2] or the word [break], and whose second and third parts parse to
    finite numbers, when and only when the end is after the start. *)
Lemma parseBreakPeriods_line_records (breaks : list breakPeriod) (line : str) :
  let trimmed := trim line in
  let parts := map trim (split 44 trimmed) in
  let startTime := parseInt (Renderer.part parts 1) 10 in
  let endTime := parseInt (Renderer.part parts 2) 10 in
  Renderer.isEmpty trimmed = false ->
  Renderer.isHeader trimmed = false ->
  startsWith trimmed (lit "//") = false ->
  (3 <= List.length parts)%nat ->
  Renderer.part parts 0 = lit "2"
  \/ toLowerCase (Renderer.part parts 0) = lit "break" ->
  isFinite startTime = true -> isFinite endTime = true ->
  Renderer.parseBreakPeriods_line (true, breaks) line
  = (true,
     if (startTime <? endTime)%float
     then breaks ++ [BreakPeriod startTime endTime] else breaks).
Proof.
  intros trimmed parts startTime endTime He Hh Hc Hl Ht Fs Fe.
  unfold Renderer.parseBreakPeriods_line.
  fold trimmed. rewrite He, Hh, Hc. simpl negb. simpl orb.
  fold parts.
  replace (List.length parts <? 3)%nat with false
    by (symmetry; apply Nat.ltb_ge; exact Hl).
  assert (Tok : negb (str_eqb (Renderer.part parts 0) (lit "2"))
                && negb (str_eqb (toLowerCase (Renderer.part parts 0))
                           (lit "break")) = false).
  { destruct Ht as [Ht|Ht]; apply (proj2 (str_eqb_eq _ _)) in Ht;
      rewrite Ht; simpl; [reflexivity | apply andb_false_r]. }
  rewrite Tok. fold startTime. fold endTime. rewrite Fs, Fe. simpl andb.
  destruct (startTime <? endTime)%float; reflexivity.
Qed.

(** C6 fails in the worker: in the Events section it records the line
    [2,100,50], whose end is not after its start, and does not record the
    line [break,100,200]; the renderer drops the first and records the
    second. *)
Theorem worker_records_inverted_break :
  Worker.p_breakPeriods (Worker.parseOsuFile Spec.invertedBreakFile)
  = [BreakPeriod 100%float 50%float]
  /\ Renderer.parseBreakPeriods Spec.invertedBreakFile = []
  /\ Worker.p_breakPeriods (Worker.parseOsuFile Spec.wordBreakFile) = []
  /\ Renderer.parseBreakPeriods Spec.wordBreakFile
     = [BreakPeriod 100%float 200%float].
Proof.
  repeat split; vm_compute; reflexivity.
Qed.

(** C3 fails: on a file whose Events section holds the line [2,100,50] the
    break periods of [parseOsuFile] are not those of [parseBreakPeriods];
    on a file with a timing point whose beat length is not a number, the
    ends of the hit objects differ as well. *)
Theorem parsers_disagree :
  Worker.p_breakPeriods (Worker.parseOsuFile Spec.invertedBreakFile)
  <> Renderer.parseBreakPeriods Spec.invertedBreakFile
  /\ map of_Z (Worker.p_hitEnds (Worker.parseOsuFile Spec.badBeatLengthFile))
     <> snd (Renderer.parseHitObjects Spec.badBeatLengthFile).
Proof.
  split; vm_compute; discriminate.
Qed.

(** *** C7: the background image *)

Lemma find_last_spec (c : Z) (s : str) (i found : Z) :
  (~ In c s -> find_last c s i found = found)
  /\ (In c s ->
      exists pre post, s = pre ++ c :: post /\ ~ In c post
        /\ find_last c s i found = (i + len pre)%Z).
Proof.
  revert i found. induction s as [|x r IH]; intros i found.
  - split; [reflexivity | intros []].
  - simpl. destruct (Z.eqb_spec x c) as [->|Hx].
    + split; [intros H; exfalso; apply H; now left|]. intros _.
      destruct (in_dec Z.eq_dec c r) as [Hin|Hout].
      * destruct (proj2 (IH (i + 1)%Z i) Hin) as (pre & post & -> & Hp & E).
        exists (c :: pre), post. repeat split; auto.
        rewrite E. unfold len. simpl List.length. lia.
      * exists [], r. repeat split; auto.
        rewrite (proj1 (IH (i + 1)%Z i) Hout). unfold len. simpl. lia.
    + split.
      * intros H. apply IH. intros Hin. apply H. now right.
      * intros [Hc|Hin]; [congruence|].
        destruct (proj2 (IH (i + 1)%Z found) Hin) as (pre & post & -> & Hp & E).
        exists (x :: pre), post. repeat split; auto.
        rewrite E. unfold len. simpl List.length. lia.
Qed.

Lemma slice_from_app (pre post : str) (c : Z) :
  slice_from (pre ++ c :: post) (len pre + 1) = post.
Proof.
  unfold slice_from, slice, len.
  rewrite length_app. simpl List.length.
  destruct (Z.ltb_spec (Z.of_nat (List.length pre) + 1) 0); [lia|].
  destruct (Z.ltb_spec (Z.of_nat (List.length pre + S (List.length post))) 0);
    [lia|].
  rewrite Z.min_id. rewrite !Z.min_l by lia.
  replace (Z.to_nat (Z.of_nat (List.length pre) + 1))
    with (List.length pre + 1)%nat by lia.
  replace (pre ++ c :: post) with ((pre ++ [c]) ++ post)
    by (rewrite <- app_assoc; reflexivity).
  rewrite skipn_app.
  replace (List.length pre + 1 - List.length (pre ++ [c]))%nat with O
    by (rewrite length_app; simpl; lia).
  rewrite skipn_all2 by (rewrite length_app; simpl; lia).
  simpl. apply firstn_all2. lia.
Qed.

(** The worker accepts a file name as an image when it has a last dot and
    what follows the dot is, in lower case, one of the six extensions. *)
Lemma isImageExtension_spec (filename : str) :
  Worker.isImageExtension filename = true <->
  exists name ext,
    filename = name ++ 46%Z :: ext /\ ~ In 46%Z ext
    /\ In (toLowerCase ext) Spec.imageExtensions.
Proof.
  unfold Worker.isImageExtension, lastIndexOf.
  destruct (find_last_spec 46 filename 0 (-1)) as [Hno Hyes].
  destruct (in_dec Z.eq_dec 46%Z filename) as [Hin|Hout].
  - destruct (Hyes Hin) as (pre & post & E & Hp & F).
    rewrite F. destruct (Z.eqb_spec (0 + len pre) (-1)) as [Hm|_];
      [unfold len in Hm; lia|].
    rewrite E. replace (0 + len pre + 1)%Z with (len pre + 1)%Z by lia.
    rewrite slice_from_app. split.
    + intros H. exists pre, post. repeat split; auto.
      unfold Spec.imageExtensions. simpl.
      repeat (apply orb_prop in H; destruct H as [H|H]);
        apply str_eqb_eq in H; rewrite H; auto 10.
    + intros (name & ext & E' & Hd & Hl).
      assert (ext = post) as ->.
      { clear - E' Hd Hp. revert name E'.
        induction pre as [|x pre IH]; intros name E'.
        - destruct name as [|y name]; simpl in E'.
          + congruence.
          + injection E' as E1 E2. exfalso. apply Hp. rewrite E2.
            apply in_or_app. right. left. reflexivity.
        - destruct name as [|y name]; simpl in E'.
          + injection E' as E1 E2. exfalso. apply Hd. rewrite <- E2.
            apply in_or_app. right. left. reflexivity.
          + injection E' as _ E'. apply (IH name E'). }
      unfold Spec.imageExtensions in Hl. simpl in Hl.
      repeat (destruct Hl as [Hl|Hl]; [rewrite <- Hl; reflexivity|]).
      contradiction.
  - rewrite (Hno Hout). simpl. split; [discriminate|].
    intros (name & ext & E & _). exfalso. apply Hout. rewrite E.
    apply in_or_app. right. now left.
Qed.

Section BackgroundLines.

Local Open Scope Z_scope.

(** **** The extension *)





(** **** The quotes and blanks around the field *)





(** **** The third field *)





End BackgroundLines.



(** [parseBackgroundFilename], a function of the renderer that nothing
    calls, does not accept a background in the WebP format, which the
    worker accepts. *)
Lemma parseBackgroundFilename_without_webp :
  Renderer.parseBackgroundFilename Spec.webpBackgroundFile = []
  /\ Worker.p_background (Worker.parseOsuFile Spec.webpBackgroundFile)
     = lit "bg.webp"
  /\ Worker.isImageExtension (lit "bg.webp") = true
  /\ Renderer.imagePattern (lit "bg.webp") = false.
Proof.
  repeat split; vm_compute; reflexivity.
Qed.

(** ** Further properties of the code *)

(** *** The To-do and Completed lists *)

Lemma includes_In (ids : list str) (itemId : str) :
  App.includes ids itemId = true <-> In itemId ids.
Proof.
  unfold App.includes. rewrite existsb_exists. split.
  - intros (x & Hx & E). apply str_eqb_eq in E. congruence.
  - intros H. exists itemId. split; [assumption|].
    unfold str_eqb. destruct (list_eq_dec Z.eq_dec itemId itemId); congruence.
Qed.

Lemma str_eqb_refl (a : str) : str_eqb a a = true.
Proof.
  unfold str_eqb. destruct (list_eq_dec Z.eq_dec a a); congruence.
Qed.

Lemma str_eqb_false (a b : str) : a <> b -> str_eqb a b = false.
Proof.
  intros H. unfold str_eqb. destruct (list_eq_dec Z.eq_dec a b); congruence.
Qed.

Lemma includes_app (ids more : list str) (itemId : str) :
  App.includes (ids ++ more) itemId
  = App.includes ids itemId || App.includes more itemId.
Proof. apply existsb_app. Qed.

Lemma includes_without_same (ids : list str) (itemId : str) :
  App.includes (App.without ids itemId) itemId = false.
Proof.
  destruct (App.includes (App.without ids itemId) itemId) eqn:E;
    [|reflexivity].
  apply includes_In in E. unfold App.without in E.
  apply filter_In in E. destruct E as [_ E].
  rewrite str_eqb_refl in E. discriminate.
Qed.

Lemma includes_without_other (ids : list str) (itemId other : str) :
  other <> itemId ->
  App.includes (App.without ids itemId) other = App.includes ids other.
Proof.
  intros Hne. induction ids as [|x rest IH]; [reflexivity|].
  unfold App.without, App.includes in *. simpl.
  destruct (str_eqb x itemId) eqn:E; simpl.
  - apply str_eqb_eq in E. subst x.
    rewrite (str_eqb_false itemId other) by congruence. exact IH.
  - rewrite IH. reflexivity.
Qed.

Lemma without_absent (ids : list str) (itemId : str) :
  App.includes ids itemId = false -> App.without ids itemId = ids.
Proof.
  intros H. induction ids as [|x rest IH]; [reflexivity|].
  unfold App.includes in H. simpl in H. apply orb_false_elim in H.
  destruct H as [Hx Hr]. unfold App.without. simpl. rewrite Hx. simpl.
  f_equal. apply IH. exact Hr.
Qed.

Lemma NoDup_without (ids : list str) (itemId : str) :
  NoDup ids -> NoDup (App.without ids itemId).
Proof. apply NoDup_filter. Qed.

Lemma NoDup_snoc (ids : list str) (itemId : str) :
  NoDup ids -> ~ In itemId ids -> NoDup (ids ++ [itemId]).
Proof.
  intros Hn Hi. induction Hn as [|x l Hx Hl IH]; simpl.
  - constructor; [intros [] | constructor].
  - constructor.
    + rewrite in_app_iff. intros [H|[H|[]]]; [contradiction|].
      apply Hi. left. symmetry. exact H.
    + apply IH. intros H. apply Hi. right. exact H.
Qed.

(** X1: [toggleDone] moves an item between the two lists.  After the call
    the item is on the Completed list when and only when it was not there
    before, and it is on the To-do list when and only when it was on the
    Completed list before: an item just marked done is off the To-do list,
    an item just unmarked is on it.  No other id enters or leaves either
    list. *)
Theorem toggleDone_moves (st : App.lists) (itemId : str) :
  let st' := App.toggleDone st itemId in
  App.includes (App.doneIds st') itemId
  = negb (App.includes (App.doneIds st) itemId)
  /\ App.includes (App.todoIds st') itemId
     = App.includes (App.doneIds st) itemId
  /\ forall other, other <> itemId ->
       App.includes (App.todoIds st') other
       = App.includes (App.todoIds st) other
       /\ App.includes (App.doneIds st') other
          = App.includes (App.doneIds st) other.
Proof.
  unfold App.toggleDone.
  destruct (App.includes (App.doneIds st) itemId) eqn:D.
  - destruct (App.includes (App.todoIds st) itemId) eqn:T; simpl.
    + split; [apply includes_without_same|].
      split; [exact T|]. intros other Hne.
      split; [reflexivity | now apply includes_without_other].
    + split; [apply includes_without_same|].
      split.
      * unfold App.includes. simpl. rewrite str_eqb_refl. reflexivity.
      * intros other Hne. split; [|now apply includes_without_other].
        unfold App.includes. simpl.
        rewrite (str_eqb_false itemId other) by congruence. reflexivity.
  - simpl. split.
    + rewrite includes_app, D. unfold App.includes. simpl.
      rewrite str_eqb_refl. reflexivity.
    + split; [apply includes_without_same|]. intros other Hne.
      split; [now apply includes_without_other|].
      rewrite includes_app. unfold App.includes at 2. simpl.
      rewrite (str_eqb_false itemId other) by congruence.
      rewrite !orb_false_r. reflexivity.
Qed.

(** X2: the two lists stay free of duplicates: if no id occurs twice on
    the To-do list or on the Completed list, none does after [toggleTodo]
    or after [toggleDone]. *)
Theorem toggles_keep_ids_unique (st : App.lists) (itemId : str) :
  NoDup (App.todoIds st) -> NoDup (App.doneIds st) ->
  (NoDup (App.todoIds (App.toggleTodo st itemId))
   /\ NoDup (App.doneIds (App.toggleTodo st itemId)))
  /\ (NoDup (App.todoIds (App.toggleDone st itemId))
      /\ NoDup (App.doneIds (App.toggleDone st itemId))).
Proof.
  intros HT HD. split.
  - unfold App.toggleTodo.
    destruct (App.includes (App.todoIds st) itemId) eqn:T; simpl.
    + split; [now apply NoDup_without | assumption].
    + split; [|assumption]. apply NoDup_snoc; [assumption|].
      intros H. apply includes_In in H. congruence.
  - unfold App.toggleDone.
    destruct (App.includes (App.doneIds st) itemId) eqn:D.
    + destruct (App.includes (App.todoIds st) itemId) eqn:T; simpl.
      * split; [assumption | now apply NoDup_without].
      * split; [|now apply NoDup_without]. constructor; [|assumption].
        intros H. apply includes_In in H. congruence.
    + simpl. split; [now apply NoDup_without|].
      apply NoDup_snoc; [assumption|].
      intros H. apply includes_In in H. congruence.
Qed.

Lemma toggles_keep_ids_unique_witness :
  let st := App.Lists [lit "a"; lit "b"] [lit "c"] in
  (NoDup (App.todoIds (App.toggleTodo st (lit "b")))
   /\ NoDup (App.doneIds (App.toggleTodo st (lit "b"))))
  /\ (NoDup (App.todoIds (App.toggleDone st (lit "b")))
      /\ NoDup (App.doneIds (App.toggleDone st (lit "b")))).
Proof.
  apply (toggles_keep_ids_unique (App.Lists [lit "a"; lit "b"] [lit "c"])).
  - simpl. repeat constructor; simpl; intuition discriminate.
  - simpl. repeat constructor; simpl; intuition discriminate.
Defined.

(** *** Reordering the To-do list *)

Lemma indexOfId_nth (ids : list str) (id : str) (i : nat) :
  App.indexOfId ids id = Some i ->
  nth_error ids i = Some id /\ (i < List.length ids)%nat.
Proof.
  revert i. induction ids as [|x rest IH]; intros i H; [discriminate|].
  simpl in H. destruct (str_eqb x id) eqn:E.
  - injection H as <-. apply str_eqb_eq in E. subst x.
    split; [reflexivity | simpl; lia].
  - destruct (App.indexOfId rest id) as [j|]; [|discriminate].
    injection H as <-. destruct (IH j eq_refl) as [Hn Hl].
    split; [exact Hn | simpl; lia].
Qed.

Lemma spliceOut_length (ids : list str) (i : nat) :
  (i < List.length ids)%nat ->
  List.length (App.spliceOut ids i) = (List.length ids - 1)%nat.
Proof.
  intros H. unfold App.spliceOut.
  rewrite length_app, length_firstn, length_skipn. lia.
Qed.

Lemma spliceOut_perm (ids : list str) (i : nat) (x : str) :
  nth_error ids i = Some x -> Permutation ids (x :: App.spliceOut ids i).
Proof.
  intros H. unfold App.spliceOut.
  destruct (nth_error_split ids i H) as (l1 & l2 & -> & <-).
  rewrite firstn_app, Nat.sub_diag, firstn_all, skipn_app.
  rewrite skipn_all2 by lia.
  replace (S (List.length l1) - List.length l1)%nat with 1%nat by lia.
  simpl. rewrite app_nil_r.
  symmetry. apply Permutation_middle.
Qed.

Lemma spliceIn_perm (ids : list str) (i : nat) (x : str) :
  Permutation (x :: ids) (App.spliceIn ids i x).
Proof.
  unfold App.spliceIn.
  rewrite <- (firstn_skipn i ids) at 1. apply Permutation_middle.
Qed.

Lemma spliceIn_nth (ids : list str) (i : nat) (x : str) :
  (i <= List.length ids)%nat -> nth_error (App.spliceIn ids i x) i = Some x.
Proof.
  intros H. unfold App.spliceIn.
  rewrite nth_error_app2 by (rewrite length_firstn; lia).
  rewrite length_firstn.
  replace (i - Nat.min i (List.length ids))%nat with O by lia.
  reflexivity.
Qed.

(** X3: dropping a dragged item on another item of the To-do list reorders
    the list and nothing else: the list after the drop is a permutation of
    the list before, and the dragged id stands at the index that the id it
    was dropped on had. *)
Theorem drop_moves_to_target (todoIds : list str) (draggedId dropId : str)
    (fromIndex toIndex : nat) :
  draggedId <> dropId ->
  App.indexOfId todoIds draggedId = Some fromIndex ->
  App.indexOfId todoIds dropId = Some toIndex ->
  Permutation todoIds (App.drop todoIds draggedId dropId)
  /\ nth_error (App.drop todoIds draggedId dropId) toIndex = Some draggedId.
Proof.
  intros Hne Hf Ht. unfold App.drop.
  rewrite (str_eqb_false _ _ Hne), Hf, Ht.
  destruct (indexOfId_nth _ _ _ Hf) as [Nf Lf].
  destruct (indexOfId_nth _ _ _ Ht) as [_ Lt].
  rewrite Nf. split.
  - etransitivity; [apply (spliceOut_perm _ _ _ Nf)|]. apply spliceIn_perm.
  - apply spliceIn_nth. rewrite spliceOut_length by assumption. lia.
Qed.

Lemma drop_moves_to_target_witness :
  Permutation [lit "a"; lit "b"; lit "c"]
    (App.drop [lit "a"; lit "b"; lit "c"] (lit "c") (lit "a"))
  /\ nth_error (App.drop [lit "a"; lit "b"; lit "c"] (lit "c") (lit "a")) 0
     = Some (lit "c").
Proof.
  apply (drop_moves_to_target [lit "a"; lit "b"; lit "c"] (lit "c") (lit "a")
           2 0).
  - discriminate.
  - reflexivity.
  - reflexivity.
Defined.

(** *** The chunks of the scanner workers *)

Lemma firstn_add {A : Type} (l : list A) (a b : nat) :
  firstn (a + b) l = firstn a l ++ firstn b (skipn a l).
Proof.
  revert l. induction a as [|a IH]; intros l; [reflexivity|].
  destruct l as [|x l]; simpl.
  - now rewrite firstn_nil.
  - now rewrite IH.
Qed.

Lemma concat_chunks {A : Type} (l : list A) (c n : nat) :
  List.concat (map (fun i => Main.sliceArray l (i * c) ((i + 1) * c)) (seq 0 n))
  = firstn (n * c) l.
Proof.
  induction n as [|n IH]; [reflexivity|].
  rewrite seq_S, map_app, concat_app, IH. simpl.
  rewrite app_nil_r. unfold Main.sliceArray.
  replace ((n + 1) * c - n * c)%nat with c by lia.
  replace (c + n * c)%nat with (n * c + c)%nat by lia.
  symmetry. apply firstn_add.
Qed.

Lemma concat_filter_nonempty {A : Type} (ls : list (list A)) :
  List.concat (filter (fun chunk => negb (List.length chunk =? 0)%nat) ls)
  = List.concat ls.
Proof.
  induction ls as [|x ls IH]; [reflexivity|]. simpl.
  destruct x as [|a x]; simpl; [exact IH | now rewrite IH].
Qed.

(** X4: on a machine with at least one processor, [runScannerWorkers]
    hands every path to exactly one worker: the chunks, taken in order,
    make up the list of paths.  No chunk is empty and there are at most
    four of them. *)
Theorem runScannerWorkers_chunks_cover {A : Type} (cpus : nat)
    (filePaths : list A) :
  (1 <= cpus)%nat ->
  List.concat (Main.runScannerWorkers_chunks cpus filePaths) = filePaths
  /\ Forall (fun chunk => chunk <> [])
       (Main.runScannerWorkers_chunks cpus filePaths)
  /\ (List.length (Main.runScannerWorkers_chunks cpus filePaths) <= 4)%nat.
Proof.
  intros Hc. unfold Main.runScannerWorkers_chunks.
  set (n := Nat.min (Nat.min cpus 4) (List.length filePaths)).
  destruct (Nat.eqb_spec n 0) as [E|E].
  - split; [|split; [constructor | simpl; lia]].
    destruct filePaths; [reflexivity | simpl in n; lia].
  - set (c := ((List.length filePaths + n - 1) / n)%nat).
    split; [|split].
    + rewrite concat_filter_nonempty, concat_chunks.
      apply firstn_all2.
      pose proof (Nat.div_mod (List.length filePaths + n - 1) n E) as D.
      pose proof (Nat.mod_upper_bound (List.length filePaths + n - 1) n E).
      fold c in D. lia.
    + apply Forall_forall. intros chunk H. apply filter_In in H.
      destruct H as [_ H]. destruct chunk; [discriminate | discriminate].
    + etransitivity; [apply filter_length_le|].
      rewrite length_map, length_seq. lia.
Qed.

Lemma runScannerWorkers_chunks_cover_witness :
  let paths := [1; 2; 3; 4; 5; 6; 7; 8; 9; 10]%nat in
  List.concat (Main.runScannerWorkers_chunks 8 paths) = paths
  /\ Forall (fun chunk => chunk <> []) (Main.runScannerWorkers_chunks 8 paths)
  /\ (List.length (Main.runScannerWorkers_chunks 8 paths) <= 4)%nat.
Proof.
  apply (runScannerWorkers_chunks_cover 8 [1; 2; 3; 4; 5; 6; 7; 8; 9; 10]%nat).
  lia.
Defined.

(** *** getDirectoryPath *)

(** The index that [lastIndexOf] returns: -1 when the character does not
    occur, and otherwise the index of an occurrence that no other one
    follows. *)
Lemma lastIndexOf_spec (s : str) (c : Z) :
  (lastIndexOf s c = (-1)%Z /\ ~ In c s)
  \/ ((0 <= lastIndexOf s c < len s)%Z
      /\ nth_error s (Z.to_nat (lastIndexOf s c)) = Some c
      /\ forall j, (Z.to_nat (lastIndexOf s c) < j)%nat ->
           nth_error s j <> Some c).
Proof.
  unfold lastIndexOf.
  destruct (find_last_spec c s 0 (-1)) as [Hno Hyes].
  destruct (in_dec Z.eq_dec c s) as [Hin|Hout].
  - right. destruct (Hyes Hin) as (pre & post & -> & Hp & E).
    rewrite E. unfold len. rewrite length_app. simpl List.length.
    replace (Z.to_nat (0 + Z.of_nat (List.length pre))) with (List.length pre)
      by lia.
    split; [lia|]. split.
    + rewrite nth_error_app2 by lia. now rewrite Nat.sub_diag.
    + intros j Hj Hn. rewrite nth_error_app2 in Hn by lia.
      destruct (j - List.length pre)%nat as [|k] eqn:K; [lia|].
      simpl in Hn. apply nth_error_In in Hn. contradiction.
  - left. split; [now apply Hno | assumption].
Qed.

Lemma slice_prefix (s : str) (n : Z) :
  (0 <= n <= len s)%Z -> slice s 0 n = firstn (Z.to_nat n) s.
Proof.
  intros H. unfold slice.
  destruct (Z.ltb_spec 0 0); [lia|].
  destruct (Z.ltb_spec n 0); [lia|].
  rewrite !Z.min_l by (unfold len in *; lia).
  rewrite Z.sub_0_r. reflexivity.
Qed.

Lemma not_In_skipn (s : str) (c : Z) (n : nat) :
  (forall j, (n <= j)%nat -> nth_error s j <> Some c) -> ~ In c (skipn n s).
Proof.
  intros H Hin. apply In_nth_error in Hin. destruct Hin as [k Hk].
  rewrite nth_error_skipn in Hk. apply (H (n + k)%nat); [lia | exact Hk].
Qed.

(** X5: [getDirectoryPath] cuts a path after its last separator.  The path
    is the directory followed by a name in which neither [/] nor [\]
    occurs, and the directory is empty or ends with one of the two
    separators; a path without a separator has the empty directory. *)
Theorem getDirectoryPath_splits (filePath : str) :
  exists name,
    filePath = App.getDirectoryPath filePath ++ name
    /\ ~ In 47%Z name /\ ~ In 92%Z name
    /\ (App.getDirectoryPath filePath = []
        \/ exists dir sep,
             App.getDirectoryPath filePath = dir ++ [sep]
             /\ (sep = 47%Z \/ sep = 92%Z)).
Proof.
  unfold App.getDirectoryPath.
  set (a := lastIndexOf filePath 47). set (b := lastIndexOf filePath 92).
  pose proof (lastIndexOf_spec filePath 47) as HA.
  pose proof (lastIndexOf_spec filePath 92) as HB.
  fold a in HA. fold b in HB.
  destruct (Z.eqb_spec (Z.max a b) (-1)) as [E|E].
  - exists filePath. split; [reflexivity|].
    destruct HA as [[_ HA]|[HA _]]; [|lia].
    destruct HB as [[_ HB]|[HB _]]; [|lia].
    repeat split; auto.
  - assert (R : (0 <= Z.max a b < len filePath)%Z).
    { destruct HA as [[HA _]|[HA _]]; destruct HB as [[HB _]|[HB _]]; lia. }
    rewrite slice_prefix by lia.
    replace (Z.to_nat (Z.max a b + 1)) with (S (Z.to_nat (Z.max a b)))
      by lia.
    set (n := Z.to_nat (Z.max a b)).
    exists (skipn (S n) filePath).
    split; [symmetry; apply firstn_skipn|].
    split; [|split].
    + apply not_In_skipn. intros j Hj.
      destruct HA as [[_ HA]|(_ & _ & HA)].
      * intros H. apply nth_error_In in H. contradiction.
      * apply HA. lia.
    + apply not_In_skipn. intros j Hj.
      destruct HB as [[_ HB]|(_ & _ & HB)].
      * intros H. apply nth_error_In in H. contradiction.
      * apply HB. lia.
    + right.
      assert (Hn : (n < List.length filePath)%nat) by (unfold len in R; lia).
      assert (S : exists sep, nth_error filePath n = Some sep
                              /\ (sep = 47%Z \/ sep = 92%Z)).
      { destruct (Z.max_spec a b) as [[_ M]|[_ M]].
        - exists 92%Z. split; [|now right].
          destruct HB as [[HB _]|(_ & HB & _)]; [lia|].
          unfold n. rewrite M. exact HB.
        - exists 47%Z. split; [|now left].
          destruct HA as [[HA _]|(_ & HA & _)]; [lia|].
          unfold n. rewrite M. exact HA. }
      destruct S as (sep & Hs & Hsep).
      exists (firstn n filePath), sep. split; [|exact Hsep].
      apply firstn_S_nth. exact Hs.
Qed.

(** *** parseHighlights *)

Lemma parseHighlights_keep_inUnit (ranges : list (option range)) :
  (forall r, In (Some r) ranges ->
     (is_nan (r_end r) = false -> Spec.inUnit r
        \/ (r_start r <? r_end r)%float = false)) ->
  Forall Spec.inUnit (App.parseHighlights_keep ranges).
Proof.
  induction ranges as [|o rest IH]; intros H; simpl; [constructor|].
  destruct o as [r|].
  - destruct (r_start r <? r_end r)%float eqn:E.
    + constructor.
      * destruct (ltb_not_nan _ _ E) as [_ Ne].
        destruct (H r (or_introl eq_refl) Ne) as [U|F]; [exact U|congruence].
      * apply IH. intros r' Hr'. apply H. now right.
    + apply IH. intros r' Hr'. apply H. now right.
  - apply IH. intros r' Hr'. apply H. now right.
Qed.

Lemma parseHighlights_chunk_bounds (chunk : str) (r : range) :
  App.parseHighlights_chunk chunk = Some r ->
  is_nan (r_end r) = false ->
  Spec.inUnit r \/ (r_start r <? r_end r)%float = false.
Proof.
  unfold App.parseHighlights_chunk.
  destruct (map parseFloat (split 45 chunk)) as [|start [|end_ rest]];
    [discriminate| |].
  - destruct (is_nan start); [discriminate|].
    intros H. injection H as <-. simpl. discriminate.
  - destruct (is_nan start || is_nan end_); [discriminate|].
    intros H. injection H as <-. simpl. intros Ne.
    destruct (Renderer.clamp01 start <? Renderer.clamp01 end_)%float eqn:E;
      [|right; exact E].
    left. destruct (ltb_not_nan _ _ E) as [Ns _].
    destruct (clamp01_bounds _ Ns) as [Hs _].
    destruct (clamp01_bounds _ Ne) as [_ He].
    unfold Spec.inUnit. simpl. auto.
Qed.

(** X6: every range that [parseHighlights] returns lies in the unit
    interval and is not empty: [0 <= start < end <= 1].  Chunks that are
    not two numbers, and ranges that the clamp leaves empty or inverted,
    are dropped. *)
Theorem parseHighlights_in_unit (raw : str) :
  Forall Spec.inUnit (App.parseHighlights raw).
Proof.
  unfold App.parseHighlights.
  destruct (Renderer.isEmpty raw); [constructor|].
  apply parseHighlights_keep_inUnit. intros r Hr.
  apply in_map_iff in Hr. destruct Hr as (chunk & Hc & _).
  now apply parseHighlights_chunk_bounds with (chunk := chunk).
Qed.

(** *** Progress and the kinds of ranges *)

Lemma filter_filter_implies {A : Type} (f g : A -> bool) (l : list A) :
  (forall x, f x = true -> g x = true) ->
  filter f (filter g l) = filter f l.
Proof.
  intros H. induction l as [|x l IH]; [reflexivity|]. simpl.
  destruct (g x) eqn:G; simpl.
  - now rewrite IH.
  - destruct (f x) eqn:F; [|exact IH].
    apply H in F. congruence.
Qed.

(** X7: the progress of an item depends on its object ranges and its
    breaks only: ranges of any other kind, such as the bookmarks that
    [processWorkerResult] puts in the same list, change nothing, in either
    mode. *)
Theorem computeProgress_counts_objects_and_breaks
    (ignoreStartAndBreaks : bool) (ranges : list range) :
  Renderer.computeProgress ignoreStartAndBreaks ranges
  = Renderer.computeProgress ignoreStartAndBreaks
      (filter Notions.counted ranges).
Proof.
  unfold Renderer.computeProgress.
  rewrite (filter_filter_implies
             (fun r => Renderer.typeIs r (lit "object") || Renderer.noType r)
             Notions.counted)
    by (intros x Hx; unfold Notions.counted, Spec.isObjectRange;
        rewrite Hx; reflexivity).
  rewrite (filter_filter_implies
             (fun r => Renderer.typeIs r (lit "break")) Notions.counted)
    by (intros x Hx; unfold Notions.counted, Spec.isBreakRange;
        rewrite Hx; apply orb_true_r).
  destruct ranges as [|r ranges]; [reflexivity|].
  destruct (filter Notions.counted (r :: ranges)) as [|c cs] eqn:E;
    [|reflexivity].
  cbn [Renderer.isEmpty_list].
  assert (O : filter (fun r => Renderer.typeIs r (lit "object")
                               || Renderer.noType r) (r :: ranges) = []).
  { rewrite <- (filter_filter_implies _ Notions.counted)
      by (intros x Hx; unfold Notions.counted, Spec.isObjectRange;
          rewrite Hx; reflexivity).
    rewrite E. reflexivity. }
  assert (B : filter (fun r => Renderer.typeIs r (lit "break")) (r :: ranges)
              = []).
  { rewrite <- (filter_filter_implies _ Notions.counted)
      by (intros x Hx; unfold Notions.counted, Spec.isBreakRange;
          rewrite Hx; apply orb_true_r).
    rewrite E. reflexivity. }
  rewrite O, B. destruct ignoreStartAndBreaks; vm_compute; reflexivity.
Qed.

(** *** The break periods of the renderer *)

Lemma parseBreakPeriods_line_valid (st : bool * list breakPeriod)
    (line : str) (P : breakPeriod -> Prop) :
  (forall b, isFinite (bp_start b) = true -> isFinite (bp_end b) = true ->
             (bp_start b <? bp_end b)%float = true -> P b) ->
  Forall P (snd st) ->
  Forall P (snd (Renderer.parseBreakPeriods_line st line)).
Proof.
  intros HP H. unfold Renderer.parseBreakPeriods_line.
  destruct st as [inEvents breaks]. cbv zeta.
  repeat match goal with
         | |- Forall P (snd (if ?c then _ else _)) => destruct c eqn:?
         end; try exact H.
  simpl. apply Forall_app. split; [exact H|]. constructor; [|constructor].
  apply andb_prop in Heqb4. destruct Heqb4 as [F L].
  apply andb_prop in F. destruct F as [F1 F2].
  apply HP; assumption.
Qed.

(** X8: every break period that [parseBreakPeriods] returns has a start
    and an end that are finite numbers, the end being after the start. *)
Theorem parseBreakPeriods_valid (content : str) :
  Forall (fun b => isFinite (bp_start b) = true
                   /\ isFinite (bp_end b) = true
                   /\ (bp_start b <? bp_end b)%float = true)
    (Renderer.parseBreakPeriods content).
Proof.
  unfold Renderer.parseBreakPeriods.
  assert (G : forall lines st,
             Forall (fun b => isFinite (bp_start b) = true
                              /\ isFinite (bp_end b) = true
                              /\ (bp_start b <? bp_end b)%float = true)
               (snd st) ->
             Forall (fun b => isFinite (bp_start b) = true
                              /\ isFinite (bp_end b) = true
                              /\ (bp_start b <? bp_end b)%float = true)
               (snd (fold_left Renderer.parseBreakPeriods_line lines st))).
  { induction lines as [|line lines IH]; intros st H; [exact H|].
    simpl. apply IH. apply parseBreakPeriods_line_valid; auto. }
  apply G. constructor.
Qed.

(** *** The arrays of the two parsers *)

Lemma wrap_signed_32_range (z : Z) :
  (- 2 ^ 31 <= wrap_signed 32 z < 2 ^ 31)%Z.
Proof. apply wrap_signed_32. Qed.

Lemma workerEnds_stored (objs : list Worker.hitObject) :
  Forall (fun e => (- 2 ^ 31 <= e < 2 ^ 31)%Z) (Spec.workerEnds objs).
Proof.
  unfold Spec.workerEnds.
  induction objs as [|o rest IH]; simpl; [constructor|].
  constructor; [|exact IH].
  destruct rest as [|next rest'];
    [|destruct (has_bit (Worker.o_type o) 2)];
    apply wrap_signed_32_range.
Qed.

Lemma hit_arrays_lengths (content : str) :
  List.length (fst (Renderer.parseHitObjects content))
  = List.length (snd (Renderer.parseHitObjects content))
  /\ List.length (Worker.p_hitStarts (Worker.parseOsuFile content))
     = List.length (Worker.p_hitEnds (Worker.parseOsuFile content)).
Proof.
  rewrite parseHitObjects_gap_fill.
  destruct (parseOsuFile_gap_fill content) as [-> ->].
  unfold Spec.rendererEnds, Spec.workerEnds. cbn [fst snd].
  rewrite !length_map, !gapFill_length. split; reflexivity.
Qed.

(** X9: the two arrays of hit times are parallel: in each parser
    [hitStarts] and [hitEnds] have the same length, one element for each
    accepted hit object; and every element of the two arrays of the worker
    is a signed 32-bit integer. *)
Theorem hit_arrays_parallel (content : str) :
  List.length (fst (Renderer.parseHitObjects content))
  = List.length (snd (Renderer.parseHitObjects content))
  /\ List.length (Worker.p_hitStarts (Worker.parseOsuFile content))
     = List.length (Worker.p_hitEnds (Worker.parseOsuFile content))
  /\ Forall (fun t => (- 2 ^ 31 <= t < 2 ^ 31)%Z)
       (Worker.p_hitStarts (Worker.parseOsuFile content)
        ++ Worker.p_hitEnds (Worker.parseOsuFile content)).
Proof.
  destruct (hit_arrays_lengths content) as [L1 L2].
  split; [exact L1|]. split; [exact L2|].
  destruct (parseOsuFile_gap_fill content) as [-> ->].
  apply Forall_app. split.
  - apply Forall_forall. intros t Ht. apply in_map_iff in Ht.
    destruct Ht as (o & <- & _). apply wrap_signed_32_range.
  - apply workerEnds_stored.
Qed.

(** *** The two timing resolvers *)

Lemma getTimingInfo_loop_agrees (tps : list timingPoint) (time : number)
    (bpm sv : number) :
  Forall (fun tp => tp_uninherited tp = true
                    \/ (tp_beatLength tp <? 0)%float = true)
    (Spec.pointsUpTo time tps) ->
  Worker.getTimingInfo_loop tps time bpm sv
  = Renderer.getTiming_loop tps time bpm sv.
Proof.
  revert bpm sv. induction tps as [|tp rest IH]; intros bpm sv H; simpl.
  - reflexivity.
  - simpl in H. destruct (time <? tp_time tp)%float; [reflexivity|].
    inversion H as [|x l Hx Hl]; subst.
    destruct (tp_uninherited tp); [now apply IH|].
    destruct Hx as [Hx|Hx]; [discriminate|]. rewrite Hx. now apply IH.
Qed.

(** X10: the two timing resolvers agree at a time when every inherited
    timing point at or before that time, up to the first point that is
    after it, has a negative beat length: [getTimingInfo] of the worker
    then returns the beat length and the scroll velocity that [getTiming]
    of the renderer returns. *)
Theorem timing_resolvers_agree (tps : list timingPoint) (time : number) :
  Forall (fun tp => tp_uninherited tp = true
                    \/ (tp_beatLength tp <? 0)%float = true)
    (Spec.pointsUpTo time tps) ->
  Worker.getTimingInfo time tps = Renderer.getTiming tps time.
Proof.
  intros H. unfold Worker.getTimingInfo, Renderer.getTiming.
  now apply getTimingInfo_loop_agrees.
Qed.

Lemma timing_resolvers_agree_witness :
  let tps := [TimingPoint 0%float 400%float true;
              TimingPoint 100%float (-50)%float false;
              TimingPoint 900%float 100%float false] in
  Worker.getTimingInfo 500%float tps = Renderer.getTiming tps 500%float.
Proof.
  apply (timing_resolvers_agree
           [TimingPoint 0%float 400%float true;
            TimingPoint 100%float (-50)%float false;
            TimingPoint 900%float 100%float false] 500%float).
  vm_compute.
  constructor; [left; reflexivity|].
  constructor; [right; reflexivity|]. constructor.
Defined.

(** *** parseMetadata *)

Lemma orString_nonempty (value : option str) (fallback : str) :
  fallback <> [] -> App.orString value fallback <> [].
Proof.
  intros H. unfold App.orString. destruct value as [[|c r]|];
    try assumption. discriminate.
Qed.

(** X11: [parseMetadata] leaves no name empty: for every file text, also
    one without a Metadata section or with keys that have no value, the
    title, the artist, their Unicode forms, the creator, the version and
    the beatmap set id of the result are not the empty string. *)
Theorem parseMetadata_names_not_empty (content : str) :
  let m := App.parseMetadata content in
  App.title m <> [] /\ App.titleUnicode m <> [] /\ App.artist m <> []
  /\ App.artistUnicode m <> [] /\ App.creator m <> []
  /\ App.version m <> [] /\ App.beatmapSetID m <> [].
Proof.
  unfold App.parseMetadata. cbv zeta. cbn [App.title App.titleUnicode
    App.artist App.artistUnicode App.creator App.version App.beatmapSetID].
  repeat split; try (repeat apply orString_nonempty; discriminate).
  match goal with |- (if ?c then _ else _) <> [] => destruct c end.
  - discriminate.
  - apply orString_nonempty. discriminate.
Qed.

(** *** The header filter of the scanner *)

Lemma split_lines_step (c c2 : Z) (r : str) :
  split_lines (c :: c2 :: r)
  = if (c =? 10)%Z then [] :: split_lines (c2 :: r)
    else if ((c =? 13) && (c2 =? 10))%Z then [] :: split_lines r
    else cons_head c (split_lines (c2 :: r)).
Proof. reflexivity. Qed.

(** The lines of a text that a line feed ends do not depend on what
    follows the line feed. *)
Lemma split_lines_line_feed (a : str) :
  exists lines, lines <> []
    /\ forall b, split_lines (a ++ 10%Z :: b) = lines ++ split_lines b.
Proof.
  assert (G : forall n a, (List.length a <= n)%nat ->
             exists lines, lines <> []
               /\ forall b, split_lines (a ++ 10%Z :: b)
                            = lines ++ split_lines b).
  { induction n as [|n IH]; intros s Hs.
    - destruct s; [|simpl in Hs; lia].
      exists [[]]. split; [discriminate | reflexivity].
    - destruct s as [|c s].
      + exists [[]]. split; [discriminate | reflexivity].
      + simpl in Hs.
        destruct (Z.eqb_spec c 10) as [Ec|Ec].
        * destruct (IH s ltac:(lia)) as (L & HL & E).
          exists ([] :: L). split; [discriminate|].
          intros b. simpl. rewrite (proj2 (Z.eqb_eq c 10) Ec).
          rewrite E. reflexivity.
        * apply Z.eqb_neq in Ec. destruct s as [|c2 s].
          -- destruct (Z.eqb_spec c 13) as [Er|Er].
             ++ exists [[]]. split; [discriminate|]. intros b. simpl.
                rewrite Ec. rewrite (proj2 (Z.eqb_eq c 13) Er). reflexivity.
             ++ apply Z.eqb_neq in Er.
                exists [[c]]. split; [discriminate|]. intros b. simpl.
                rewrite Ec, Er. reflexivity.
          -- destruct ((c =? 13)%Z && (c2 =? 10)%Z) eqn:R.
             ++ destruct (IH s ltac:(simpl in Hs; lia)) as (L & HL & E).
                exists ([] :: L). split; [discriminate|].
                intros b. simpl. rewrite Ec, R. rewrite E. reflexivity.
             ++ destruct (IH (c2 :: s) ltac:(simpl in *; lia))
                  as (L & HL & E).
                exists (cons_head c L). split.
                ** destruct L; discriminate.
                ** intros b. change ((c :: c2 :: s) ++ 10%Z :: b)
                     with (c :: c2 :: (s ++ 10%Z :: b)).
                   rewrite split_lines_step, Ec, R.
                   change (c2 :: (s ++ 10%Z :: b))
                     with ((c2 :: s) ++ 10%Z :: b).
                   rewrite E.
                   destruct L as [|h t]; [congruence | reflexivity]. }
  apply (G (List.length a)). lia.
Qed.

Lemma parseMetadataFromHeader_loop_complete (lines more : list str)
    (section : str) (meta : Scanner.headerMeta) :
  Notions.complete meta = false ->
  Notions.complete (Scanner.parseMetadataFromHeader_loop lines section meta)
  = true ->
  Scanner.parseMetadataFromHeader_loop (lines ++ more) section meta
  = Scanner.parseMetadataFromHeader_loop lines section meta.
Proof.
  revert section meta.
  induction lines as [|line lines IH]; intros section meta Hm Hc.
  - simpl in Hc. congruence.
  - simpl app. cbn [Scanner.parseMetadataFromHeader_loop] in *.
    cbv zeta in *.
    destruct (Renderer.isEmpty (trim line)
              || startsWith (trim line) (lit "//")); [now apply IH|].
    destruct (Renderer.isHeader (trim line)); [now apply IH|].
    destruct (str_eqb section (lit "metadata")); [|now apply IH].
    destruct (indexOf (trim line) 58 0 =? -1)%Z; [now apply IH|].
    match goal with
    | |- (if ?c then _ else _) = _ => destruct c eqn:C
    end; [reflexivity|].
    apply IH; assumption.
Qed.

Lemma parseMetadataFromHeader_loop_blank (lines : list str) (section : str)
    (meta : Scanner.headerMeta) :
  Scanner.parseMetadataFromHeader_loop (lines ++ [[]]) section meta
  = Scanner.parseMetadataFromHeader_loop lines section meta.
Proof.
  revert section meta.
  induction lines as [|line lines IH]; intros section meta.
  - reflexivity.
  - simpl app. cbn [Scanner.parseMetadataFromHeader_loop]. cbv zeta.
    destruct (Renderer.isEmpty (trim line)
              || startsWith (trim line) (lit "//")); [now apply IH|].
    destruct (Renderer.isHeader (trim line)); [now apply IH|].
    destruct (str_eqb section (lit "metadata")); [|now apply IH].
    destruct (indexOf (trim line) 58 0 =? -1)%Z; [now apply IH|].
    match goal with
    | |- (if ?c then _ else _) = _ => destruct c eqn:C
    end; [reflexivity|].
    apply IH.
Qed.

(** X12: a complete answer of the header filter is final.  When the text
    read so far ends with a line feed and [parseMetadataFromHeader] finds
    in it both a creator and a version, it returns the same creator and
    version for that text followed by any other text: what lies beyond
    the part of the file that was read cannot change them. *)
Theorem parseMetadataFromHeader_settled (header rest : str) :
  Scanner.creator (Scanner.parseMetadataFromHeader (header ++ [10%Z])) <> [] ->
  Scanner.version (Scanner.parseMetadataFromHeader (header ++ [10%Z])) <> [] ->
  Scanner.parseMetadataFromHeader (header ++ 10%Z :: rest)
  = Scanner.parseMetadataFromHeader (header ++ [10%Z]).
Proof.
  unfold Scanner.parseMetadataFromHeader.
  destruct (split_lines_line_feed header) as (L & _ & E).
  rewrite (E rest), (E []). simpl split_lines.
  rewrite parseMetadataFromHeader_loop_blank.
  intros Hc Hv. apply parseMetadataFromHeader_loop_complete.
  - reflexivity.
  - unfold Notions.complete.
    destruct (Scanner.creator _); [congruence|].
    destruct (Scanner.version _); [congruence|]. reflexivity.
Qed.

Lemma parseMetadataFromHeader_settled_witness :
  let header :=
    Spec.fileOf ["[Metadata]"; "Creator:peppy"; "Version:Hard"]%string in
  Scanner.parseMetadataFromHeader (header ++ 10%Z :: lit "Version:Easy")
  = Scanner.parseMetadataFromHeader (header ++ [10%Z]).
Proof.
  apply (parseMetadataFromHeader_settled
           (Spec.fileOf ["[Metadata]"; "Creator:peppy"; "Version:Hard"]%string)
           (lit "Version:Easy")).
  - vm_compute. discriminate.
  - vm_compute. discriminate.
Defined.

(** *** Matching the names of sections *)

Lemma skipn_nth_error_None {A : Type} (l : list A) (n : nat) :
  nth_error l n = None -> skipn n l = [].
Proof.
  intros H. apply skipn_all2. now apply nth_error_None.
Qed.

Lemma str_eqb_iff (a b : str) : str_eqb a b = true <-> a = b.
Proof.
  split; [apply str_eqb_eq | intros ->; apply str_eqb_refl].
Qed.

Lemma str_eqb_lengths (a b : str) :
  List.length a <> List.length b -> str_eqb a b = false.
Proof.
  intros H. apply str_eqb_false. intros ->. now apply H.
Qed.

Lemma matchesAt_loop_spec (s : str) (pos : Z) (m : str) (i : Z) :
  (0 <= pos + i)%Z ->
  Worker.matchesAt_loop s pos m i
  = str_eqb (map Notions.lowerAscii
               (firstn (List.length m) (skipn (Z.to_nat (pos + i)) s))) m.
Proof.
  revert i. induction m as [|c m IH]; intros i Hi.
  - reflexivity.
  - cbn [Worker.matchesAt_loop]. unfold charCodeAt.
    destruct (Z.ltb_spec (pos + i) 0); [lia|].
    destruct (nth_error s (Z.to_nat (pos + i))) as [x|] eqn:N.
    + rewrite (skipn_nth_error_Some _ _ _ N). cbn [List.length firstn map].
      fold (Notions.lowerAscii x).
      replace (S (Z.to_nat (pos + i))) with (Z.to_nat (pos + (i + 1)))
        by lia.
      destruct (Z.eqb_spec (Notions.lowerAscii x) c) as [E|E].
      * rewrite IH by lia. rewrite E.
        destruct (str_eqb _ m) eqn:R.
        -- apply str_eqb_eq in R. rewrite R. symmetry. apply str_eqb_refl.
        -- symmetry. apply str_eqb_false. intros F. injection F as F.
           rewrite F in R. rewrite str_eqb_refl in R. discriminate.
      * symmetry. apply str_eqb_false. intros F. injection F as F _.
        contradiction.
    + rewrite (skipn_nth_error_None _ _ N). symmetry.
      apply str_eqb_false. destruct (List.length (c :: m)); discriminate.
Qed.

(** X13: [matchesAt] compares without regard to the case of the letters A
    to Z of the text, and of the text only.  For an index that is not
    negative it holds when and only when the text has as many characters
    from that index on as the pattern has, and these characters, their
    capital letters lowered, are the pattern. *)
Theorem matchesAt_lowered (s : str) (pos : Z) (m : str) :
  (0 <= pos)%Z ->
  (Worker.matchesAt s pos m = true
   <-> (pos + len m <= len s)%Z
       /\ map Notions.lowerAscii (slice s pos (pos + len m)) = m).
Proof.
  intros Hp. unfold Worker.matchesAt.
  destruct (Z.ltb_spec (len s) (pos + len m)) as [L|L].
  - split; [discriminate | intros [H _]; lia].
  - rewrite matchesAt_loop_spec by lia.
    rewrite slice_inside by (unfold len in *; lia).
    replace (Z.to_nat (pos + len m - pos)) with (List.length m)
      by (unfold len; lia).
    rewrite Z.add_0_r, str_eqb_iff. intuition.
Qed.

Lemma matchesAt_lowered_witness :
  Worker.matchesAt (lit "[HitObjects]") 1 (lit "hitobjects") = true
  <-> (1 + len (lit "hitobjects") <= len (lit "[HitObjects]"))%Z
      /\ map Notions.lowerAscii
           (slice (lit "[HitObjects]") 1 (1 + len (lit "hitobjects")))
         = lit "hitobjects".
Proof.
  apply (matchesAt_lowered (lit "[HitObjects]") 1 (lit "hitobjects")). lia.
Defined.

Lemma matchesAt_name (s : str) (start end_ : Z) (m : str) :
  (0 <= start <= end_)%Z -> (end_ <= len s)%Z ->
  (end_ - start = len m)%Z ->
  Worker.matchesAt s start m
  = str_eqb (map Notions.lowerAscii (slice s start end_)) m.
Proof.
  intros H1 H2 H3. unfold Worker.matchesAt.
  destruct (Z.ltb_spec (len s) (start + len m)) as [L|L]; [lia|].
  rewrite matchesAt_loop_spec by lia.
  rewrite slice_inside by lia.
  replace (Z.to_nat (end_ - start)) with (List.length m)
    by (unfold len in H3; lia).
  rewrite Z.add_0_r. reflexivity.
Qed.

Lemma matchesAt_past_bracket (s : str) (start end_ : Z) (m : str) (c : Z) :
  (0 <= start <= end_)%Z ->
  codeIs s end_ 93 = true ->
  nth_error m (Z.to_nat (end_ - start)) = Some c -> c <> 93%Z ->
  Worker.matchesAt s start m = false.
Proof.
  intros H1 H2 H3 H4.
  destruct (Worker.matchesAt s start m) eqn:E; [|reflexivity].
  exfalso. unfold Worker.matchesAt in E.
  destruct (len s <? start + len m)%Z; [discriminate|].
  rewrite matchesAt_loop_spec in E by lia. apply str_eqb_eq in E.
  rewrite Z.add_0_r in E. rewrite <- E in H3.
  rewrite nth_error_map in H3.
  assert (K : (Z.to_nat (end_ - start) < List.length m)%nat).
  { apply nth_error_Some. rewrite <- E at 1. rewrite nth_error_map.
    destruct (nth_error _ _); discriminate. }
  rewrite nth_error_firstn in H3.
  destruct (Nat.ltb_spec (Z.to_nat (end_ - start)) (List.length m)); [|lia].
  rewrite nth_error_skipn in H3.
  replace (Z.to_nat start + Z.to_nat (end_ - start))%nat
    with (Z.to_nat end_) in H3 by lia.
  unfold codeIs, charCodeAt in H2.
  destruct (end_ <? 0)%Z; [discriminate|].
  destruct (nth_error s (Z.to_nat end_)) as [x|]; [|discriminate].
  apply Z.eqb_eq in H2. subst x. simpl in H3. injection H3 as <-.
  apply H4. reflexivity.
Qed.

Ltac name_side :=
  first
    [ lia
    | match goal with
      | |- context [len (lit ?x)] =>
          let v := eval vm_compute in (len (lit x)) in
          change (len (lit x)) with v; lia
      end ].

Ltac name_length_differs :=
  apply str_eqb_lengths; rewrite length_map, slice_length by lia;
  match goal with
  | H : (_ - _ = _)%Z |- _ => rewrite H
  | _ => idtac
  end; simpl; lia.

(** X14: the section that a header selects in the scan.  For a name that
    a closing bracket follows, as the name of every header that the scan
    meets is, [identifySection] returns the section whose name the text is
    once its capital letters are lowered, among editor, events, general,
    metadata, difficulty, hitobjects and timingpoints, and [NONE] for any
    other text: the name [colours] is tested among the names of six
    characters, so that a Colours header selects [NONE] too. *)
Theorem identifySection_named (s : str) (start end_ : Z) :
  (0 <= start <= end_)%Z ->
  codeIs s end_ 93 = true ->
  Worker.identifySection s start end_
  = Notions.sectionNamed (map Notions.lowerAscii (slice s start end_)).
Proof.
  intros H1 H2.
  assert (H3 : (end_ < len s)%Z).
  { unfold codeIs, charCodeAt in H2.
    destruct (end_ <? 0)%Z; [discriminate|].
    destruct (nth_error s (Z.to_nat end_)) eqn:N; [|discriminate].
    assert (Z.to_nat end_ < List.length s)%nat
      by (apply nth_error_Some; congruence).
    unfold len. lia. }
  unfold Worker.identifySection, Notions.sectionNamed.
  set (name := map Notions.lowerAscii (slice s start end_)).
  destruct (Z.eqb_spec (end_ - start) 6) as [L|L6].
  { rewrite (matchesAt_name s start end_ (lit "editor")) by name_side.
    rewrite (matchesAt_name s start end_ (lit "events")) by name_side.
    rewrite (matchesAt_past_bracket s start end_ (lit "colours") 115)
      by (try rewrite L; try reflexivity; try lia; try assumption).
    fold name.
    destruct (str_eqb name (lit "editor")); [reflexivity|].
    destruct (str_eqb name (lit "events")); [reflexivity|].
    repeat (match goal with
            | |- context [str_eqb name ?x] =>
                replace (str_eqb name x) with false
                  by (symmetry; unfold name; name_length_differs)
            end).
    reflexivity. }
  destruct (Z.eqb_spec (end_ - start) 7) as [L|L7].
  { rewrite (matchesAt_name s start end_ (lit "general")) by name_side.
    fold name.
    replace (str_eqb name (lit "editor")) with false
      by (symmetry; unfold name; name_length_differs).
    replace (str_eqb name (lit "events")) with false
      by (symmetry; unfold name; name_length_differs).
    destruct (str_eqb name (lit "general")); [reflexivity|].
    repeat (match goal with
            | |- context [str_eqb name ?x] =>
                replace (str_eqb name x) with false
                  by (symmetry; unfold name; name_length_differs)
            end).
    reflexivity. }
  destruct (Z.eqb_spec (end_ - start) 8) as [L|L8].
  { rewrite (matchesAt_name s start end_ (lit "metadata")) by name_side.
    fold name.
    replace (str_eqb name (lit "editor")) with false
      by (symmetry; unfold name; name_length_differs).
    replace (str_eqb name (lit "events")) with false
      by (symmetry; unfold name; name_length_differs).
    replace (str_eqb name (lit "general")) with false
      by (symmetry; unfold name; name_length_differs).
    destruct (str_eqb name (lit "metadata")); [reflexivity|].
    repeat (match goal with
            | |- context [str_eqb name ?x] =>
                replace (str_eqb name x) with false
                  by (symmetry; unfold name; name_length_differs)
            end).
    reflexivity. }
  destruct (Z.eqb_spec (end_ - start) 10) as [L|L10].
  { rewrite (matchesAt_name s start end_ (lit "difficulty")) by name_side.
    rewrite (matchesAt_name s start end_ (lit "hitobjects")) by name_side.
    fold name.
    replace (str_eqb name (lit "editor")) with false
      by (symmetry; unfold name; name_length_differs).
    replace (str_eqb name (lit "events")) with false
      by (symmetry; unfold name; name_length_differs).
    replace (str_eqb name (lit "general")) with false
      by (symmetry; unfold name; name_length_differs).
    replace (str_eqb name (lit "metadata")) with false
      by (symmetry; unfold name; name_length_differs).
    destruct (str_eqb name (lit "difficulty")); [reflexivity|].
    destruct (str_eqb name (lit "hitobjects")); [reflexivity|].
    replace (str_eqb name (lit "timingpoints")) with false
      by (symmetry; unfold name; name_length_differs).
    reflexivity. }
  destruct (Z.eqb_spec (end_ - start) 12) as [L|L12].
  { rewrite (matchesAt_name s start end_ (lit "timingpoints"))
      by name_side.
    fold name.
    replace (str_eqb name (lit "editor")) with false
      by (symmetry; unfold name; name_length_differs).
    replace (str_eqb name (lit "events")) with false
      by (symmetry; unfold name; name_length_differs).
    replace (str_eqb name (lit "general")) with false
      by (symmetry; unfold name; name_length_differs).
    replace (str_eqb name (lit "metadata")) with false
      by (symmetry; unfold name; name_length_differs).
    replace (str_eqb name (lit "difficulty")) with false
      by (symmetry; unfold name; name_length_differs).
    replace (str_eqb name (lit "hitobjects")) with false
      by (symmetry; unfold name; name_length_differs).
    destruct (str_eqb name (lit "timingpoints")); reflexivity. }
  repeat (match goal with
          | |- context [str_eqb name ?x] =>
              replace (str_eqb name x) with false
                by (symmetry; unfold name; apply str_eqb_lengths;
                    rewrite length_map, slice_length by lia; simpl; lia)
          end).
  reflexivity.
Qed.

Lemma identifySection_named_witness :
  Worker.identifySection (lit "[Colours]") 1 8
  = Notions.sectionNamed
      (map Notions.lowerAscii (slice (lit "[Colours]") 1 8)).
Proof.
  apply (identifySection_named (lit "[Colours]") 1 8).
  - lia.
  - reflexivity.
Defined.

(** *** Trimming by indices *)

Lemma isSpaceTab_blank (s : str) (i : Z) (x : Z) :
  (0 <= i)%Z -> nth_error s (Z.to_nat i) = Some x ->
  Worker.isSpaceTab s i = Notions.isBlank x.
Proof.
  intros Hi Hx. unfold Worker.isSpaceTab, codeIs, charCodeAt.
  destruct (Z.ltb_spec i 0); [lia|]. rewrite Hx. reflexivity.
Qed.

Lemma skipUp_dropBlanks (s : str) (fuel : nat) (i e : Z) :
  (0 <= i <= e)%Z -> (e <= len s)%Z -> (Z.to_nat (e - i) <= fuel)%nat ->
  let i' := Worker.skipUp fuel (Worker.isSpaceTab s) i e in
  (i <= i' <= e)%Z /\ Notions.dropBlanks (slice s i e) = slice s i' e.
Proof.
  revert i. induction fuel as [|fuel IH]; intros i H1 H2 H3;
    cbn [Worker.skipUp]; cbv zeta.
  - assert (i = e) by lia. subst i. split; [lia|].
    now rewrite slice_empty by lia.
  - destruct (Z.ltb_spec i e) as [L|L]; cbn [andb].
    + destruct (nth_error_inside s i ltac:(lia)) as [x Hx].
      rewrite (isSpaceTab_blank s i x) by (lia || assumption).
      rewrite (slice_first s i e x) by (lia || assumption).
      cbn [Notions.dropBlanks].
      destruct (Notions.isBlank x).
      * destruct (IH (i + 1)%Z ltac:(lia) H2 ltac:(lia)) as [B E].
        split; [lia | exact E].
      * split; [lia|]. symmetry. apply slice_first; lia || assumption.
    + assert (i = e) by lia. subst i. split; [lia|].
      now rewrite slice_empty by lia.
Qed.

Lemma skipDown_dropBlanks (s : str) (fuel : nat) (i e : Z) :
  (0 <= i <= e)%Z -> (e <= len s)%Z -> (Z.to_nat (e - i) <= fuel)%nat ->
  let e' := Worker.skipDown fuel (Worker.isSpaceTab s) i e in
  rev (Notions.dropBlanks (rev (slice s i e))) = slice s i e'.
Proof.
  revert e. induction fuel as [|fuel IH]; intros e H1 H2 H3;
    cbn [Worker.skipDown]; cbv zeta.
  - assert (i = e) by lia. subst i. now rewrite slice_empty by lia.
  - destruct (Z.ltb_spec i e) as [L|L]; cbn [andb].
    + destruct (nth_error_inside s (e - 1) ltac:(lia)) as [x Hx].
      rewrite (isSpaceTab_blank s (e - 1) x) by (lia || assumption).
      rewrite (slice_last s i e x) by (lia || assumption).
      rewrite rev_app_distr. cbn [rev app Notions.dropBlanks].
      destruct (Notions.isBlank x).
      * apply IH; lia.
      * cbn [rev]. rewrite rev_involutive. symmetry.
        apply slice_last; lia || assumption.
    + assert (i = e) by lia. subst i. now rewrite slice_empty by lia.
Qed.

(** X15: [extractTrimmed] trims by moving two indices: for a range inside
    the text it returns the characters of the range without the spaces and
    tabs at its two ends, and leaves any other white space where it is. *)
Theorem extractTrimmed_strips (s : str) (start end_ : Z) :
  (0 <= start <= end_)%Z -> (end_ <= len s)%Z ->
  Worker.extractTrimmed s start end_ = Notions.strip (slice s start end_).
Proof.
  intros H1 H2. unfold Worker.extractTrimmed, Notions.strip, Worker.span.
  destruct (skipUp_dropBlanks s (Z.to_nat (end_ - start)) start end_
              H1 H2 ltac:(lia)) as [B E].
  rewrite E. symmetry. apply skipDown_dropBlanks; lia.
Qed.

Lemma extractTrimmed_strips_witness :
  Worker.extractTrimmed (lit "Title:  Lazy fox  ") 6 18
  = Notions.strip (slice (lit "Title:  Lazy fox  ") 6 18).
Proof.
  apply (extractTrimmed_strips (lit "Title:  Lazy fox  ") 6 18).
  - lia.
  - vm_compute. discriminate.
Defined.

(** *** The order of the object ranges *)

Lemma apart_cons (r : range) (rest : list range) :
  Notions.apart rest ->
  (forall r2, In r2 rest -> (r_end r <? r_start r2)%float = true) ->
  Notions.apart (r :: rest).
Proof.
  intros H1 H2. destruct rest as [|r2 rest]; [exact I|].
  split; [apply H2; now left | exact H1].
Qed.

Lemma encodeRuns_starts (flags : list bool) (n : nat) (i : Z)
    (start : option Z) (r : range) :
  (i + Z.of_nat n = 120)%Z -> (0 <= i)%Z ->
  (forall s, start = Some s -> (0 <= s < i)%Z) ->
  In r (Renderer.encodeRuns n 120 flags i start) ->
  exists a, (match start with Some s => s | None => i end <= a < 120)%Z
            /\ r_start r = Spec.fraction a 120.
Proof.
  revert i start. induction n as [|n IH]; intros i start Hn Hi Hs Hr.
  - simpl in Hr. destruct start as [s|]; [|contradiction].
    destruct Hr as [<-|[]]. exists s. specialize (Hs s eq_refl).
    split; [lia | reflexivity].
  - simpl in Hr. destruct (nth (Z.to_nat i) flags false).
    + destruct start as [s|].
      * apply IH in Hr; [exact Hr | lia | lia |].
        intros s' E. injection E as <-. specialize (Hs s eq_refl). lia.
      * apply IH in Hr; [|lia | lia |].
        -- destruct Hr as (a & Ha & E). exists a. split; [lia | exact E].
        -- intros s' E. injection E as <-. lia.
    + destruct start as [s|].
      * destruct Hr as [<-|Hr].
        -- exists s. specialize (Hs s eq_refl). split; [lia | reflexivity].
        -- apply IH in Hr; [|lia | lia | discriminate].
           destruct Hr as (a & Ha & E). exists a. specialize (Hs s eq_refl).
           split; [lia | exact E].
      * apply IH in Hr; [|lia | lia | discriminate].
        destruct Hr as (a & Ha & E). exists a. split; [lia | exact E].
Qed.

Lemma encodeRuns_apart (flags : list bool) (n : nat) (i : Z)
    (start : option Z) :
  (i + Z.of_nat n = 120)%Z -> (0 <= i)%Z ->
  (forall s, start = Some s -> (0 <= s < i)%Z) ->
  Notions.apart (Renderer.encodeRuns n 120 flags i start).
Proof.
  revert i start. induction n as [|n IH]; intros i start Hn Hi Hs.
  - simpl. destruct start; exact I.
  - simpl. destruct (nth (Z.to_nat i) flags false).
    + apply IH; [lia | lia |]. intros s E. destruct start as [s0|].
      * injection E as <-. specialize (Hs s0 eq_refl). lia.
      * injection E as <-. lia.
    + destruct start as [s|].
      * apply apart_cons; [apply IH; [lia | lia | discriminate]|].
        intros r2 Hr2. apply encodeRuns_starts in Hr2;
          [|lia | lia | discriminate].
        destruct Hr2 as (a & Ha & E). rewrite E. cbn [r_end].
        apply (objectFractions i a); lia.
      * apply IH; [lia | lia | discriminate].
Qed.

(** X16: the object ranges of an item are in increasing order and apart:
    in the list that [buildHighlightRanges] returns, every range ends
    before the range after it starts, so that no two of them overlap or
    touch. *)
Theorem buildHighlightRanges_apart (starts ends : list number)
    (durationMs : number) :
  Notions.apart (Renderer.buildHighlightRanges starts ends durationMs).
Proof.
  unfold Renderer.buildHighlightRanges.
  destruct (Renderer.isEmpty_list starts || negb (truthy durationMs));
    [exact I|].
  apply encodeRuns_apart; [lia | lia | discriminate].
Qed.

(** *** Sums and products of integers as numbers *)

Section ExactArithmetic.

Local Open Scope Z_scope.

Lemma binary_round_exact (s : bool) (m m' : positive) (e e' : Z) :
  (e <= e' /\ Zpos m = Zpos m' * 2 ^ (e' - e)
   \/ e' < e /\ Zpos m' = Zpos m * 2 ^ (e - e')) ->
  Zpos (digits2_pos m') = 53 -> -1074 <= e' <= 971 ->
  binary_round prec emax s m e = S754_finite s m' e'.
Proof.
  intros H Hd Hr. unfold binary_round.
  destruct H as [[He Hm]|[He Hm]].
  - assert (Dm : Zpos (digits2_pos m) = 53 + (e' - e)).
    { apply pos_of_power in Hm; [|lia]. subst m.
      rewrite digits_shifted, Hd. lia. }
    unfold shl_align, fexp, emin, prec, emax. rewrite Dm.
    replace (Z.max (53 + (e' - e) + e - 53) (3 - 1024 - 53) - e)
      with (e' - e) by lia.
    destruct (e' - e) as [|k|k] eqn:K; try lia;
      apply binary_round_aux_shift; try assumption; try lia;
      rewrite ?K; rewrite ?Z.sub_diag; try assumption.
  - assert (Dm : Zpos (digits2_pos m) = 53 - (e - e')).
    { assert (Hm' := Hm). apply pos_of_power in Hm'; [|lia].
      rewrite Hm' in Hd. rewrite digits_shifted in Hd. lia. }
    unfold shl_align, fexp, emin, prec, emax. rewrite Dm.
    replace (Z.max (53 - (e - e') + e - 53) (3 - 1024 - 53) - e)
      with (e' - e) by lia.
    destruct (e' - e) as [|k|k] eqn:K; try lia.
    replace (Z.max (53 - (e - e') + e - 53) (3 - 1024 - 53)) with e' by lia.
    assert (Pos.iter xO m k = m') as ->.
    { apply Pos2Z.inj. rewrite iter_xO, Hm. f_equal. f_equal. lia. }
    apply binary_round_aux_exact; assumption.
Qed.

(** The binary64 form of an integer of at most 53 bits, as a value. *)
Lemma normalSF_finite (p : positive) :
  Zpos p < 2 ^ 53 ->
  exists m e, Spec.normal p = (m, e)
    /\ Zpos m = Zpos p * 2 ^ (- e) /\ -52 <= e <= 0
    /\ Zpos (digits2_pos m) = 53.
Proof.
  intros H. pose proof (normal_value p (digits_small p H)) as N.
  destruct (Spec.normal p) as [m e]. exists m, e.
  destruct N as (N1 & N2 & N3 & _). auto.
Qed.

Lemma normalSF_signed (s : bool) (p : positive) :
  Spec.normalSF (Notions.signed s p)
  = S754_finite s (fst (Spec.normal p)) (snd (Spec.normal p)).
Proof. destruct s; reflexivity. Qed.

Lemma Z_signed (z : Z) :
  z <> 0 -> exists s p, z = Notions.signed s p /\ Z.abs z = Zpos p.
Proof.
  intros H. destruct z as [|p|p]; [congruence| |].
  - exists false, p. split; reflexivity.
  - exists true, p. split; reflexivity.
Qed.

Lemma shl_align_fst (m : positive) (e ez : Z) :
  ez <= e -> Zpos (fst (shl_align m e ez)) = Zpos m * 2 ^ (e - ez).
Proof.
  intros H. unfold shl_align.
  destruct (ez - e) as [|k|k] eqn:K; try lia; cbn [fst].
  - replace (e - ez) with 0 by lia. lia.
  - rewrite iter_xO. f_equal. f_equal. lia.
Qed.

Lemma binary_normalize_integer (z : Z) (ez : Z) :
  Z.abs z < 2 ^ 53 -> -52 <= ez <= 0 ->
  binary_normalize prec emax (z * 2 ^ (- ez)) ez false = Spec.normalSF z.
Proof.
  intros Hz He.
  assert (P : 0 < 2 ^ (- ez)) by (apply Z.pow_pos_nonneg; lia).
  destruct (Z.eq_dec z 0) as [->|Nz]; [reflexivity|].
  destruct (Z_signed z Nz) as (s & p & -> & Ap).
  assert (Hp : Zpos p < 2 ^ 53) by lia.
  destruct (normalSF_finite p Hp) as (m' & e' & N & V & Re & D).
  rewrite normalSF_signed, N. cbn [fst snd].
  assert (exists M, Notions.signed s p * 2 ^ (- ez) = Notions.signed s M
                    /\ Zpos M = Zpos p * 2 ^ (- ez)) as (M & EM & VM).
  { destruct (Zpos p * 2 ^ (- ez)) as [|M|M] eqn:EM; try lia.
    exists M. split; [|reflexivity].
    destruct s; unfold Notions.signed; lia. }
  rewrite EM.
  assert (binary_normalize prec emax (Notions.signed s M) ez false
          = binary_round prec emax s M ez) as -> by (destruct s; reflexivity).
  apply binary_round_exact; [|assumption | lia].
  destruct (Z_le_gt_dec ez e') as [L|G].
  - left. split; [exact L|]. rewrite VM.
    assert (Zpos p * 2 ^ (- ez) = Zpos p * 2 ^ (- e') * 2 ^ (e' - ez)).
    { rewrite <- Z.mul_assoc, <- Z.pow_add_r by lia. f_equal. f_equal. lia. }
    lia.
  - right. split; [lia|]. rewrite VM, V.
    rewrite <- Z.mul_assoc, <- Z.pow_add_r by lia. f_equal. f_equal. lia.
Qed.

Lemma cond_Zopp_signed (s : bool) (p : positive) :
  cond_Zopp s (Zpos p) = Notions.signed s p.
Proof. destruct s; reflexivity. Qed.

Lemma signed_scaled (s : bool) (p m : positive) (k : Z) :
  Zpos m = Zpos p * k -> Notions.signed s m = Notions.signed s p * k.
Proof. intros H. destruct s; unfold Notions.signed; lia. Qed.

Lemma SFadd_integers (a b : Z) :
  Z.abs a < 2 ^ 53 -> Z.abs b < 2 ^ 53 -> Z.abs (a + b) < 2 ^ 53 ->
  SFadd prec emax (Spec.normalSF a) (Spec.normalSF b) = Spec.normalSF (a + b).
Proof.
  intros Ha Hb Hab.
  destruct (Z.eq_dec a 0) as [->|Na].
  { destruct b; reflexivity. }
  destruct (Z.eq_dec b 0) as [->|Nb].
  { rewrite Z.add_0_r. destruct a; reflexivity. }
  destruct (Z_signed a Na) as (sa & pa & -> & Aa).
  destruct (Z_signed b Nb) as (sb & pb & -> & Ab).
  assert (Hpa : Zpos pa < 2 ^ 53) by lia.
  assert (Hpb : Zpos pb < 2 ^ 53) by lia.
  destruct (normalSF_finite pa Hpa) as (ma & ea & Na' & Va & Ra & Da).
  destruct (normalSF_finite pb Hpb) as (mb & eb & Nb' & Vb & Rb & Db).
  rewrite !normalSF_signed, Na', Nb'. cbn [fst snd SFadd].
  set (ez := Z.min ea eb).
  rewrite !cond_Zopp_signed.
  assert (Fa : Zpos (fst (shl_align ma ea ez)) = Zpos pa * 2 ^ (- ez)).
  { rewrite shl_align_fst by (unfold ez; lia). rewrite Va.
    rewrite <- Z.mul_assoc, <- Z.pow_add_r by (unfold ez; lia).
    f_equal. f_equal. lia. }
  assert (Fb : Zpos (fst (shl_align mb eb ez)) = Zpos pb * 2 ^ (- ez)).
  { rewrite shl_align_fst by (unfold ez; lia). rewrite Vb.
    rewrite <- Z.mul_assoc, <- Z.pow_add_r by (unfold ez; lia).
    f_equal. f_equal. lia. }
  rewrite (signed_scaled sa pa _ _ Fa), (signed_scaled sb pb _ _ Fb).
  rewrite <- Z.mul_add_distr_r.
  apply binary_normalize_integer; [assumption | unfold ez; lia].
Qed.

Lemma SFsub_integers (a b : Z) :
  Z.abs a < 2 ^ 53 -> Z.abs b < 2 ^ 53 -> Z.abs (a - b) < 2 ^ 53 ->
  SFsub prec emax (Spec.normalSF a) (Spec.normalSF b) = Spec.normalSF (a - b).
Proof.
  intros Ha Hb Hab.
  destruct (Z.eq_dec b 0) as [->|Nb].
  { rewrite Z.sub_0_r. destruct a; reflexivity. }
  destruct (Z.eq_dec a 0) as [->|Na].
  { destruct b; reflexivity. }
  destruct (Z_signed a Na) as (sa & pa & -> & Aa).
  destruct (Z_signed b Nb) as (sb & pb & -> & Ab).
  assert (Hpa : Zpos pa < 2 ^ 53) by lia.
  assert (Hpb : Zpos pb < 2 ^ 53) by lia.
  destruct (normalSF_finite pa Hpa) as (ma & ea & Na' & Va & Ra & Da).
  destruct (normalSF_finite pb Hpb) as (mb & eb & Nb' & Vb & Rb & Db).
  rewrite !normalSF_signed, Na', Nb'. cbn [fst snd SFsub].
  set (ez := Z.min ea eb).
  rewrite !cond_Zopp_signed.
  assert (Fa : Zpos (fst (shl_align ma ea ez)) = Zpos pa * 2 ^ (- ez)).
  { rewrite shl_align_fst by (unfold ez; lia). rewrite Va.
    rewrite <- Z.mul_assoc, <- Z.pow_add_r by (unfold ez; lia).
    f_equal. f_equal. lia. }
  assert (Fb : Zpos (fst (shl_align mb eb ez)) = Zpos pb * 2 ^ (- ez)).
  { rewrite shl_align_fst by (unfold ez; lia). rewrite Vb.
    rewrite <- Z.mul_assoc, <- Z.pow_add_r by (unfold ez; lia).
    f_equal. f_equal. lia. }
  rewrite (signed_scaled sa pa _ _ Fa), (signed_scaled sb pb _ _ Fb).
  rewrite <- Z.mul_sub_distr_r.
  apply binary_normalize_integer; [assumption | unfold ez; lia].
Qed.

Lemma SFmul_integers (a b : Z) :
  a <> 0 -> b <> 0 -> Z.abs (a * b) < 2 ^ 53 ->
  SFmul prec emax (Spec.normalSF a) (Spec.normalSF b) = Spec.normalSF (a * b).
Proof.
  intros Na Nb Hab.
  assert (Ha : Z.abs a < 2 ^ 53) by nia.
  assert (Hb : Z.abs b < 2 ^ 53) by nia.
  destruct (Z_signed a Na) as (sa & pa & -> & Aa).
  destruct (Z_signed b Nb) as (sb & pb & -> & Ab).
  assert (Hpa : Zpos pa < 2 ^ 53) by lia.
  assert (Hpb : Zpos pb < 2 ^ 53) by lia.
  assert (Hp : Zpos (pa * pb) < 2 ^ 53).
  { rewrite Pos2Z.inj_mul. destruct sa, sb; unfold Notions.signed in Hab; lia. }
  destruct (normalSF_finite pa Hpa) as (ma & ea & Na' & Va & Ra & Da).
  destruct (normalSF_finite pb Hpb) as (mb & eb & Nb' & Vb & Rb & Db).
  destruct (normalSF_finite (pa * pb) Hp) as (m & e & N & V & R & D).
  assert (Notions.signed sa pa * Notions.signed sb pb
          = Notions.signed (xorb sa sb) (pa * pb)) as ->
    by (destruct sa, sb; reflexivity).
  rewrite !normalSF_signed, Na', Nb', N. cbn [fst snd SFmul].
  assert (Ba : 2 ^ 52 <= Zpos ma)
    by (pose proof (digits2_pos_bounds ma) as B; rewrite Da in B;
        simpl in B; simpl; lia).
  assert (Bb : 2 ^ 52 <= Zpos mb)
    by (pose proof (digits2_pos_bounds mb) as B; rewrite Db in B;
        simpl in B; simpl; lia).
  assert (Bm : Zpos m < 2 ^ 53)
    by (pose proof (digits2_pos_bounds m) as B; rewrite D in B; lia).
  assert (Pab : Zpos ma * Zpos mb
                = Zpos (pa * pb) * 2 ^ (- (ea + eb))).
  { rewrite Va, Vb, Pos2Z.inj_mul.
    replace (- (ea + eb)) with (- ea + - eb) by lia.
    rewrite Z.pow_add_r by lia. lia. }
  assert (Le : ea + eb <= e).
  { destruct (Z_le_gt_dec (ea + eb) e) as [L|G]; [exact L|]. exfalso.
    assert (Zpos m = Zpos ma * Zpos mb * 2 ^ (ea + eb - e)).
    { rewrite V, Pab, <- Z.mul_assoc, <- Z.pow_add_r by lia.
      f_equal. f_equal. lia. }
    assert (0 < 2 ^ (ea + eb - e)) by (apply Z.pow_pos_nonneg; lia).
    assert (2 ^ 52 * 2 ^ 52 <= Zpos ma * Zpos mb)
      by (apply Z.mul_le_mono_nonneg; lia).
    change (2 ^ 52 * 2 ^ 52) with 20282409603651670423947251286016 in *.
    change (2 ^ 53) with 9007199254740992 in *. nia. }
  apply binary_round_aux_shift; [exact Le | | assumption | lia].
  rewrite Pos2Z.inj_mul, Pab, V.
  rewrite <- Z.mul_assoc, <- Z.pow_add_r by lia. f_equal. f_equal. lia.
Qed.

Lemma add_of_Z (a b : Z) :
  Z.abs a < 2 ^ 53 -> Z.abs b < 2 ^ 53 -> Z.abs (a + b) < 2 ^ 53 ->
  (of_Z a + of_Z b)%float = of_Z (a + b).
Proof.
  intros Ha Hb Hab. apply Prim2SF_inj.
  rewrite add_spec, !Prim2SF_of_Z by assumption.
  now apply SFadd_integers.
Qed.

Lemma sub_of_Z (a b : Z) :
  Z.abs a < 2 ^ 53 -> Z.abs b < 2 ^ 53 -> Z.abs (a - b) < 2 ^ 53 ->
  (of_Z a - of_Z b)%float = of_Z (a - b).
Proof.
  intros Ha Hb Hab. apply Prim2SF_inj.
  rewrite sub_spec, !Prim2SF_of_Z by assumption.
  now apply SFsub_integers.
Qed.

Lemma mul_of_Z (a b : Z) :
  0 <= a < 2 ^ 53 -> 0 <= b < 2 ^ 53 -> a * b < 2 ^ 53 ->
  (of_Z a * of_Z b)%float = of_Z (a * b).
Proof.
  intros Ha Hb Hab. apply Prim2SF_inj.
  rewrite mul_spec, !Prim2SF_of_Z by nia.
  destruct (Z.eq_dec a 0) as [->|Na].
  { destruct b as [|p|p]; [reflexivity | reflexivity | lia]. }
  destruct (Z.eq_dec b 0) as [->|Nb].
  { rewrite Z.mul_0_r.
    destruct a as [|p|p]; [reflexivity | reflexivity | lia]. }
  apply SFmul_integers; nia.
Qed.

(** [x * -1] on an integer is its opposite, the opposite of 0 being -0. *)
Lemma mul_minus_one (v : Z) :
  0 <= v < 2 ^ 53 -> (of_Z v * -1)%float = (- of_Z v)%float.
Proof.
  intros Hv. apply Prim2SF_inj.
  rewrite mul_spec, opp_spec, Prim2SF_of_Z by lia.
  change (Prim2SF (-1)%float) with (Spec.normalSF (-1)).
  destruct (Z.eq_dec v 0) as [->|Nv]; [reflexivity|].
  rewrite SFmul_integers by lia.
  destruct v as [|p|p]; [congruence | | lia].
  replace (Zpos p * -1) with (Zneg p) by lia. reflexivity.
Qed.

End ExactArithmetic.

(** *** fastParseInt *)

Section FastParseInt.

Local Open Scope Z_scope.

Lemma digits_ge (l : str) (acc k v n : Z) (r : str) :
  0 <= acc -> digits 10 l acc k = (v, n, r) -> acc <= v /\ k <= n.
Proof.
  revert acc k. induction l as [|c l IH]; intros acc k Ha H; simpl in H.
  - injection H as <- <- _. lia.
  - destruct (digitValue c) as [d|] eqn:D.
    + destruct (Z.ltb_spec d 10).
      * assert (0 <= d).
        { unfold digitValue in D.
          destruct ((48 <=? c) && (c <=? 57)) eqn:E1;
            [injection D as <-; lia|].
          destruct ((97 <=? c) && (c <=? 122)) eqn:E2;
            [injection D as <-; lia|].
          destruct ((65 <=? c) && (c <=? 90)) eqn:E3;
            [injection D as <-; lia | discriminate]. }
        apply IH in H; lia.
      * injection H as <- <- _. lia.
    + injection H as <- <- _. lia.
Qed.

Lemma digit_step (c : Z) :
  (c - 48 <? 0) || (9 <? c - 48) = false ->
  digitValue c = Some (c - 48) /\ 0 <= c - 48 <= 9.
Proof.
  intros H. apply orb_false_elim in H. destruct H as [H1 H2].
  apply Z.ltb_ge in H1, H2. unfold digitValue.
  destruct (Z.leb_spec 48 c); [|lia].
  destruct (Z.leb_spec c 57); [|lia]. simpl. split; [reflexivity | lia].
Qed.

Lemma digit_stop (c : Z) (l : str) (acc k : Z) :
  (c - 48 <? 0) || (9 <? c - 48) = true ->
  digits 10 (c :: l) acc k = (acc, k, c :: l).
Proof.
  intros H. simpl. unfold digitValue.
  destruct (Z.leb_spec 48 c); destruct (Z.leb_spec c 57); simpl.
  - apply orb_true_iff in H. destruct H as [H|H];
      [apply Z.ltb_lt in H | apply Z.ltb_lt in H]; lia.
  - destruct ((97 <=? c) && (c <=? 122)) eqn:E2.
    + apply andb_prop in E2. destruct E2 as [E2 _]. apply Z.leb_le in E2.
      destruct (Z.ltb_spec (c - 87) 10); [lia | reflexivity].
    + destruct ((65 <=? c) && (c <=? 90)) eqn:E3; [|reflexivity].
      apply andb_prop in E3. destruct E3 as [E3 _]. apply Z.leb_le in E3.
      destruct (Z.ltb_spec (c - 55) 10); [lia | reflexivity].
  - destruct ((97 <=? c) && (c <=? 122)) eqn:E2.
    + apply andb_prop in E2. destruct E2 as [E2 _]. apply Z.leb_le in E2. lia.
    + destruct ((65 <=? c) && (c <=? 90)) eqn:E3; [|reflexivity].
      apply andb_prop in E3. destruct E3 as [E3 _]. apply Z.leb_le in E3. lia.
  - lia.
Qed.

(** The digit loop of [fastParseInt] reads the digits that [parseInt]
    reads, and holds their exact value as long as it is below 2^53. *)
Lemma fastParseInt_digits_spec (s : str) (end_ : Z) (fuel : nat) (j : Z)
    (acc k : Z) (hd : bool) (v n : Z) (r : str) :
  0 <= j <= end_ -> end_ <= len s -> (Worker.span j end_ <= fuel)%nat ->
  0 <= acc ->
  digits 10 (slice s j end_) acc k = (v, n, r) -> v < 2 ^ 53 ->
  Worker.fastParseInt_digits fuel s j end_ (of_Z acc) hd
  = (of_Z v, hd || (k <? n)).
Proof.
  revert j acc k hd. unfold Worker.span.
  induction fuel as [|fuel IH]; intros j acc k hd Hj He Hf Ha D Hv;
    cbn [Worker.fastParseInt_digits].
  - assert (j = end_) by lia. subst j. rewrite slice_empty in D by lia.
    simpl in D. injection D as <- <- _.
    rewrite Z.ltb_irrefl, orb_false_r. reflexivity.
  - destruct (Z.ltb_spec j end_) as [L|L].
    + destruct (nth_error_inside s j ltac:(lia)) as [c Hc].
      rewrite (slice_first s j end_ c) in D by (lia || assumption).
      unfold charCodeAt. destruct (Z.ltb_spec j 0); [lia|]. rewrite Hc.
      cbv zeta.
      destruct ((c - 48 <? 0) || (9 <? c - 48)) eqn:S.
      * rewrite digit_stop in D by assumption. injection D as <- <- _.
        rewrite Z.ltb_irrefl, orb_false_r. reflexivity.
      * destruct (digit_step c S) as [DV DR].
        cbn [digits] in D. rewrite DV in D.
        destruct (Z.ltb_spec (c - 48) 10); [|lia].
        destruct (digits_ge (slice s (j + 1) end_) (acc * 10 + (c - 48))
                    (k + 1) v n r ltac:(lia) D) as [G1 G2].
        change 10%float with (of_Z 10).
        rewrite mul_of_Z by lia.
        rewrite add_of_Z by lia.
        rewrite (IH (j + 1) (acc * 10 + (c - 48)) (k + 1) true)
          by (lia || assumption).
        destruct (Z.ltb_spec k n); [|lia].
        rewrite orb_true_r. reflexivity.
    + assert (j = end_) by lia. subst j. rewrite slice_empty in D by lia.
      simpl in D. injection D as <- <- _.
      rewrite Z.ltb_irrefl, orb_false_r. reflexivity.
Qed.

Lemma strip_sign_other (x : Z) (r : str) :
  x <> 45 -> x <> 43 -> strip_sign (x :: r) = (false, x :: r).
Proof.
  intros H1 H2. unfold strip_sign.
  destruct x as [|p|p]; try reflexivity.
  do 6 (destruct p as [p|p|]; try reflexivity; try congruence).
Qed.

Lemma parseInt_decimal (t : str) :
  parseInt t 10
  = let '(neg, s1) := strip_sign (trimStart t) in
    let '(v, n, _) := digits 10 s1 0 0 in
    if n =? 0 then nan else with_sign neg (of_Z v).
Proof.
  unfold parseInt. change (wrap_signed 32 10) with 10.
  destruct (strip_sign (trimStart t)) as [neg s1]. reflexivity.
Qed.

(** X17: [fastParseInt] reads a number as [parseInt] with the radix 10
    does.  For a range of the text whose leading white space is made of
    spaces and tabs only, and whose digits make a value below 2^53, it
    returns [null] when [parseInt] returns [NaN] on the characters of the
    range, that is when no digit follows the optional sign, and otherwise
    the number that [parseInt] returns, [-0] included. *)
Theorem fastParseInt_parseInt (s : str) (start end_ : Z) (neg : bool)
    (body : str) (v n : Z) (r : str) :
  0 <= start <= end_ -> end_ <= len s ->
  trimStart (slice s start end_) = Notions.dropBlanks (slice s start end_) ->
  strip_sign (trimStart (slice s start end_)) = (neg, body) ->
  digits 10 body 0 0 = (v, n, r) -> v < 2 ^ 53 ->
  Worker.fastParseInt s start end_
  = if n =? 0 then None else Some (parseInt (slice s start end_) 10).
Proof.
  intros H1 H2 HT HS HD Hv.
  rewrite parseInt_decimal, HS, HD.
  unfold Worker.fastParseInt.
  destruct (skipUp_dropBlanks s (Worker.span start end_) start end_
              H1 H2 ltac:(unfold Worker.span; lia)) as [B E].
  cbv zeta in B, E.
  set (i := Worker.skipUp (Worker.span start end_) (Worker.isSpaceTab s)
              start end_) in *.
  rewrite HT, E in HS.
  destruct (digits_ge body 0 0 v n r ltac:(lia) HD) as [V0 N0].
  destruct (Z.eq_dec i end_) as [Ei|Ni].
  - rewrite Ei, slice_empty in HS by lia. simpl in HS.
    injection HS as <- <-. simpl in HD. injection HD as <- <- _.
    rewrite Ei.
    assert (Z0 : forall i1, end_ <= i1 ->
              Worker.fastParseInt_digits (Worker.span i1 end_) s i1 end_
                0%float false = (0%float, false)).
    { intros i1 Hi. unfold Worker.span.
      replace (Z.to_nat (end_ - i1)) with O by lia. reflexivity. }
    destruct (codeIs s end_ 45); [rewrite Z0 by lia; reflexivity|].
    destruct (codeIs s end_ 43); rewrite Z0 by lia; reflexivity.
  - destruct (nth_error_inside s i ltac:(lia)) as [x Hx].
    rewrite (slice_first s i end_ x) in HS by (lia || assumption).
    assert (C : forall c, codeIs s i c = (x =? c)).
    { intros c. unfold codeIs, charCodeAt.
      destruct (Z.ltb_spec i 0); [lia|]. now rewrite Hx. }
    rewrite !C.
    assert (F : forall i1 body',
              i1 = i + 1 \/ (i1 = i /\ x <> 45 /\ x <> 43) ->
              body' = slice s i1 end_ -> body = body' ->
              Worker.fastParseInt_digits (Worker.span i1 end_) s i1 end_
                0%float false = (of_Z v, 0 <? n)).
    { intros i1 body' Hi E1 E2.
      assert (D' : digits 10 (slice s i1 end_) 0 0 = (v, n, r))
        by (rewrite <- E1, <- E2; exact HD).
      change 0%float with (of_Z 0).
      rewrite (fastParseInt_digits_spec s end_ _ i1 0 0 false v n r);
        try assumption; try lia; reflexivity. }
    destruct (Z.eqb_spec x 45) as [E45|N45].
    + subst x. simpl in HS. injection HS as <- <-.
      rewrite (F (i + 1) _ (or_introl eq_refl) eq_refl eq_refl).
      destruct (Z.ltb_spec 0 n); destruct (Z.eqb_spec n 0); try lia;
        [|reflexivity].
      rewrite mul_minus_one by lia. reflexivity.
    + destruct (Z.eqb_spec x 43) as [E43|N43].
      * subst x. simpl in HS. injection HS as <- <-.
        rewrite (F (i + 1) _ (or_introl eq_refl) eq_refl eq_refl).
        destruct (Z.ltb_spec 0 n); destruct (Z.eqb_spec n 0); try lia;
          [|reflexivity].
        change 1%float with (of_Z 1). rewrite mul_of_Z by lia.
        rewrite Z.mul_1_r. reflexivity.
      * rewrite strip_sign_other in HS by assumption.
        injection HS as <- <-.
        rewrite (F i (x :: slice s (i + 1) end_));
          [| right; auto
           | symmetry; apply slice_first; lia || assumption
           | reflexivity].
        destruct (Z.ltb_spec 0 n); destruct (Z.eqb_spec n 0); try lia;
          [|reflexivity].
        change 1%float with (of_Z 1). rewrite mul_of_Z by lia.
        rewrite Z.mul_1_r. reflexivity.
Qed.

End FastParseInt.

Lemma fastParseInt_parseInt_witness :
  Worker.fastParseInt (lit "2, -1500 ,77") 2 9
  = Some (parseInt (slice (lit "2, -1500 ,77") 2 9) 10).
Proof.
  apply (fastParseInt_parseInt (lit "2, -1500 ,77") 2 9 true
           (lit "1500 ") 1500 4 (lit " ")).
  - lia.
  - vm_compute. discriminate.
  - reflexivity.
  - reflexivity.
  - reflexivity.
  - reflexivity.
Defined.

(** *** createItemId *)

Section ItemIds.

Local Open Scope Z_scope.

Lemma ToInt32_integer (z : Z) :
  Z.abs z < 2 ^ 53 -> ToInt32 (of_Z z) = wrap_signed 32 z.
Proof.
  intros H. unfold ToInt32. now rewrite truncate_of_Z.
Qed.

Lemma wrap_signed_congruent (a b : Z) :
  a mod 2 ^ 32 = b mod 2 ^ 32 -> wrap_signed 32 a = wrap_signed 32 b.
Proof. intros H. unfold wrap_signed. now rewrite H. Qed.

Lemma wrap_signed_mod (a : Z) :
  wrap_signed 32 a mod 2 ^ 32 = a mod 2 ^ 32.
Proof.
  unfold wrap_signed.
  destruct (a mod 2 ^ 32 <? 2 ^ (32 - 1)).
  - apply Z.mod_mod. lia.
  - rewrite Zminus_mod, Z_mod_same_full, Z.sub_0_r, !Z.mod_mod by lia.
    reflexivity.
Qed.

Lemma createItemId_step_hash (h c : Z) :
  - 2 ^ 31 <= h < 2 ^ 31 -> 0 <= c < 65536 ->
  App.createItemId_step (of_Z h) c = of_Z (wrap_signed 32 (31 * h + c)).
Proof.
  intros Hh Hc. unfold App.createItemId_step.
  rewrite ToInt32_of_Z by assumption.
  pose proof (wrap_signed_32 (h * 2 ^ 5)) as [W _].
  change (2 ^ 31) with 2147483648 in *.
  change (2 ^ 53) with 9007199254740992 in *.
  rewrite sub_of_Z by (change (2 ^ 53) with 9007199254740992; lia).
  rewrite add_of_Z by (change (2 ^ 53) with 9007199254740992; lia).
  rewrite ToInt32_integer by (change (2 ^ 53) with 9007199254740992; lia).
  f_equal. apply wrap_signed_congruent.
  rewrite Zplus_mod, Zminus_mod, wrap_signed_mod.
  rewrite <- Zminus_mod, <- Zplus_mod. f_equal. lia.
Qed.

Lemma createItemId_fold (seed : str) (h : Z) :
  - 2 ^ 31 <= h < 2 ^ 31 -> Notions.codeUnits seed ->
  fold_left App.createItemId_step seed (of_Z h)
  = of_Z (fold_left (fun h c => wrap_signed 32 (31 * h + c)) seed h).
Proof.
  revert h. induction seed as [|c seed IH]; intros h Hh Hs; [reflexivity|].
  unfold Notions.codeUnits in Hs. cbn [forallb] in Hs.
  apply andb_prop in Hs. destruct Hs as [Hc Hl].
  apply andb_prop in Hc. destruct Hc as [C1 C2].
  apply Z.leb_le in C1. apply Z.ltb_lt in C2.
  cbn [fold_left].
  rewrite createItemId_step_hash by (assumption || lia).
  apply IH; [apply wrap_signed_32 | exact Hl].
Qed.

Lemma hash31_range (seed : str) (h : Z) :
  - 2 ^ 31 <= h < 2 ^ 31 ->
  - 2 ^ 31 <= fold_left (fun h c => wrap_signed 32 (31 * h + c)) seed h
  < 2 ^ 31.
Proof.
  revert h. induction seed as [|c seed IH]; intros h Hh; [exact Hh|].
  simpl. apply IH. apply wrap_signed_32.
Qed.

Lemma abs_of_Z (z : Z) :
  Z.abs z < 2 ^ 53 -> abs (of_Z z) = of_Z (Z.abs z).
Proof.
  intros H. apply Prim2SF_inj.
  rewrite abs_spec, !Prim2SF_of_Z by lia.
  destruct z; reflexivity.
Qed.

(** X18: the id of an item is made from its path by the hash with the
    multiplier 31 kept in 32 bits.  For a path that is not empty,
    [createItemId] returns [id-], then the magnitude of that hash in the
    radix 36, then the length of the path in the radix 36: the shift, the
    subtraction and the addition of numbers in the loop lose nothing. *)
Theorem createItemId_hash31 (fresh seed : str) :
  seed <> [] -> Notions.codeUnits seed ->
  App.createItemId fresh seed
  = lit "id-" ++ App.toString36 (Z.abs (Notions.hash31 seed))
    ++ App.toString36 (len seed).
Proof.
  intros Hn Hs. unfold App.createItemId.
  destruct seed as [|c seed]; [congruence|]. cbn [Renderer.isEmpty].
  change 0%float with (of_Z 0).
  rewrite createItemId_fold by (assumption || lia).
  fold (Notions.hash31 (c :: seed)).
  pose proof (hash31_range (c :: seed) 0 ltac:(lia)) as R.
  fold (Notions.hash31 (c :: seed)) in R.
  change (2 ^ 31) with 2147483648 in R.
  rewrite abs_of_Z by (change (2 ^ 53) with 9007199254740992; lia).
  rewrite truncate_of_Z
    by (change (2 ^ 53) with 9007199254740992; lia).
  reflexivity.
Qed.

End ItemIds.

Lemma createItemId_hash31_witness :
  App.createItemId [] (lit "C:/Songs/map.osu")
  = lit "id-"
    ++ App.toString36 (Z.abs (Notions.hash31 (lit "C:/Songs/map.osu")))
    ++ App.toString36 (len (lit "C:/Songs/map.osu")).
Proof.
  apply (createItemId_hash31 [] (lit "C:/Songs/map.osu")).
  - discriminate.
  - reflexivity.
Defined.

(** X19: [createItemId] does not tell all paths apart: there are two
    different paths, neither of them empty, that get the same id. *)
Theorem createItemId_collides :
  exists a b : str,
    a <> b /\ a <> [] /\ b <> []
    /\ forall fresh, App.createItemId fresh a = App.createItemId fresh b.
Proof.
  exists (lit "Aa"), (lit "BB").
  split; [discriminate|]. split; [discriminate|]. split; [discriminate|].
  intros fresh. vm_compute. reflexivity.
Qed.

(** *** The hit object of a line, in the two parsers *)

(** X20: the worker computes a hit object from the fields of its line as
    the renderer does.  When the two timing resolvers agree at the time of
    the object, [parseHitObject] returns the time and the type that the
    renderer reads from the same fields, and as end the larger of the time
    and of the end time that [parseHitObjects] computes for a slider, a
    spinner, a hold note or any other object; a line of fewer than four
    fields gives no object. *)
Theorem parseHitObject_as_renderer (content : str) (lineStart lineEnd : Z)
    (sliderMultiplier : number) (timingPoints : list timingPoint) :
  let parts := split 44 (Worker.extractTrimmed content lineStart lineEnd) in
  let time := parseInt (Renderer.part parts 2) 0 in
  let type := parseInt (Renderer.part parts 3) 0 in
  Worker.getTimingInfo time timingPoints
  = Renderer.getTiming timingPoints time ->
  Worker.parseHitObject content lineStart lineEnd sliderMultiplier
    timingPoints
  = if (List.length parts <? 4)%nat then None
    else Some (Worker.HitObject time
                 (Math_max time
                    (Renderer.hitEndTime sliderMultiplier timingPoints parts
                       time type))
                 type).
Proof.
  intros parts time type H.
  unfold Worker.parseHitObject, Renderer.hitEndTime. fold parts.
  destruct (List.length parts <? 4)%nat; [reflexivity|].
  change (Worker.part parts 2) with (Renderer.part parts 2).
  change (Worker.part parts 3) with (Renderer.part parts 3).
  fold time. fold type. rewrite H. reflexivity.
Qed.

Lemma parseHitObject_as_renderer_witness :
  let content := lit "256,192,1000,2,0,L|300:192,1,140" in
  Worker.parseHitObject content 0 (len content) 1.4%float []
  = Some (Worker.HitObject 1000%float
            (Math_max 1000%float
               (Renderer.hitEndTime 1.4%float []
                  (split 44 (Worker.extractTrimmed content 0 (len content)))
                  1000%float 2%float))
            2%float).
Proof.
  apply (parseHitObject_as_renderer
           (lit "256,192,1000,2,0,L|300:192,1,140") 0
           (len (lit "256,192,1000,2,0,L|300:192,1,140")) 1.4%float []).
  reflexivity.
Defined.

(** *** Ends and starts *)

Lemma Forall2_nth {A B : Type} (P : A -> B -> Prop) (l1 : list A)
    (l2 : list B) :
  List.length l1 = List.length l2 ->
  (forall i a b, nth_error l1 i = Some a -> nth_error l2 i = Some b ->
                 P a b) ->
  Forall2 P l1 l2.
Proof.
  revert l2. induction l1 as [|a l1 IH]; intros [|b l2] HL H;
    try discriminate.
  - constructor.
  - constructor.
    + apply (H O); reflexivity.
    + apply IH; [simpl in HL; lia|].
      intros i x y Hx Hy. apply (H (S i)); assumption.
Qed.

(** X21: in the renderer no hit object ends before it starts, unless its
    end is not a number: for every file text, the arrays that
    [parseHitObjects] returns hold, index by index, a start and an end
    that is [NaN] or is the start or more. *)
Theorem parseHitObjects_ends_after_starts (content : str) :
  Forall2 (fun start end_ =>
             is_nan end_ = false -> (start <=? end_)%float = true)
    (fst (Renderer.parseHitObjects content))
    (snd (Renderer.parseHitObjects content)).
Proof.
  apply Forall2_nth.
  - apply (hit_arrays_lengths content).
  - intros i start end_ Hs He Hn.
    now apply (parseHitObjects_end_after_start content i).
Qed.

(** X22: in the worker no hit object ends before it starts when the times
    are integers that fit in 32 bits: if the start and the computed end of
    every accepted hit object are such integers, the arrays that
    [parseOsuFile] returns hold, index by index, a start and an end that
    is the start or more. *)
Theorem parseOsuFile_ends_after_starts (content : str) :
  Forall (fun o => exists a b,
            Worker.o_start o = of_Z a /\ Worker.o_end o = of_Z b
            /\ (- 2 ^ 31 <= a < 2 ^ 31)%Z /\ (- 2 ^ 31 <= b < 2 ^ 31)%Z)
    (Spec.workerHitObjects content) ->
  Forall2 Z.le (Worker.p_hitStarts (Worker.parseOsuFile content))
    (Worker.p_hitEnds (Worker.parseOsuFile content)).
Proof.
  intros H. rewrite Forall_forall in H. apply Forall2_nth.
  - apply (hit_arrays_lengths content).
  - intros i s e Hs He.
    destruct (parseOsuFile_gap_fill content) as [ES _].
    assert (Hi : (i < List.length (Spec.workerHitObjects content))%nat).
    { assert (L : (i < List.length
                        (Worker.p_hitStarts (Worker.parseOsuFile content)))%nat)
        by (apply nth_error_Some; congruence).
      rewrite ES, length_map in L. exact L. }
    destruct (nth_error (Spec.workerHitObjects content) i) as [o|] eqn:No;
      [|apply nth_error_None in No; lia].
    destruct (H o (nth_error_In _ _ No)) as (a & b & Ea & Eb & Ra & Rb).
    destruct (parseOsuFile_end_after_start content i o a b No Ea Eb Ra Rb)
      as (s' & e' & Hs' & He' & L).
    + destruct (nth_error (Spec.workerHitObjects content) (S i))
        as [next|] eqn:Nn; [|exact I].
      destruct (H next (nth_error_In _ _ Nn)) as (c & _ & Ec & _ & Rc & _).
      exists c. auto.
    + congruence.
Qed.

Lemma parseOsuFile_ends_after_starts_witness :
  Forall2 Z.le (Worker.p_hitStarts (Worker.parseOsuFile Spec.nearbyFile))
    (Worker.p_hitEnds (Worker.parseOsuFile Spec.nearbyFile)).
Proof.
  apply (parseOsuFile_ends_after_starts Spec.nearbyFile).
  change (Spec.workerHitObjects Spec.nearbyFile)
    with [Worker.HitObject (of_Z 0) (of_Z 0) 2%float;
          Worker.HitObject (of_Z 1500) (of_Z 1500) 1%float].
  constructor; [exists 0%Z, 0%Z; simpl; repeat split; lia|].
  constructor; [exists 1500%Z, 1500%Z; simpl; repeat split; lia|].
  constructor.
Defined.

(** *** The background that the parsers return *)

Lemma scan_invariant (P : Worker.scanState -> Prop) (content : str) :
  (forall i st, P st -> P (Worker.scanLine content i st)) ->
  forall fuel i st, P st -> P (Worker.scan fuel content i st).
Proof.
  intros Step. induction fuel as [|fuel IH]; intros i st H; [exact H|].
  cbn [Worker.scan]. cbv zeta.
  destruct (i <=? len content)%Z; [|exact H].
  match goal with
  | |- P (if ?c then _ else _) => destruct c
  end; apply IH; [apply Step|]; exact H.
Qed.





(** *** The files of a scan *)

Lemma processFile_counts (toLowerCaseFull : str -> str)
    (needle : option str) (knownFiles : str -> option number)
    (t : Scanner.tally) (file : Scanner.fileOnDisk) (n : nat) :
  (List.length (Scanner.results t) + Scanner.skippedCount t
   + Scanner.errorCount t = n
   /\ Scanner.processedCount t = n
   /\ Scanner.cachedCount t <= List.length (Scanner.results t))%nat ->
  let t' := Scanner.processFile toLowerCaseFull needle knownFiles t file in
  (List.length (Scanner.results t') + Scanner.skippedCount t'
   + Scanner.errorCount t' = S n
   /\ Scanner.processedCount t' = S n
   /\ Scanner.cachedCount t' <= List.length (Scanner.results t'))%nat.
Proof.
  intros (H1 & H2 & H3). unfold Scanner.processFile.
  destruct (Scanner.f_mtimeMs file) as [mtime|]; [|simpl; lia].
  destruct (match knownFiles (Scanner.f_path file) with
            | Some recorded => (recorded =? mtime)%float
            | None => false
            end).
  - destruct (Scanner.filteredOut toLowerCaseFull needle file); simpl;
      rewrite ?length_app; simpl; lia.
  - destruct (Scanner.filteredOut toLowerCaseFull needle file);
      [simpl; lia|].
    destruct (Scanner.f_content file); simpl; rewrite ?length_app; simpl; lia.
Qed.

(** X24: [processFiles] accounts for every file once.  Whatever the file
    system answers, the mapper filter and the known files are, each path
    ends as a result, as a skipped file or as an error: the number of
    results, the count of skipped files and the count of errors add up to
    the number of paths, which is also the final count of processed
    files; the unchanged files counted as cached are among the results. *)
Theorem processFiles_accounts (toLowerCaseFull : str -> str)
    (mapperName : str) (knownFiles : str -> option number)
    (files : list Scanner.fileOnDisk) :
  let t := Scanner.processFiles toLowerCaseFull mapperName knownFiles files in
  (List.length (Scanner.results t) + Scanner.skippedCount t
   + Scanner.errorCount t = List.length files
   /\ Scanner.processedCount t = List.length files
   /\ Scanner.cachedCount t <= List.length (Scanner.results t))%nat.
Proof.
  unfold Scanner.processFiles.
  set (needle := Scanner.needleOf toLowerCaseFull mapperName).
  assert (G : forall fs t n,
             (List.length (Scanner.results t) + Scanner.skippedCount t
              + Scanner.errorCount t = n
              /\ Scanner.processedCount t = n
              /\ Scanner.cachedCount t
                 <= List.length (Scanner.results t))%nat ->
             let t' := fold_left
                         (Scanner.processFile toLowerCaseFull needle knownFiles)
                         fs t in
             (List.length (Scanner.results t') + Scanner.skippedCount t'
              + Scanner.errorCount t' = n + List.length fs
              /\ Scanner.processedCount t' = n + List.length fs
              /\ Scanner.cachedCount t'
                 <= List.length (Scanner.results t'))%nat).
  { induction fs as [|file rest IH]; intros t n H.
    - simpl. rewrite Nat.add_0_r. exact H.
    - simpl fold_left. simpl List.length.
      replace (n + S (List.length rest))%nat
        with (S n + List.length rest)%nat by lia.
      apply IH. now apply processFile_counts. }
  apply (G files (Scanner.Tally [] 0 0 0 0) O). simpl. lia.
Qed.

(** *** The slider multiplier *)

Lemma or_else_truthy (x y : number) :
  truthy y = true -> truthy (or_else x y) = true.
Proof.
  intros H. unfold or_else. destruct (truthy x) eqn:E; assumption.
Qed.

Lemma scanLine_sliderMultiplier (content : str) (i : Z)
    (st : Worker.scanState) :
  truthy (Worker.sliderMultiplier st) = true ->
  truthy (Worker.sliderMultiplier (Worker.scanLine content i st)) = true.
Proof.
  intros H. unfold Worker.scanLine. cbv zeta.
  repeat match goal with
         | |- context [if ?c then Worker.set_lineStart _ _ else _] =>
             destruct c; [exact H|]
         end.
  unfold Worker.dispatchLine.
  destruct (Worker.section st); try exact H.
  - unfold Worker.parseSliderMultiplier.
    destruct ((indexOf content 58 _ =? -1)%Z || _); [exact H|].
    destruct (str_eqb _ _); [|exact H].
    cbn [Worker.set_lineStart Worker.set_sliderMultiplier
         Worker.sliderMultiplier].
    apply or_else_truthy. reflexivity.
  - cbn [Worker.set_lineStart Worker.sliderMultiplier].
    unfold Worker.parseEventLine.
    repeat match goal with
           | |- context [if ?c then _ else _] => destruct c
           | |- context [let '(_, _) := ?p in _] => destruct p
           | |- context [match ?a with Some _ => _ | None => _ end] =>
               destruct a
           end; exact H.
  - destruct (Worker.parseTimingPoint _ _ _); exact H.
  - destruct (Worker.parseHitObject _ _ _ _ _); exact H.
Qed.

Lemma parseHitObjects_line_sliderMultiplier (st : Renderer.hitState)
    (line : str) :
  truthy (Renderer.sliderMultiplier st) = true ->
  truthy (Renderer.sliderMultiplier (Renderer.parseHitObjects_line st line))
  = true.
Proof.
  intros H. unfold Renderer.parseHitObjects_line. cbv zeta.
  repeat match goal with
         | |- context [if ?c then _ else _] => destruct c
         | |- context [let '(_, _) := ?p in _] => destruct p
         end; try exact H.
  cbn [Renderer.sliderMultiplier]. apply or_else_truthy. reflexivity.
Qed.

(** X25: the slider multiplier that the ends of sliders are computed with
    is never zero and never [NaN]: it is 1 at the start, and a line of the
    Difficulty section replaces it by the number it holds only when that
    number is neither, in the scan of the worker as in the passes of
    [parseHitObjects] over the lines. *)
Theorem sliderMultiplier_never_zero (content : str) (fuel : nat) (i : Z)
    (lines : list str) :
  truthy (Worker.sliderMultiplier
            (Worker.scan fuel content i (Worker.initialState content)))
  = true
  /\ truthy (Renderer.sliderMultiplier
               (fold_left Renderer.parseHitObjects_line lines
                  Renderer.parseHitObjects_init))
     = true.
Proof.
  split.
  - apply (scan_invariant
             (fun st => truthy (Worker.sliderMultiplier st) = true)).
    + intros j st. apply scanLine_sliderMultiplier.
    + reflexivity.
  - assert (G : forall ls st,
               truthy (Renderer.sliderMultiplier st) = true ->
               truthy (Renderer.sliderMultiplier
                         (fold_left Renderer.parseHitObjects_line ls st))
               = true).
    { induction ls as [|line rest IH]; intros st H; [exact H|].
      simpl. apply IH. now apply parseHitObjects_line_sliderMultiplier. }
    apply G. reflexivity.
Qed.

(** *** The tabs and the views *)

Lemma countVisible_listed {item : Type} (idOf : item -> str)
    (isGuestDifficultyItem : item -> bool) (beatmapItems : list item)
    (ids : list str) (count : nat) :
  fold_left (App.countVisible item idOf isGuestDifficultyItem beatmapItems)
    ids count
  = (count
     + List.length
         (filter (fun i => negb (isGuestDifficultyItem i))
            (App.foundItems item idOf beatmapItems ids)))%nat.
Proof.
  revert count. induction ids as [|id rest IH]; intros count.
  - simpl. lia.
  - cbn [fold_left App.foundItems]. rewrite IH. unfold App.countVisible.
    destruct (App.findItem item idOf beatmapItems id) as [i|]; [|reflexivity].
    cbn [filter]. destruct (isGuestDifficultyItem i); simpl; lia.
Qed.

(** X26: the numbers on the To-do and Completed tabs are the numbers of
    items in the two views: [updateTabCounts] counts for the To-do tab as
    many items as [renderFromState] lists in the view [todo], and for the
    Completed tab as many as it lists in the view [completed], whatever
    the items, the two lists of ids and the search text are. *)
Theorem tab_counts_match_views {item : Type} (idOf : item -> str)
    (isGuestDifficultyItem : item -> bool)
    (filterItems : list item -> str -> list item)
    (sortItems : list item -> list item)
    (beatmapItems : list item) (st : App.lists) (searchQuery : str) :
  let counts :=
    App.updateTabCounts item idOf isGuestDifficultyItem beatmapItems st in
  let view := App.renderFromState item idOf isGuestDifficultyItem filterItems
                sortItems beatmapItems st in
  snd (fst counts) = List.length (view (lit "todo") searchQuery)
  /\ snd counts = List.length (view (lit "completed") searchQuery).
Proof.
  unfold App.updateTabCounts, App.renderFromState. cbn [fst snd].
  rewrite !countVisible_listed. split; reflexivity.
Qed.
